(** * Blur-scoring engine of [blurry]: a shallow embedding and its properties

    The development follows the JavaScript sources:
    - [src/detector/laplacian.js], [variance.js], [gradient.js],
      [tenengrad.js]: the four focus-measure kernels;
    - [src/detector/composite.js]: normalisation and the weighted composite;
    - [src/detector/patch-based.js]: patch aggregation strategies;
    - [src/utils/calibration.js]: calibration statistics;
    - [src/detector/index.js], [src/index.js]: the per-image boundary;
    - [src/detector/preview-extractor.js]: the choice of the preview;
    - [src/scanner/file-scanner.js]: the list of files to analyse;
    - [src/utils/file-operations.js]: copying, moving and renaming the
      blurry files;
    - [src/reporters/console.js], [src/reporters/json.js]: the summary of
      a run.

    Numbers.  A JavaScript number is an IEEE-754 binary64 value.  The model
    keeps the special values that decide control flow and error behaviour
    (NaN, +Infinity, -Infinity) and computes the finite ones exactly, as
    rationals: rounding is not modelled, the two zeros are identified (a
    finite zero stands for +0), and a [Float32Array] cell holds the value
    written to it.  [Math.sqrt], [Math.exp] and [Math.log10] are library
    functions of the platform; they are taken as a parameter ([MathLib])
    together with the facts the engine relies on.  The composite weights are
    additionally evaluated in true binary64 arithmetic ([composite64]). *)

From Stdlib Require Import QArith Qround Qabs Qpower Lqa Lia ZArith Bool List String.
From Stdlib Require Import Permutation Sorted PrimFloat Setoid Morphisms.
From Stdlib Require Import Ascii.
Import ListNotations.

Set Warnings "-inexact-float".

Set Implicit Arguments.
Local Open Scope Q_scope.

(* ================================================================== *)
(** ** JavaScript numbers *)
(* ================================================================== *)

Module JS.

Inductive num : Type :=
| Fin (q : Q)
| PInf
| NInf
| NaN.

Definition zero : num := Fin 0.
Definition of_nat (n : nat) : num := Fin (inject_Z (Z.of_nat n)).
Definition of_Z (z : Z) : num := Fin (inject_Z z).

Definition is_finite (a : num) : bool :=
  match a with Fin _ => true | _ => false end.

Definition is_nan (a : num) : bool :=
  match a with NaN => true | _ => false end.

(** Equality of values: rationals up to [Qeq], the special values by name.
    (This is the meta-level "same value", under which NaN equals itself; the
    JavaScript operator [===] is [eqb] below.) *)
Definition num_eq (a b : num) : Prop :=
  match a, b with
  | Fin x, Fin y => x == y
  | PInf, PInf => True
  | NInf, NInf => True
  | NaN, NaN => True
  | _, _ => False
  end.

Definition neg (a : num) : num :=
  match a with
  | Fin x => Fin (- x)
  | PInf => NInf
  | NInf => PInf
  | NaN => NaN
  end.

Definition add (a b : num) : num :=
  match a, b with
  | NaN, _ | _, NaN => NaN
  | Fin x, Fin y => Fin (x + y)
  | PInf, NInf | NInf, PInf => NaN
  | PInf, _ | _, PInf => PInf
  | NInf, _ | _, NInf => NInf
  end.

Definition sub (a b : num) : num := add a (neg b).

(** The sign of an infinite product or quotient. *)
Definition signed_inf (c : comparison) : num :=
  match c with Gt => PInf | Lt => NInf | Eq => NaN end.

Definition mul (a b : num) : num :=
  match a, b with
  | NaN, _ | _, NaN => NaN
  | Fin x, Fin y => Fin (x * y)
  | Fin x, PInf | PInf, Fin x => signed_inf (x ?= 0)
  | Fin x, NInf | NInf, Fin x => signed_inf (0 ?= x)
  | PInf, PInf | NInf, NInf => PInf
  | PInf, NInf | NInf, PInf => NInf
  end.

(** Division: a finite non-zero value over zero is an infinity, 0/0 is NaN. *)
Definition div (a b : num) : num :=
  match a, b with
  | NaN, _ | _, NaN => NaN
  | Fin x, Fin y =>
      if Qeq_bool y 0 then signed_inf (x ?= 0) else Fin (x / y)
  | Fin _, PInf | Fin _, NInf => Fin 0
  | PInf, Fin y => if Qle_bool 0 y then PInf else NInf
  | NInf, Fin y => if Qle_bool 0 y then NInf else PInf
  | _, _ => NaN
  end.

(** Truncation towards zero, as used by [%] and by index conversion. *)
Definition Qtrunc (q : Q) : Z :=
  if Qle_bool 0 q then Qfloor q else Qceiling q.

(** The remainder operator [a % b]. *)
Definition rem (a b : num) : num :=
  match a, b with
  | Fin x, Fin y =>
      if Qeq_bool y 0 then NaN
      else Fin (x - y * inject_Z (Qtrunc (x / y)))
  | Fin x, PInf | Fin x, NInf => Fin x
  | _, _ => NaN
  end.

(** Comparisons: every comparison with NaN is false. *)
Definition lt (a b : num) : bool :=
  match a, b with
  | Fin x, Fin y => match x ?= y with Lt => true | _ => false end
  | Fin _, PInf | NInf, Fin _ | NInf, PInf => true
  | _, _ => false
  end.

Definition gt (a b : num) : bool := lt b a.

Definition le (a b : num) : bool :=
  match a, b with
  | Fin x, Fin y => match x ?= y with Gt => false | _ => true end
  | Fin _, PInf | NInf, Fin _ | NInf, PInf => true
  | PInf, PInf | NInf, NInf => true
  | _, _ => false
  end.

Definition ge (a b : num) : bool := le b a.

(** [a === b] on numbers. *)
Definition eqb (a b : num) : bool :=
  match a, b with
  | Fin x, Fin y => Qeq_bool x y
  | PInf, PInf | NInf, NInf => true
  | _, _ => false
  end.

(** [Math.min] and [Math.max] of two arguments: NaN if either is NaN. *)
Definition Math_min (a b : num) : num :=
  match a, b with
  | NaN, _ | _, NaN => NaN
  | _, _ => if lt b a then b else a
  end.

Definition Math_max (a b : num) : num :=
  match a, b with
  | NaN, _ | _, NaN => NaN
  | _, _ => if lt a b then b else a
  end.

(** [Math.max(...xs)] and [Math.min(...xs)]: the empty spread gives
    -Infinity and +Infinity. *)
Definition Math_max_list (xs : list num) : num := fold_left Math_max xs NInf.
Definition Math_min_list (xs : list num) : num := fold_left Math_min xs PInf.

Definition Math_floor (a : num) : num :=
  match a with Fin x => Fin (inject_Z (Qfloor x)) | _ => a end.

Definition Math_ceil (a : num) : num :=
  match a with Fin x => Fin (inject_Z (Qceiling x)) | _ => a end.

(** [Math.round]: the nearest integer, halves upwards. *)
Definition Math_round (a : num) : num :=
  match a with Fin x => Fin (inject_Z (Qfloor (x + (1 # 2)))) | _ => a end.

(** Truthiness of a number: 0 and NaN are falsy. *)
Definition truthy (a : num) : bool :=
  match a with
  | Fin x => negb (Qeq_bool x 0)
  | NaN => false
  | _ => true
  end.

(** [arr.slice(0, n)]: [n] goes through ToIntegerOrInfinity, and a negative
    end counts from the end of the array. *)
Definition slice0 {A : Type} (l : list A) (n : num) : list A :=
  match n with
  | Fin q =>
      let k := Qtrunc q in
      if (k <? 0)%Z then firstn (List.length l - Z.to_nat (- k)) l
      else firstn (Z.to_nat k) l
  | PInf => l
  | NInf | NaN => []
  end.

(** [arr.sort(cmp)]: a stable sort.  [cmp a b > 0] puts [b] first; a zero
    or NaN result leaves the two in their order.  For a comparator that is
    a consistent order the result of a stable sort is unique, and this
    insertion sort computes it. *)
Section Sort.
Context {A : Type} (cmp : A -> A -> num).

Fixpoint insert (x : A) (l : list A) : list A :=
  match l with
  | [] => [x]
  | y :: l' => if gt (cmp x y) zero then y :: insert x l' else x :: l
  end.

Definition sort (l : list A) : list A := fold_right insert [] l.
End Sort.

(** A typed-array or array read [arr[i]]: out of range it is [undefined],
    which arithmetic turns into NaN. *)
Definition get (arr : list num) (i : nat) : num := nth i arr NaN.

(** The same read with a computed number as the index: only a non-negative
    integer names an element. *)
Definition at_num (arr : list num) (i : num) : num :=
  match i with
  | Fin q =>
      if Qle_bool 0 q && Qeq_bool q (inject_Z (Qfloor q))
      then get arr (Z.to_nat (Qfloor q))
      else NaN
  | _ => NaN
  end.

(** A typed-array write [arr[i] = v]: out of range it has no effect. *)
Fixpoint set (arr : list num) (i : nat) (v : num) : list num :=
  match arr, i with
  | [], _ => []
  | _ :: t, O => v :: t
  | h :: t, S j => h :: set t j v
  end.

(** [new Float32Array(n)]: [n] zeros. *)
Definition Float32Array (n : nat) : list num := repeat zero n.

(** [arr.reduce((a, b) => a + b, 0)]. *)
Definition sum (arr : list num) : num := fold_left add arr zero.

End JS.

Declare Scope js_scope.
Delimit Scope js_scope with js.
Infix "+" := JS.add : js_scope.
Infix "-" := JS.sub : js_scope.
Infix "*" := JS.mul : js_scope.
Infix "/" := JS.div : js_scope.
Infix "<" := JS.lt : js_scope.
Infix ">" := JS.gt : js_scope.
Infix "<=" := JS.le : js_scope.
Infix ">=" := JS.ge : js_scope.
Infix "==" := JS.num_eq : js_scope.
Notation "- x" := (JS.neg x) : js_scope.
Coercion JS.Fin : Q >-> JS.num.


(* ================================================================== *)
(** ** Exceptions *)
(* ================================================================== *)

(** A computation returns a value or throws an [Error] with a message. *)
Inductive Exc (A : Type) : Type :=
| Ok (a : A)
| Throw (message : string).
Arguments Ok {A} a.
Arguments Throw {A} message.

Definition bind {A B : Type} (c : Exc A) (k : A -> Exc B) : Exc B :=
  match c with
  | Ok a => k a
  | Throw m => Throw m
  end.

Notation "x <- c ;; k" := (bind c (fun x => k))
  (at level 61, c at next level, right associativity).
Notation "' pat <- c ;; k" := (bind c (fun pat => k))
  (at level 61, pat pattern, c at next level, right associativity).

(** [try { body } catch (error) { handler(error.message) }]. *)
Definition try_catch {A : Type} (body : Exc A) (handler : string -> Exc A)
  : Exc A :=
  match body with
  | Ok a => Ok a
  | Throw m => handler m
  end.

(** [for (let i = lo; i < hi; i++) body]: the loop threads its state. *)
Definition for_loop {S : Type} (lo hi : nat) (body : nat -> S -> S) (s : S)
  : S :=
  fold_left (fun s i => body i s) (seq lo (hi - lo)) s.

(* ================================================================== *)
(** ** The platform: Math library and image decoding *)
(* ================================================================== *)

(** [Math.sqrt], [Math.exp] and [Math.log10] on finite arguments, with the
    facts the engine uses: a square root is non-negative and that of zero
    is zero; an exponential is positive (the arguments the engine passes
    are far from the underflow range). *)
Class MathLib : Type := {
  sqrtQ : Q -> Q;
  expQ : Q -> Q;
  log10Q : Q -> Q;
  sqrtQ_nonneg : forall q, 0 <= sqrtQ q;
  sqrtQ_zero : forall q, q == 0 -> sqrtQ q == 0;
  expQ_pos : forall q, 0 < expQ q
}.

Section MathFunctions.
Context {M : MathLib}.

Definition Math_sqrt (a : JS.num) : JS.num :=
  match a with
  | JS.Fin q => if Qle_bool 0 q then JS.Fin (sqrtQ q) else JS.NaN
  | JS.PInf => JS.PInf
  | _ => JS.NaN
  end.

Definition Math_exp (a : JS.num) : JS.num :=
  match a with
  | JS.Fin q => JS.Fin (expQ q)
  | JS.PInf => JS.PInf
  | JS.NInf => JS.Fin 0
  | JS.NaN => JS.NaN
  end.

Definition Math_log10 (a : JS.num) : JS.num :=
  match a with
  | JS.Fin q =>
      match q ?= 0 with
      | Gt => JS.Fin (log10Q q)
      | Eq => JS.NInf
      | Lt => JS.NaN
      end
  | JS.PInf => JS.PInf
  | _ => JS.NaN
  end.
End MathFunctions.

(** A decoded greyscale image: [data] is the byte buffer, row-major. *)
Record RawImage : Type := {
  data : list Z;
  width : nat;
  height : nat
}.

(** The image library ([sharp]) and the preview extractor are external.
    [sharp_raw buf] is [sharp(buf).grayscale().raw().toBuffer(...)],
    [sharp_metadata buf] gives width and height, [sharp_extract] cuts a
    region, [extract_preview] is [PreviewExtractor.extract] followed by
    [toBuffer], [scan] is [FileScanner.scan] and [basename] is
    [path.basename].  Each but the last may throw. *)
Class Platform : Type := {
  ImageBuffer : Type;
  sharp_raw : ImageBuffer -> Exc RawImage;
  sharp_metadata : ImageBuffer -> Exc (nat * nat);
  sharp_extract : ImageBuffer -> nat -> nat -> nat -> nat -> Exc ImageBuffer;
  extract_preview : string -> Exc ImageBuffer;
  scan : string -> Exc (list string);
  basename : string -> string
}.

(** A byte read [pixels[i]]. *)
Definition pixel (pixels : list Z) (i : nat) : JS.num :=
  match nth_error pixels i with
  | Some b => JS.of_Z b
  | None => JS.NaN
  end.

(* ================================================================== *)
(** ** Focus-measure kernels *)
(* ================================================================== *)

Local Open Scope js_scope.

Module LaplacianDetector.

Definition applyLaplacian (pixels : list Z) (width height : nat)
  : list JS.num :=
  for_loop 1 (height - 1) (fun y result =>
    for_loop 1 (width - 1) (fun x result =>
      let idx := (y * width + x)%nat in
      let sum :=
        pixel pixels ((y - 1) * width + x) * JS.Fin 1 +
        pixel pixels (y * width + (x - 1)) * JS.Fin 1 +
        pixel pixels (y * width + x) * JS.Fin (-4) +
        pixel pixels (y * width + (x + 1)) * JS.Fin 1 +
        pixel pixels ((y + 1) * width + x) * JS.Fin 1 in
      JS.set result idx sum) result)
    (JS.Float32Array (List.length pixels)).

Definition calculateVariance (data : list JS.num) : JS.num :=
  let '(sum, count) :=
    fold_left (fun '(sum, count) d => (sum + d, count + JS.Fin 1))
              data (JS.zero, JS.zero) in
  let mean := sum / count in
  let varianceSum :=
    fold_left (fun varianceSum d =>
                 let diff := d - mean in varianceSum + diff * diff)
              data JS.zero in
  varianceSum / count.

Definition calculateBlurScore {P : Platform} (imageBuffer : ImageBuffer)
  : Exc JS.num :=
  try_catch
    (img <- sharp_raw imageBuffer ;;
     let laplacian := applyLaplacian (data img) (width img) (height img) in
     Ok (calculateVariance laplacian))
    (fun message => Throw ("Failed to calculate blur score: " ++ message)%string).

Definition isBlurry (score threshold : JS.num) : bool := score < threshold.

End LaplacianDetector.

Module VarianceDetector.

Definition calculateVariance (pixels : list Z) : JS.num :=
  let n := JS.of_nat (List.length pixels) in
  let sum := fold_left (fun sum b => sum + JS.of_Z b) pixels JS.zero in
  let mean := sum / n in
  let varianceSum :=
    fold_left (fun varianceSum b =>
                 let diff := JS.of_Z b - mean in varianceSum + diff * diff)
              pixels JS.zero in
  varianceSum / n.

Definition calculateBlurScore {P : Platform} (imageBuffer : ImageBuffer)
  : Exc JS.num :=
  try_catch
    (img <- sharp_raw imageBuffer ;;
     Ok (calculateVariance (data img)))
    (fun message =>
       Throw ("Failed to calculate variance score: " ++ message)%string).

Definition isBlurry (score threshold : JS.num) : bool := score < threshold.

End VarianceDetector.

Module GradientDetector.

(** The state of the two nested loops is the pair of arrays [gx], [gy]. *)
Definition calculateGradients (pixels : list Z) (width height : nat)
  : list JS.num * list JS.num :=
  for_loop 1 (height - 1) (fun y g =>
    for_loop 1 (width - 1) (fun x '(gx, gy) =>
      let idx := (y * width + x)%nat in
      let sumX :=
        JS.zero +
        pixel pixels ((y - 1) * width + (x - 1)) * JS.Fin (-1) +
        pixel pixels ((y - 1) * width + (x + 1)) * JS.Fin 1 +
        pixel pixels (y * width + (x - 1)) * JS.Fin (-2) +
        pixel pixels (y * width + (x + 1)) * JS.Fin 2 +
        pixel pixels ((y + 1) * width + (x - 1)) * JS.Fin (-1) +
        pixel pixels ((y + 1) * width + (x + 1)) * JS.Fin 1 in
      let sumY :=
        JS.zero +
        pixel pixels ((y - 1) * width + (x - 1)) * JS.Fin (-1) +
        pixel pixels ((y - 1) * width + x) * JS.Fin (-2) +
        pixel pixels ((y - 1) * width + (x + 1)) * JS.Fin (-1) +
        pixel pixels ((y + 1) * width + (x - 1)) * JS.Fin 1 +
        pixel pixels ((y + 1) * width + x) * JS.Fin 2 +
        pixel pixels ((y + 1) * width + (x + 1)) * JS.Fin 1 in
      (JS.set gx idx sumX, JS.set gy idx sumY)) g)
    (JS.Float32Array (List.length pixels),
     JS.Float32Array (List.length pixels)).

Definition calculateMagnitude {M : MathLib} (gx gy : list JS.num)
  : list JS.num :=
  for_loop 0 (List.length gx) (fun i magnitude =>
    JS.set magnitude i
      (Math_sqrt (JS.get gx i * JS.get gx i + JS.get gy i * JS.get gy i)))
    (JS.Float32Array (List.length gx)).

(** The mean of the magnitudes, on a decoded image. *)
Definition score {M : MathLib} (img : RawImage) : JS.num :=
  let '(gx, gy) := calculateGradients (data img) (width img) (height img) in
  let magnitude := calculateMagnitude gx gy in
  let sum := JS.sum magnitude in
  sum / JS.of_nat (List.length magnitude).

Definition calculateBlurScore {M : MathLib} {P : Platform}
  (imageBuffer : ImageBuffer) : Exc JS.num :=
  try_catch
    (img <- sharp_raw imageBuffer ;; Ok (score img))
    (fun message =>
       Throw ("Failed to calculate gradient score: " ++ message)%string).

Definition isBlurry (score threshold : JS.num) : bool := score < threshold.

End GradientDetector.

Module TenengradDetector.

(** [tenengrad.js] repeats [calculateGradients] of [gradient.js] word for
    word. *)
Definition calculateGradients := GradientDetector.calculateGradients.

Definition score (img : RawImage) : JS.num :=
  let '(gx, gy) := calculateGradients (data img) (width img) (height img) in
  let squaredMagnitude :=
    for_loop 0 (List.length gx) (fun i squaredMagnitude =>
      JS.set squaredMagnitude i
        (JS.get gx i * JS.get gx i + JS.get gy i * JS.get gy i))
      (JS.Float32Array (List.length gx)) in
  let n := JS.of_nat (List.length squaredMagnitude) in
  let mean := JS.sum squaredMagnitude / n in
  let varianceSum :=
    fold_left (fun varianceSum d =>
                 let diff := d - mean in varianceSum + diff * diff)
              squaredMagnitude JS.zero in
  varianceSum / n.

Definition calculateBlurScore {P : Platform} (imageBuffer : ImageBuffer)
  : Exc JS.num :=
  try_catch
    (img <- sharp_raw imageBuffer ;; Ok (score img))
    (fun message =>
       Throw ("Failed to calculate Tenengrad score: " ++ message)%string).

Definition isBlurry (score threshold : JS.num) : bool := score < threshold.

End TenengradDetector.

(* ================================================================== *)
(** ** Calibration data and score records *)
(* ================================================================== *)

(** A value that may be [undefined]. *)
Definition jsval : Type := option JS.num.

(** [undefined] used as an operand is NaN. *)
Definition to_number (v : jsval) : JS.num :=
  match v with Some n => n | None => JS.NaN end.

Record AlgorithmStats : Type := {
  p5 : JS.num;
  p95 : JS.num;
  median : JS.num;
  min : jsval;
  max : jsval
}.

Record CalibrationStats : Type := {
  stats_laplacian : AlgorithmStats;
  stats_gradient : AlgorithmStats;
  stats_tenengrad : AlgorithmStats;
  stats_variance : AlgorithmStats;
  sampleSize : nat;
  patchMode : bool;
  totalSamples : nat;
  version : string
}.

Record Normalized : Type := {
  norm_laplacian : JS.num;
  norm_gradient : JS.num;
  norm_tenengrad : JS.num;
  norm_variance : JS.num
}.

(** What [CompositeDetector.calculateBlurScore] returns. *)
Record CompositeScore : Type := {
  composite : JS.num;
  laplacian : JS.num;
  gradient : JS.num;
  tenengrad : JS.num;
  variance : JS.num;
  normalized : Normalized
}.

(* ================================================================== *)
(** ** CompositeDetector *)
(* ================================================================== *)

Module CompositeDetector.

(** The detector object: [useCalibration] is [!!calibrationStats]. *)
Record t : Type := { calibrationStats : option CalibrationStats }.

Definition new (options_calibrationStats : option CalibrationStats) : t :=
  {| calibrationStats := options_calibrationStats |}.

Definition useCalibration (self : t) : bool :=
  match calibrationStats self with Some _ => true | None => false end.

Definition clip (value min max : JS.num) : JS.num :=
  JS.Math_max min (JS.Math_min max value).

Section Normalisation.
Context {M : MathLib}.

Definition normalizeHandTuned
  (laplacianScore gradientScore tenengradScore varianceScore : JS.num)
  : Normalized :=
  let normalizedLaplacian :=
    JS.Math_min (JS.Fin 100) (laplacianScore / JS.Fin 0.5) in
  let normalizedGradient :=
    JS.Math_min (JS.Fin 100) (gradientScore / JS.Fin 0.3) in
  let tenengradLog :=
    if tenengradScore > JS.zero then Math_log10 tenengradScore
    else JS.zero in
  let normalizedTenengrad :=
    JS.Math_max JS.zero
      (JS.Math_min (JS.Fin 100)
         (((tenengradLog - JS.Fin 2) / JS.Fin 6) * JS.Fin 100)) in
  let normalizedVariance :=
    JS.Math_min (JS.Fin 100) (varianceScore / JS.Fin 10) in
  {| norm_laplacian := normalizedLaplacian;
     norm_gradient := normalizedGradient;
     norm_tenengrad := normalizedTenengrad;
     norm_variance := normalizedVariance |}.

Definition normalizePercentile (stats : CalibrationStats)
  (laplacianScore gradientScore tenengradScore varianceScore : JS.num)
  : Normalized :=
  let normalizedLaplacian :=
    JS.Fin 100 *
    clip ((laplacianScore - p5 (stats_laplacian stats)) /
          (p95 (stats_laplacian stats) - p5 (stats_laplacian stats)))
         JS.zero (JS.Fin 1) in
  let normalizedGradient :=
    JS.Fin 100 *
    clip ((gradientScore - p5 (stats_gradient stats)) /
          (p95 (stats_gradient stats) - p5 (stats_gradient stats)))
         JS.zero (JS.Fin 1) in
  let tenengradLog :=
    if tenengradScore > JS.zero then Math_log10 tenengradScore
    else JS.zero in
  let p5Log :=
    if p5 (stats_tenengrad stats) > JS.zero
    then Math_log10 (p5 (stats_tenengrad stats)) else JS.zero in
  let p95Log :=
    if p95 (stats_tenengrad stats) > JS.zero
    then Math_log10 (p95 (stats_tenengrad stats)) else JS.zero in
  let normalizedTenengrad :=
    JS.Fin 100 *
    clip ((tenengradLog - p5Log) / (p95Log - p5Log)) JS.zero (JS.Fin 1) in
  let normalizedVariance :=
    JS.Fin 100 *
    clip ((varianceScore - p5 (stats_variance stats)) /
          (p95 (stats_variance stats) - p5 (stats_variance stats)))
         JS.zero (JS.Fin 1) in
  {| norm_laplacian := normalizedLaplacian;
     norm_gradient := normalizedGradient;
     norm_tenengrad := normalizedTenengrad;
     norm_variance := normalizedVariance |}.

(** The weighted average of [calculateBlurScore]. *)
Definition compositeScore (normalized : Normalized) : JS.num :=
  norm_laplacian normalized * JS.Fin 0.30 +
  norm_gradient normalized * JS.Fin 0.20 +
  norm_tenengrad normalized * JS.Fin 0.40 +
  norm_variance normalized * JS.Fin 0.10.

(** The part of [calculateBlurScore] after the four kernels returned. *)
Definition combine_scores (self : t)
  (laplacianScore gradientScore tenengradScore varianceScore : JS.num)
  : CompositeScore :=
  let normalized :=
    match calibrationStats self with
    | Some stats =>
        normalizePercentile stats laplacianScore gradientScore
                            tenengradScore varianceScore
    | None =>
        normalizeHandTuned laplacianScore gradientScore
                           tenengradScore varianceScore
    end in
  {| composite := compositeScore normalized;
     laplacian := laplacianScore;
     gradient := gradientScore;
     tenengrad := tenengradScore;
     variance := varianceScore;
     normalized :=
       {| norm_laplacian := norm_laplacian normalized;
          norm_gradient := norm_gradient normalized;
          norm_tenengrad := norm_tenengrad normalized;
          norm_variance := norm_variance normalized |} |}.

(** [Promise.all] over the four kernels rejects with the rejection that
    settles first; the kernels are taken here in the order of the
    array. *)
Definition calculateBlurScore {P : Platform} (self : t)
  (imageBuffer : ImageBuffer) : Exc CompositeScore :=
  try_catch
    (laplacianScore <- LaplacianDetector.calculateBlurScore imageBuffer ;;
     gradientScore <- GradientDetector.calculateBlurScore imageBuffer ;;
     tenengradScore <- TenengradDetector.calculateBlurScore imageBuffer ;;
     varianceScore <- VarianceDetector.calculateBlurScore imageBuffer ;;
     Ok (combine_scores self laplacianScore gradientScore
                        tenengradScore varianceScore))
    (fun message =>
       Throw ("Failed to calculate composite score: " ++ message)%string).
End Normalisation.

Definition isBlurry (scores : CompositeScore) (threshold : JS.num) : bool :=
  composite scores < threshold.

End CompositeDetector.

(** The weighted sum of [calculateBlurScore] in binary64 arithmetic, with
    the literals and the evaluation order of the source. *)
Definition composite64 (l g t v : float) : float :=
  (l * 0.30 + g * 0.20 + t * 0.40 + v * 0.10)%float.

(** The four weights, added left to right, in binary64 arithmetic. *)
Definition weights64 : float := (0.30 + 0.20 + 0.40 + 0.10)%float.

(** The body that the two copies of [percentile] (patch-based.js and
    calibration.js) share, on an array that is already sorted. *)
Definition percentile_sorted (sorted : list JS.num) (p : JS.num) : JS.num :=
  match sorted with
  | [] => JS.zero
  | _ =>
      let index :=
        (p / JS.Fin 100) * (JS.of_nat (List.length sorted) - JS.Fin 1) in
      let lower := JS.Math_floor index in
      let upper := JS.Math_ceil index in
      let weight := index - lower in
      if upper >= JS.of_nat (List.length sorted)
      then JS.get sorted (List.length sorted - 1)
      else JS.at_num sorted lower * (JS.Fin 1 - weight) +
           JS.at_num sorted upper * weight
  end.

(* ================================================================== *)
(** ** PatchBasedDetector *)
(* ================================================================== *)

(** One entry of [patchScores]. *)
Record PatchScore : Type := {
  patch_composite : JS.num;
  patch_laplacian : JS.num;
  patch_gradient : JS.num;
  patch_tenengrad : JS.num;
  patch_variance : JS.num;
  patch_normalized : Normalized;
  patch_x : nat;
  patch_y : nat
}.

Record Patch {P : Platform} : Type := {
  x : nat;
  y : nat;
  left : nat;
  top : nat;
  patchWidth : nat;
  patchHeight : nat;
  buffer : ImageBuffer
}.

Record Histogram : Type := {
  very_blurry : nat;
  blurry : nat;
  borderline : nat;
  sharp : nat;
  very_sharp : nat
}.

(** What [PatchBasedDetector.calculateBlurScore] returns (the field
    [composite], a copy of [maxFocus], is [agg_composite]). *)
Record AggregationResult : Type := {
  agg_composite : JS.num;
  maxFocus : JS.num;
  minFocus : JS.num;
  avgFocus : JS.num;
  centerWeighted : JS.num;
  subjectFocusAggressive : JS.num;
  subjectFocus : JS.num;
  subjectFocusConservative : JS.num;
  subjectFocusRelaxed : JS.num;
  subjectFocusStrict : JS.num;
  subjectFocusVeryStrict : JS.num;
  peakFocus : JS.num;
  top10Percentile : JS.num;
  top25Percentile : JS.num;
  medianFocus : JS.num;
  patchCount : nat;
  sharpPatchCount : nat;
  sharpPatchRatio : JS.num;
  histogram : Histogram;
  blurMap : list (list JS.num);
  patchScores : list PatchScore;
  patchesX : nat;
  patchesY : nat
}.

(** A patch with its position weight, as built by
    [calculateSubjectFocusVariant]. *)
Record ScoredPatch : Type := {
  sp_composite : JS.num;
  positionWeight : JS.num;
  index : nat
}.

Module PatchBasedDetector.

(** The detector object.  The grid size is a natural number (the command
    line parses it with [parseInt]). *)
Record t : Type := {
  compositeDetector : CompositeDetector.t;
  patchSize : nat;
  calibrationStats : option CalibrationStats
}.

(** [options.patchSize || 8]: an absent or zero size gives 8. *)
Definition new (options_calibrationStats : option CalibrationStats)
  (options_patchSize : option nat) : t :=
  {| compositeDetector := CompositeDetector.new options_calibrationStats;
     patchSize :=
       match options_patchSize with
       | Some (S n) => S n
       | _ => 8%nat
       end;
     calibrationStats := options_calibrationStats |}.

(** The two nested loops of [divideIntoPatches]; each extraction may
    throw. *)
Definition divideIntoPatches {P : Platform} (imageBuffer : ImageBuffer)
  (patchesX patchesY : nat) : Exc (list Patch) :=
  '(width, height) <- sharp_metadata imageBuffer ;;
  let patchWidth := (width / patchesX)%nat in
  let patchHeight := (height / patchesY)%nat in
  for_loop 0 patchesY (fun y acc =>
    for_loop 0 patchesX (fun x acc =>
      patches <- acc ;;
      let left := (x * patchWidth)%nat in
      let top := (y * patchHeight)%nat in
      patchBuffer <-
        sharp_extract imageBuffer left top patchWidth patchHeight ;;
      Ok (patches ++
          [ {| x := x; y := y; left := left; top := top;
               patchWidth := patchWidth; patchHeight := patchHeight;
               buffer := patchBuffer |} ])) acc)
    (Ok []).

(** [percentile(arr, p)] of patch-based.js: the array is copied and
    sorted ascending first. *)
Definition percentile (arr : list JS.num) (p : JS.num) : JS.num :=
  match arr with
  | [] => JS.zero
  | _ => percentile_sorted (JS.sort (fun a b => a - b) arr) p
  end.

Section Strategies.
Context {M : MathLib}.

(** The Gaussian weight of the patch at array position [i]: the lines
    that [calculateCenterWeighted] (with sigma 0.5) and
    [calculateSubjectFocusVariant] share. *)
Definition gaussianWeight (patchesX patchesY : nat) (sigma : JS.num)
  (i : nat) : JS.num :=
  let centerX := (JS.of_nat patchesX - JS.Fin 1) / JS.Fin 2 in
  let centerY := (JS.of_nat patchesY - JS.Fin 1) / JS.Fin 2 in
  let x := JS.rem (JS.of_nat i) (JS.of_nat patchesX) in
  let y := JS.Math_floor (JS.of_nat i / JS.of_nat patchesX) in
  let dx := (x - centerX) / centerX in
  let dy := (y - centerY) / centerY in
  let distance := Math_sqrt (dx * dx + dy * dy) in
  Math_exp ((- distance) * distance / (JS.Fin 2 * sigma * sigma)).

(** The accumulation loop over (composite, weight) pairs that ends
    both weighted strategies. *)
Definition weightedMean (pairs : list (JS.num * JS.num)) : JS.num :=
  let '(weightedSum, totalWeight) :=
    fold_left (fun '(weightedSum, totalWeight) '(c, weight) =>
                 (weightedSum + c * weight, totalWeight + weight))
              pairs (JS.zero, JS.zero) in
  weightedSum / totalWeight.

Definition calculateCenterWeighted (patchScores : list PatchScore)
  (patchesX patchesY : nat) : JS.num :=
  weightedMean
    (map (fun '(i, s) =>
            (patch_composite s,
             gaussianWeight patchesX patchesY (JS.Fin 0.5) i))
         (combine (seq 0 (List.length patchScores)) patchScores)).

(** [patchScores.map((score, i) => ...)] of the subject-focus helper. *)
Definition scorePatches (patchScores : list PatchScore)
  (patchesX patchesY : nat) (sigma : JS.num) : list ScoredPatch :=
  map (fun '(i, score) =>
         {| sp_composite := patch_composite score;
            positionWeight := gaussianWeight patchesX patchesY sigma i;
            index := i |})
      (combine (seq 0 (List.length patchScores)) patchScores).

(** The number of patches kept:
    [Math.max(3, Math.ceil(patchScores.length * topPercent))]. *)
Definition topN (len : nat) (topPercent : JS.num) : JS.num :=
  JS.Math_max (JS.Fin 3) (JS.Math_ceil (JS.of_nat len * topPercent)).

(** The patches kept: sorted by composite, highest first, then cut. *)
Definition topPatches (patchScores : list PatchScore)
  (patchesX patchesY : nat) (topPercent sigma : JS.num)
  : list ScoredPatch :=
  let scoredPatches := scorePatches patchScores patchesX patchesY sigma in
  let sorted :=
    JS.sort (fun a b => sp_composite b - sp_composite a) scoredPatches in
  JS.slice0 sorted (topN (List.length patchScores) topPercent).

Definition calculateSubjectFocusVariant (patchScores : list PatchScore)
  (patchesX patchesY : nat) (topPercent sigma : JS.num) : JS.num :=
  weightedMean
    (map (fun patch => (sp_composite patch, positionWeight patch))
         (topPatches patchScores patchesX patchesY topPercent sigma)).

Definition calculateSubjectFocusAggressive ps px py :=
  calculateSubjectFocusVariant ps px py (JS.Fin 0.08) (JS.Fin 1.5).
Definition calculateSubjectFocus ps px py :=
  calculateSubjectFocusVariant ps px py (JS.Fin 0.12) (JS.Fin 1.0).
Definition calculateSubjectFocusConservative ps px py :=
  calculateSubjectFocusVariant ps px py (JS.Fin 0.18) (JS.Fin 0.7).
Definition calculateSubjectFocusRelaxed ps px py :=
  calculateSubjectFocusVariant ps px py (JS.Fin 0.28) (JS.Fin 0.5).
Definition calculateSubjectFocusStrict ps px py :=
  calculateSubjectFocusVariant ps px py (JS.Fin 0.38) (JS.Fin 0.4).
Definition calculateSubjectFocusVeryStrict ps px py :=
  calculateSubjectFocusVariant ps px py (JS.Fin 0.40) (JS.Fin 0.35).

Definition clip (value min max : JS.num) : JS.num :=
  JS.Math_min (JS.Math_max value min) max.

Definition calculatePeakFocus (self : t) (patchScores : list PatchScore)
  : JS.num :=
  let sorted :=
    JS.sort (fun a b => patch_composite b - patch_composite a)
            patchScores in
  let topPatches := JS.slice0 sorted (JS.Fin 3) in
  let avgTenengrad :=
    fold_left (fun sum p => sum + patch_tenengrad p) topPatches JS.zero /
    JS.of_nat (List.length topPatches) in
  match calibrationStats self with
  | Some stats =>
      let tenengradLog :=
        if avgTenengrad > JS.zero then Math_log10 avgTenengrad
        else JS.zero in
      let p5Log :=
        if p5 (stats_tenengrad stats) > JS.zero
        then Math_log10 (p5 (stats_tenengrad stats)) else JS.zero in
      let p95Log :=
        if p95 (stats_tenengrad stats) > JS.zero
        then Math_log10 (p95 (stats_tenengrad stats)) else JS.zero in
      JS.Fin 100 *
      clip ((tenengradLog - p5Log) / (p95Log - p5Log)) JS.zero (JS.Fin 1)
  | None =>
      let tenengradLog :=
        if avgTenengrad > JS.zero then Math_log10 avgTenengrad
        else JS.zero in
      JS.Fin 100 *
      clip ((tenengradLog - JS.Fin 3.0) / (JS.Fin 9.0 - JS.Fin 3.0))
           JS.zero (JS.Fin 1)
  end.

(** The part of [calculateBlurScore] after the per-patch scores and the
    blur map are built: the aggregation strategies and diagnostics. *)
Definition aggregate (self : t) (patchScores : list PatchScore)
  (patchesX patchesY : nat) (blurMap : list (list JS.num))
  : AggregationResult :=
  let compositeScores := map patch_composite patchScores in
  let n := JS.of_nat (List.length compositeScores) in
  let maxFocus := JS.Math_max_list compositeScores in
  let minFocus := JS.Math_min_list compositeScores in
  let avgFocus := JS.sum compositeScores / n in
  let count (f : JS.num -> bool) :=
    List.length (filter f compositeScores) in
  let sharpPatchCount := count (fun s => s > JS.Fin 30) in
  {| agg_composite := maxFocus;
     maxFocus := maxFocus;
     minFocus := minFocus;
     avgFocus := avgFocus;
     centerWeighted :=
       calculateCenterWeighted patchScores patchesX patchesY;
     subjectFocusAggressive :=
       calculateSubjectFocusAggressive patchScores patchesX patchesY;
     subjectFocus :=
       calculateSubjectFocus patchScores patchesX patchesY;
     subjectFocusConservative :=
       calculateSubjectFocusConservative patchScores patchesX patchesY;
     subjectFocusRelaxed :=
       calculateSubjectFocusRelaxed patchScores patchesX patchesY;
     subjectFocusStrict :=
       calculateSubjectFocusStrict patchScores patchesX patchesY;
     subjectFocusVeryStrict :=
       calculateSubjectFocusVeryStrict patchScores patchesX patchesY;
     peakFocus := calculatePeakFocus self patchScores;
     top10Percentile := percentile compositeScores (JS.Fin 90);
     top25Percentile := percentile compositeScores (JS.Fin 75);
     medianFocus := percentile compositeScores (JS.Fin 50);
     patchCount := List.length patchScores;
     sharpPatchCount := sharpPatchCount;
     sharpPatchRatio := JS.of_nat sharpPatchCount / n;
     histogram :=
       {| very_blurry := count (fun s => s < JS.Fin 10);
          blurry := count (fun s => (s >= JS.Fin 10) && (s < JS.Fin 25));
          borderline :=
            count (fun s => (s >= JS.Fin 25) && (s < JS.Fin 40));
          sharp := count (fun s => (s >= JS.Fin 40) && (s < JS.Fin 60));
          very_sharp := count (fun s => s >= JS.Fin 60) |};
     blurMap := blurMap;
     patchScores := patchScores;
     patchesX := patchesX;
     patchesY := patchesY |}.

(** The per-patch scoring loop. *)
Definition scorePatchList {P : Platform} (self : t)
  (patches : list Patch) : Exc (list PatchScore) :=
  fold_left (fun acc patch =>
    patchScores <- acc ;;
    score <- CompositeDetector.calculateBlurScore
               (compositeDetector self) (buffer patch) ;;
    Ok (patchScores ++
        [ {| patch_composite := composite score;
             patch_laplacian := laplacian score;
             patch_gradient := gradient score;
             patch_tenengrad := tenengrad score;
             patch_variance := variance score;
             patch_normalized := normalized score;
             patch_x := x patch;
             patch_y := y patch |} ]))
    patches (Ok []).

(** The blur map: reading the composite of a missing entry throws a
    [TypeError]. *)
Definition buildBlurMap (patchScores : list PatchScore)
  (patchesX patchesY : nat) : Exc (list (list JS.num)) :=
  for_loop 0 patchesY (fun y acc =>
    blurMap <- acc ;;
    row <- for_loop 0 patchesX (fun x acc =>
             row <- acc ;;
             match nth_error patchScores (y * patchesX + x) with
             | Some s => Ok (row ++ [patch_composite s])
             | None =>
                 Throw "Cannot read properties of undefined (reading 'composite')"%string
             end) (Ok []) ;;
    Ok (blurMap ++ [row]))
    (Ok []).

Definition calculateBlurScore {P : Platform} (self : t)
  (imageBuffer : ImageBuffer) : Exc AggregationResult :=
  try_catch
    (let patchesX := patchSize self in
     let patchesY := patchSize self in
     patches <- divideIntoPatches imageBuffer patchesX patchesY ;;
     patchScores <- scorePatchList self patches ;;
     blurMap <- buildBlurMap patchScores patchesX patchesY ;;
     Ok (aggregate self patchScores patchesX patchesY blurMap))
    (fun message =>
       Throw ("Failed to calculate patch-based score: " ++ message)%string).
End Strategies.

(** [isBlurry(scores, threshold, strategy)]: the strategy selects the
    score; an unlisted name takes the [default] branch. *)
Definition selectScore (scores : AggregationResult) (strategy : string)
  : JS.num :=
  if String.eqb strategy "max-focus" then maxFocus scores
  else if String.eqb strategy "subject-focus-aggressive"
    then subjectFocusAggressive scores
  else if String.eqb strategy "subject-focus" then subjectFocus scores
  else if String.eqb strategy "subject-focus-conservative"
    then subjectFocusConservative scores
  else if String.eqb strategy "subject-focus-relaxed"
    then subjectFocusRelaxed scores
  else if String.eqb strategy "subject-focus-strict"
    then subjectFocusStrict scores
  else if String.eqb strategy "subject-focus-very-strict"
    then subjectFocusVeryStrict scores
  else if String.eqb strategy "peak-focus" then peakFocus scores
  else if String.eqb strategy "center-weighted" then centerWeighted scores
  else if String.eqb strategy "top-25-percentile"
    then top25Percentile scores
  else if String.eqb strategy "average" then avgFocus scores
  else if String.eqb strategy "median" then medianFocus scores
  else maxFocus scores.

Definition isBlurry (scores : AggregationResult) (threshold : JS.num)
  (strategy : string) : Exc bool :=
  Ok (selectScore scores strategy < threshold).

End PatchBasedDetector.

(* ================================================================== *)
(** ** Per-image results *)
(* ================================================================== *)

(** [Math.round(v * 100) / 100]. *)
Definition round2 (v : JS.num) : JS.num :=
  JS.Math_round (v * JS.Fin 100) / JS.Fin 100.

(** The [scores] object of a composite result. *)
Record CompositeReport : Type := {
  rep_composite : JS.num;
  rep_laplacian : JS.num;
  rep_gradient : JS.num;
  rep_tenengrad : JS.num;
  rep_variance : JS.num;
  rep_normalized : Normalized
}.

(** The [scores] object of a patch-based result. *)
Record PatchReport : Type := {
  rep_maxFocus : JS.num;
  rep_minFocus : JS.num;
  rep_avgFocus : JS.num;
  rep_centerWeighted : JS.num;
  rep_subjectFocusAggressive : JS.num;
  rep_subjectFocus : JS.num;
  rep_subjectFocusConservative : JS.num;
  rep_subjectFocusRelaxed : JS.num;
  rep_subjectFocusStrict : JS.num;
  rep_subjectFocusVeryStrict : JS.num;
  rep_peakFocus : JS.num;
  rep_top10Percentile : JS.num;
  rep_top25Percentile : JS.num;
  rep_medianFocus : JS.num;
  rep_sharpPatchCount : nat;
  rep_sharpPatchRatio : JS.num;
  rep_histogram : Histogram;
  rep_blurMap : list (list JS.num);
  rep_patchScores : list PatchScore;
  rep_patchesX : nat;
  rep_patchesY : nat
}.

Inductive ScoresObj : Type :=
| CompositeScores (r : CompositeReport)
| PatchScores (r : PatchReport).

(** What [BlurDetector.analyze] returns: either the scored record or the
    record with [error].  An absent field is [None].  (The wall-clock field
    [processingTime] is left out.) *)
Record AnalyzeResult : Type := {
  file : string;
  fileName : string;
  blurScore : option JS.num;
  isBlurry : option bool;
  res_threshold : option JS.num;
  res_algorithm : option string;
  scores : option ScoresObj;
  error : option string
}.

(* ================================================================== *)
(** ** Calibration *)
(* ================================================================== *)

Module Calibration.

(** [percentile(sortedArray, p)] of calibration.js: the array is taken as
    sorted ([computeStats] sorts before it calls).  An element that is
    [undefined] enters the arithmetic as NaN (and is returned as NaN by the
    branch for a rank beyond the last position). *)
Definition percentile (sortedArray : list jsval) (p : JS.num) : JS.num :=
  percentile_sorted (map to_number sortedArray) p.

(** The numbers of an array, and its [undefined] entries. *)
Definition defined (arr : list jsval) : list JS.num :=
  flat_map (fun v => match v with Some n => [n] | None => [] end) arr.

Definition undefineds (arr : list jsval) : list jsval :=
  filter (fun v => match v with None => true | Some _ => false end) arr.

(** [arr.sort((a, b) => a - b)]: the numbers ascending, every
    [undefined] after them. *)
Definition sortNumbers (arr : list jsval) : list jsval :=
  map Some (JS.sort (fun a b => a - b) (defined arr)) ++ undefineds arr.

(** [!r.error && r.scores]: an absent or empty error message and a
    [scores] object. *)
Definition valid (r : AnalyzeResult) : bool :=
  match error r with
  | None | Some EmptyString => true
  | Some _ => false
  end &&
  match scores r with Some _ => true | None => false end.

(** [result.scores.patchScores], absent on a composite report. *)
Definition patchScores_of (r : AnalyzeResult) : option (list PatchScore) :=
  match scores r with
  | Some (PatchScores rep) => Some (rep_patchScores rep)
  | _ => None
  end.

(** [r.scores.laplacian] and the like, absent on a patch-based report. *)
Definition raw_of (f : CompositeReport -> JS.num) (r : AnalyzeResult)
  : jsval :=
  match scores r with
  | Some (CompositeScores rep) => Some (f rep)
  | _ => None
  end.

(** The four arrays that the patch-mode loops fill. *)
Record Arrays : Type := {
  laplacianScores : list jsval;
  gradientScores : list jsval;
  tenengradScores : list jsval;
  varianceScores : list jsval
}.

Definition push (a : Arrays) (patchScore : PatchScore) : Arrays :=
  {| laplacianScores :=
       laplacianScores a ++ [Some (patch_laplacian patchScore)];
     gradientScores :=
       gradientScores a ++ [Some (patch_gradient patchScore)];
     tenengradScores :=
       tenengradScores a ++ [Some (patch_tenengrad patchScore)];
     varianceScores :=
       varianceScores a ++ [Some (patch_variance patchScore)] |}.

(** The nested loops of patch mode. *)
Definition collectPatchScores (validResults : list AnalyzeResult)
  : Arrays :=
  fold_left (fun arrays result =>
               match patchScores_of result with
               | Some patchScores => fold_left push patchScores arrays
               | None => arrays
               end)
            validResults
            {| laplacianScores := []; gradientScores := [];
               tenengradScores := []; varianceScores := [] |}.

(** [arr[0]] and [arr[arr.length - 1]]. *)
Definition first (arr : list jsval) : jsval :=
  match arr with [] => None | v :: _ => v end.
Definition last (arr : list jsval) : jsval := List.last arr None.

Definition algorithmStats (sorted : list jsval) : AlgorithmStats :=
  {| p5 := percentile sorted (JS.Fin 5);
     p95 := percentile sorted (JS.Fin 95);
     median := percentile sorted (JS.Fin 50);
     min := first sorted;
     max := last sorted |}.

(** [computeStats(results, patchMode)].  Its one [throw] is that of the
    empty corpus; the copy of the result that it keeps in [this.stats] is
    not modelled. *)
Definition computeStats (results : list AnalyzeResult) (patchMode : bool)
  : Exc CalibrationStats :=
  let validResults := filter valid results in
  match validResults with
  | [] => Throw "No valid results to compute statistics from"%string
  | _ =>
      let arrays :=
        if patchMode then
          let collected := collectPatchScores validResults in
          {| laplacianScores := sortNumbers (laplacianScores collected);
             gradientScores := sortNumbers (gradientScores collected);
             tenengradScores := sortNumbers (tenengradScores collected);
             varianceScores := sortNumbers (varianceScores collected) |}
        else
          {| laplacianScores :=
               sortNumbers (map (raw_of rep_laplacian) validResults);
             gradientScores :=
               sortNumbers (map (raw_of rep_gradient) validResults);
             tenengradScores :=
               sortNumbers (map (raw_of rep_tenengrad) validResults);
             varianceScores :=
               sortNumbers (map (raw_of rep_variance) validResults) |} in
      Ok {| stats_laplacian := algorithmStats (laplacianScores arrays);
            stats_gradient := algorithmStats (gradientScores arrays);
            stats_tenengrad := algorithmStats (tenengradScores arrays);
            stats_variance := algorithmStats (varianceScores arrays);
            sampleSize := List.length validResults;
            patchMode := patchMode;
            totalSamples := List.length (laplacianScores arrays);
            version := "1.0.0"%string |}
  end.

End Calibration.

(* ================================================================== *)
(** ** BlurDetector: construction and the per-image boundary *)
(* ================================================================== *)

Module BlurDetector.

(** The [options] object; an absent property is [None]. *)
Record Options : Type := {
  opt_threshold : option JS.num;
  opt_algorithm : option string;
  opt_calibrationStats : option CalibrationStats;
  opt_strategy : option string;
  opt_patchSize : option nat
}.

Inductive Detector : Type :=
| DLaplacian
| DGradient
| DTenengrad
| DVariance
| DPatchBased (d : PatchBasedDetector.t)
| DComposite (d : CompositeDetector.t).

Record t : Type := {
  threshold : JS.num;
  algorithm : string;
  calibrationStats : option CalibrationStats;
  strategy : string;
  patchSize : nat;
  detector : Detector
}.

(** [s || dflt] on an optional string: absent and empty are falsy. *)
Definition string_or (s : option string) (dflt : string) : string :=
  match s with
  | None | Some EmptyString => dflt
  | Some s => s
  end.

(** The default threshold of the patch-based and composite branches,
    taken when [options.threshold] is [undefined]. *)
Definition thresholdOr (options : Options) (dflt : JS.num) : JS.num :=
  match opt_threshold options with
  | Some th => th
  | None => dflt
  end.

(** The constructor.  It has no [throw]: every path ends in [Ok]. *)
Definition new (options : Options) : Exc t :=
  let threshold :=
    match opt_threshold options with
    | Some th => if JS.truthy th then th else JS.Fin 10
    | None => JS.Fin 10
    end in
  let algorithm := string_or (opt_algorithm options) "composite" in
  let calibrationStats := opt_calibrationStats options in
  let strategy := string_or (opt_strategy options) "average" in
  let patchSize :=
    match opt_patchSize options with
    | Some (S n) => S n
    | _ => 8%nat
    end in
  let calibrated :=
    match calibrationStats with Some _ => true | None => false end in
  let make threshold detector :=
    {| threshold := threshold; algorithm := algorithm;
       calibrationStats := calibrationStats; strategy := strategy;
       patchSize := patchSize; detector := detector |} in
  if String.eqb algorithm "laplacian" then Ok (make threshold DLaplacian)
  else if String.eqb algorithm "gradient" then Ok (make threshold DGradient)
  else if String.eqb algorithm "tenengrad"
    then Ok (make threshold DTenengrad)
  else if String.eqb algorithm "variance" then Ok (make threshold DVariance)
  else if String.eqb algorithm "patch-based" then
    Ok (make
          (thresholdOr options
             (if String.eqb strategy "peak-focus"
              then (if calibrated then JS.Fin 70 else JS.Fin 75)
              else (if calibrated then JS.Fin 25 else JS.Fin 30)))
          (DPatchBased
             (PatchBasedDetector.new calibrationStats (Some patchSize))))
  else
(* case 'composite': default: *)
Ok (make
      (thresholdOr options
         (if calibrated then JS.Fin 25 else JS.Fin 30))
      (DComposite (CompositeDetector.new calibrationStats))).

(** The score that [analyze] reports for a strategy; ['average'] shares
    the [default] branch. *)
Definition strategyScore (rawScore : AggregationResult) (strategy : string)
  : JS.num :=
  if String.eqb strategy "max-focus" then maxFocus rawScore
  else if String.eqb strategy "subject-focus-aggressive"
    then subjectFocusAggressive rawScore
  else if String.eqb strategy "subject-focus" then subjectFocus rawScore
  else if String.eqb strategy "subject-focus-conservative"
    then subjectFocusConservative rawScore
  else if String.eqb strategy "subject-focus-relaxed"
    then subjectFocusRelaxed rawScore
  else if String.eqb strategy "subject-focus-strict"
    then subjectFocusStrict rawScore
  else if String.eqb strategy "subject-focus-very-strict"
    then subjectFocusVeryStrict rawScore
  else if String.eqb strategy "peak-focus" then peakFocus rawScore
  else if String.eqb strategy "center-weighted"
    then centerWeighted rawScore
  else if String.eqb strategy "top-25-percentile"
    then top25Percentile rawScore
  else if String.eqb strategy "median" then medianFocus rawScore
  else avgFocus rawScore.

Definition patchReport (rawScore : AggregationResult) : PatchReport :=
  {| rep_maxFocus := round2 (maxFocus rawScore);
     rep_minFocus := round2 (minFocus rawScore);
     rep_avgFocus := round2 (avgFocus rawScore);
     rep_centerWeighted := round2 (centerWeighted rawScore);
     rep_subjectFocusAggressive := round2 (subjectFocusAggressive rawScore);
     rep_subjectFocus := round2 (subjectFocus rawScore);
     rep_subjectFocusConservative :=
       round2 (subjectFocusConservative rawScore);
     rep_subjectFocusRelaxed := round2 (subjectFocusRelaxed rawScore);
     rep_subjectFocusStrict := round2 (subjectFocusStrict rawScore);
     rep_subjectFocusVeryStrict := round2 (subjectFocusVeryStrict rawScore);
     rep_peakFocus := round2 (peakFocus rawScore);
     rep_top10Percentile := round2 (top10Percentile rawScore);
     rep_top25Percentile := round2 (top25Percentile rawScore);
     rep_medianFocus := round2 (medianFocus rawScore);
     rep_sharpPatchCount := sharpPatchCount rawScore;
     rep_sharpPatchRatio :=
       JS.Math_round (sharpPatchRatio rawScore * JS.Fin 1000) / JS.Fin 10;
     rep_histogram := histogram rawScore;
     rep_blurMap := blurMap rawScore;
     rep_patchScores := patchScores rawScore;
     rep_patchesX := patchesX rawScore;
     rep_patchesY := patchesY rawScore |}.

Definition compositeReport (rawScore : CompositeScore) : CompositeReport :=
  {| rep_composite := round2 (composite rawScore);
     rep_laplacian := round2 (laplacian rawScore);
     rep_gradient := round2 (gradient rawScore);
     rep_tenengrad := round2 (tenengrad rawScore);
     rep_variance := round2 (variance rawScore);
     rep_normalized :=
       {| norm_laplacian := round2 (norm_laplacian (normalized rawScore));
          norm_gradient := round2 (norm_gradient (normalized rawScore));
          norm_tenengrad := round2 (norm_tenengrad (normalized rawScore));
          norm_variance := round2 (norm_variance (normalized rawScore)) |} |}.

Section Analyze.
Context {M : MathLib} {P : Platform}.

Definition scored (self : t) (filePath : string) (blurScore : JS.num)
  (isBlurry : bool) (scores : option ScoresObj) : AnalyzeResult :=
  {| file := filePath;
     fileName := basename filePath;
     blurScore := Some blurScore;
     isBlurry := Some isBlurry;
     res_threshold := Some (threshold self);
     res_algorithm := Some (algorithm self);
     scores := scores;
     error := None |}.

(** The record built by the [catch] clause of [analyze]. *)
Definition failed (filePath message : string) : AnalyzeResult :=
  {| file := filePath;
     fileName := basename filePath;
     blurScore := None;
     isBlurry := None;
     res_threshold := None;
     res_algorithm := None;
     scores := None;
     error := Some message |}.

(** [this.detector.calculateBlurScore(buffer)] followed by the branch
    of [analyze] for its result.  The constructor ties the detector to
    the algorithm name: the detector is the patch-based one exactly
    when [algorithm] is ['patch-based'], and a single-kernel one
    exactly when [algorithm] names it; so the tests on [this.algorithm]
    are made here on the detector, except under the composite detector,
    which also serves every other name. *)
Definition scoreWith (self : t) (filePath : string)
  (buffer : ImageBuffer) : Exc AnalyzeResult :=
  match detector self with
  | DPatchBased d =>
      rawScore <- PatchBasedDetector.calculateBlurScore d buffer ;;
      isBlurry <- PatchBasedDetector.isBlurry rawScore (threshold self)
                    (strategy self) ;;
      Ok (scored self filePath
            (round2 (strategyScore rawScore (strategy self)))
            isBlurry (Some (PatchScores (patchReport rawScore))))
  | DComposite d =>
      rawScore <- CompositeDetector.calculateBlurScore d buffer ;;
      if String.eqb (algorithm self) "composite" then
        Ok (scored self filePath (round2 (composite rawScore))
              (CompositeDetector.isBlurry rawScore (threshold self))
              (Some (CompositeScores (compositeReport rawScore))))
      else
(* the single-algorithm branch, entered with the score object:
   [Math.round(rawScore * 100) / 100] is NaN *)
Ok (scored self filePath JS.NaN
      (CompositeDetector.isBlurry rawScore (threshold self))
      None)
| DLaplacian =>
rawScore <- LaplacianDetector.calculateBlurScore buffer ;;
Ok (scored self filePath (round2 rawScore)
    (LaplacianDetector.isBlurry rawScore (threshold self)) None)
| DGradient =>
rawScore <- GradientDetector.calculateBlurScore buffer ;;
Ok (scored self filePath (round2 rawScore)
    (GradientDetector.isBlurry rawScore (threshold self)) None)
| DTenengrad =>
rawScore <- TenengradDetector.calculateBlurScore buffer ;;
Ok (scored self filePath (round2 rawScore)
    (TenengradDetector.isBlurry rawScore (threshold self)) None)
| DVariance =>
rawScore <- VarianceDetector.calculateBlurScore buffer ;;
Ok (scored self filePath (round2 rawScore)
    (VarianceDetector.isBlurry rawScore (threshold self)) None)
end.

Definition analyze (self : t) (filePath : string) : Exc AnalyzeResult :=
  try_catch
    (buffer <- extract_preview filePath ;;
     scoreWith self filePath buffer)
    (fun message => Ok (failed filePath message)).

(** The batch loop of [analyzeDirectory] (and of the two command-line
    tools): one [analyze] per file, the results pushed in order. *)
Definition analyzeAll (self : t) (files : list string)
  : Exc (list AnalyzeResult) :=
  fold_left (fun acc file =>
               results <- acc ;;
               result <- analyze self file ;;
               Ok (results ++ [result]))
            files (Ok []).

Definition analyzeDirectory (dirPath : string) (options : Options)
  : Exc (list AnalyzeResult) :=
  detector <- new options ;;
  files <- scan dirPath ;;
  analyzeAll detector files.
End Analyze.

End BlurDetector.

(* ================================================================== *)
(** ** PreviewExtractor *)
(* ================================================================== *)

(** The metadata tool and the constructor of the image library:
    [extractTag tag filePath] is
    [exiftool.extractBinaryTagToBuffer(tag, filePath)], which resolves to
    a buffer or to nothing, or rejects; [sharp_new buffer] is
    [sharp(buffer)]; [toFile image outputPath] is
    [image.toFile(outputPath)]. *)
Class ExifTool : Type := {
  Binary : Type;
  binary_length : Binary -> nat;
  SharpImage : Type;
  extractTag : string -> string -> Exc (option Binary);
  sharp_new : Binary -> Exc SharpImage;
  toFile : SharpImage -> string -> Exc unit
}.

Module PreviewExtractor.
Section Extract.
Context {E : ExifTool}.

(** The preview tags, largest first. *)
Definition tagsToTry : list string :=
  ["PreviewImage"; "JpgFromRaw"; "OtherImage"; "ThumbnailImage"]%string.

(** One turn of the loop: [Some image] when the [try] block returns from
    [extract], [None] when the loop goes on to the next tag, which it also
    does from the [catch] block. *)
Definition tryTag (tag filePath : string) : option SharpImage :=
  match (buffer <- extractTag tag filePath ;;
         match buffer with
         | Some buffer =>
             if (0 <? binary_length buffer)%nat
             then image <- sharp_new buffer ;; Ok (Some image)
             else Ok None
         | None => Ok None
         end) with
  | Ok result => result
  | Throw _ => None
  end.

Fixpoint tryTags (tags : list string) (filePath : string)
  : option SharpImage :=
  match tags with
  | [] => None
  | tag :: rest =>
      match tryTag tag filePath with
      | Some image => Some image
      | None => tryTags rest filePath
      end
  end.

Definition extract (filePath : string) : Exc SharpImage :=
  try_catch
    (match tryTags tagsToTry filePath with
     | Some image => Ok image
     | None => Throw "No preview image found in RAW file"%string
     end)
    (fun message =>
       Throw ("Failed to extract preview from " ++ filePath ++ ": " ++
              message)%string).

Definition extractToFile (filePath outputPath : string) : Exc string :=
  image <- extract filePath ;;
  _ <- toFile image outputPath ;;
  Ok outputPath.
End Extract.
End PreviewExtractor.

(* ================================================================== *)
(** ** FileScanner *)
(* ================================================================== *)

(** The functions of Node's [path] module and the string method
    [toLowerCase] are library functions. *)
Class PathLib : Type := {
  path_basename : string -> string;
  path_basename_ext : string -> string -> string;
  path_dirname : string -> string;
  path_extname : string -> string;
  path_join : list string -> string;
  path_resolve : string -> string;
  toLowerCase : string -> string
}.

(** What the scanner reads of the file system: [stat_isFile p] is
    [(await fs.stat(p)).isFile()] and [glob pattern] is
    [glob(pattern, { nocase: true, absolute: true })]; both may reject. *)
Class Directory : Type := {
  stat_isFile : string -> Exc bool;
  glob : string -> Exc (list string)
}.

Module FileScanner.

Definition supportedFormats : list string :=
  ["nef"; "cr2"; "cr3"; "arw"; "dng"; "raf"; "orf"; "rw2"; "pef"; "srw";
   "3fr"; "fff"; "erf"; "mrw"; "nrw"; "raw"]%string.

Definition getSupportedFormats : list string := supportedFormats.

(** [s.replace('.', '')]: the first dot is removed. *)
Fixpoint removeFirstDot (s : string) : string :=
  match s with
  | EmptyString => EmptyString
  | String c rest =>
      if Ascii.eqb c "."%char then rest else String c (removeFirstDot rest)
  end.

(** [arr.includes(s)]. *)
Definition includes (arr : list string) (s : string) : bool :=
  existsb (String.eqb s) arr.

(** [[...new Set(files)]]: the first occurrence of each path, in order. *)
Definition dedupe (files : list string) : list string :=
  fold_left (fun uniqueFiles f =>
               if includes uniqueFiles f then uniqueFiles
               else uniqueFiles ++ [f])
            files [].

(** [arr.sort()]: the default order of strings, character code by
    character code. *)
Definition defaultCompare (a b : string) : JS.num :=
  match String.compare a b with
  | Lt => JS.Fin (-1)
  | Eq => JS.zero
  | Gt => JS.Fin 1
  end.

Definition sortStrings (files : list string) : list string :=
  JS.sort defaultCompare files.

(** The options that [scan] reads: [recursive] (default [false]) and
    [format] (default [null]). *)
Record Options : Type := {
  recursive : bool;
  format : option string
}.

Section Scan.
Context {L : PathLib} {D : Directory}.

Definition isSupported (filePath : string) : bool :=
  let ext := removeFirstDot (toLowerCase (path_extname filePath)) in
  includes supportedFormats ext.

(** The formats to scan: an absent or empty [format] gives them all. *)
Definition formatsOf (options : Options) : list string :=
  match format options with
  | Some (String c s) => [toLowerCase (String c s)]
  | _ => supportedFormats
  end.

Definition patternsOf (dirPath : string) (options : Options)
  : list string :=
  map (fun fmt =>
         if recursive options
         then path_join [dirPath; "**"; "*." ++ fmt]%string
         else path_join [dirPath; "*." ++ fmt]%string)
      (formatsOf options).

(** The second half of [scan]: the directory is globbed once per
    pattern. *)
Definition scanDirectory (dirPath : string) (options : Options)
  : Exc (list string) :=
  files <- fold_left (fun acc pattern =>
                        files <- acc ;;
                        matches <- glob pattern ;;
                        Ok (files ++ matches))
                     (patternsOf dirPath options) (Ok []) ;;
  let uniqueFiles := dedupe files in
  Ok (sortStrings uniqueFiles).

(** The first half: [Some files] when the [try] block returns from
    [scan], [None] when control leaves it, which it also does through the
    empty [catch] block. *)
Definition singleFile (dirPath : string) : option (list string) :=
  match (isFile <- stat_isFile dirPath ;;
         if isFile : bool then
           if isSupported dirPath then Ok (Some [path_resolve dirPath])
           else Throw ("Unsupported file format: " ++
                       path_extname dirPath)%string
         else Ok None) with
  | Ok result => result
  | Throw _ => None
  end.

Definition scan (dirPath : string) (options : Options)
  : Exc (list string) :=
  match singleFile dirPath with
  | Some files => Ok files
  | None => scanDirectory dirPath options
  end.
End Scan.
End FileScanner.

(* ================================================================== *)
(** ** FileOperations *)
(* ================================================================== *)

(** The calls of [fs/promises] that change or read the disk; each may
    reject, and each leaves the disk in some state.  [fs_mkdir] is
    [fs.mkdir(p, { recursive: true })] and [fs_isDirectory p] is
    [(await fs.stat(p)).isDirectory()]. *)
Class FileSystem : Type := {
  Disk : Type;
  fs_copyFile : string -> string -> Disk -> Exc unit * Disk;
  fs_rename : string -> string -> Disk -> Exc unit * Disk;
  fs_unlink : string -> Disk -> Exc unit * Disk;
  fs_mkdir : string -> Disk -> Exc unit * Disk;
  fs_isDirectory : string -> Disk -> Exc bool * Disk
}.

(** A computation on the disk: it returns or throws, and leaves a disk. *)
Definition IO {F : FileSystem} (A : Type) : Type := Disk -> Exc A * Disk.

Definition io_ret {F : FileSystem} {A : Type} (a : A) : IO A :=
  fun disk => (Ok a, disk).

Definition io_throw {F : FileSystem} {A : Type} (message : string) : IO A :=
  fun disk => (Throw message, disk).

Definition io_bind {F : FileSystem} {A B : Type} (c : IO A) (k : A -> IO B)
  : IO B :=
  fun disk =>
    match c disk with
    | (Ok a, disk') => k a disk'
    | (Throw m, disk') => (Throw m, disk')
    end.

(** [try { body } catch (error) { handler(error.message) }] on the disk. *)
Definition io_catch {F : FileSystem} {A : Type} (body : IO A)
  (handler : string -> IO A) : IO A :=
  fun disk =>
    match body disk with
    | (Ok a, disk') => (Ok a, disk')
    | (Throw m, disk') => handler m disk'
    end.

Declare Scope io_scope.
Delimit Scope io_scope with io.
Notation "x <- c ;; k" := (io_bind c (fun x => k))
  (at level 61, c at next level, right associativity) : io_scope.

Module FileOperations.

(** The object that the single operations return: [success] with
    [destPath] or [dirPath], or the [error] message. *)
Record OpResult : Type := {
  success : bool;
  destPath : option string;
  dirPath : option string;
  res_error : option string
}.

Definition succeeded (destPath : string) : OpResult :=
  {| success := true; destPath := Some destPath; dirPath := None;
     res_error := None |}.

Definition failure (message : string) : OpResult :=
  {| success := false; destPath := None; dirPath := None;
     res_error := Some message |}.

(** The options of [processBlurryFiles], with their defaults filled in:
    [move], [rename] and [dryRun] are [false] and [suffix] is
    ['blurry'] when absent. *)
Record Options : Type := {
  move : bool;
  rename : bool;
  dryRun : bool;
  suffix : string
}.

(** One entry of [operations]. *)
Record Operation : Type := {
  source : string;
  destination : option string;
  action : string;
  status : string;
  op_error : option string;
  op_blurScore : option JS.num
}.

(** What [processBlurryFiles] returns. *)
Record Report : Type := {
  total : nat;
  successful : nat;
  failed : nat;
  skipped : nat;
  operations : list Operation
}.

(** [r.isBlurry && !r.error]. *)
Definition isBlurryResult (r : AnalyzeResult) : bool :=
  match isBlurry r with Some true => true | _ => false end &&
  match error r with
  | None | Some EmptyString => true
  | Some _ => false
  end.

(** An optional string in a template literal. *)
Definition text (s : option string) : string :=
  match s with Some s => s | None => "undefined"%string end.

Section Operations.
Context {L : PathLib} {F : FileSystem}.
Local Open Scope io_scope.

Definition copyFile (sourcePath destPath : string) : IO OpResult :=
  io_catch
    (_ <- fs_copyFile sourcePath destPath ;;
     io_ret (succeeded destPath))
    (fun message => io_ret (failure message)).

Definition moveFile (sourcePath destPath : string) : IO OpResult :=
  io_catch
    (_ <- fs_rename sourcePath destPath ;;
     io_ret (succeeded destPath))
    (fun _ =>
       io_catch
         (_ <- fs_copyFile sourcePath destPath ;;
          _ <- fs_unlink sourcePath ;;
          io_ret (succeeded destPath))
         (fun message => io_ret (failure message))).

Definition renameFileWithSuffix (sourcePath suffix : string)
  : IO OpResult :=
  io_catch
    (let dir := path_dirname sourcePath in
     let ext := path_extname sourcePath in
     let basename := path_basename_ext sourcePath ext in
     let newPath :=
       path_join [dir; (basename ++ "_" ++ suffix ++ ext)%string] in
     _ <- fs_rename sourcePath newPath ;;
     io_ret (succeeded newPath))
    (fun message => io_ret (failure message)).

Definition ensureDirectory (dirPath : string) : IO OpResult :=
  io_catch
    (_ <- fs_mkdir dirPath ;;
     io_ret {| success := true; destPath := None;
               dirPath := Some dirPath; res_error := None |})
    (fun message => io_ret (failure message)).

Definition directoryExists (dirPath : string) : IO bool :=
  io_catch (fs_isDirectory dirPath) (fun _ => io_ret false).

(** The state of the loop of [processBlurryFiles]. *)
Record Progress : Type := {
  done : list Operation;
  n_successful : nat;
  n_failed : nat;
  n_skipped : nat
}.

(** The destination and the action for one file. *)
Definition plan (outputDir : string) (options : Options)
  (result : AnalyzeResult) : string * string :=
  let fileName := path_basename (file result) in
  if rename options then
    let dir := path_dirname (file result) in
    let ext := path_extname fileName in
    let basename := path_basename_ext fileName ext in
    (path_join [dir; (basename ++ "_" ++ suffix options ++ ext)%string],
     "rename"%string)
  else
    (path_join [outputDir; fileName],
     if move options then "move"%string else "copy"%string).

(** The body of the loop. *)
Definition processOne (outputDir : string) (options : Options)
  (result : AnalyzeResult) (progress : Progress) : IO Progress :=
  let '(destPath, action) := plan outputDir options result in
  if dryRun options then
    io_ret {| done := done progress ++
                      [ {| source := file result;
                           destination := Some destPath;
                           action := action;
                           status := "dry-run";
                           op_error := None;
                           op_blurScore := blurScore result |} ];
              n_successful := n_successful progress;
              n_failed := n_failed progress;
              n_skipped := n_skipped progress + 1 |}
  else
    opResult <-
      (if rename options
       then renameFileWithSuffix (file result) (suffix options)
       else if move options then moveFile (file result) destPath
       else copyFile (file result) destPath) ;;
    if success opResult then
      io_ret {| done := done progress ++
                        [ {| source := file result;
                             destination := FileOperations.destPath opResult;
                             action := action;
                             status := "success";
                             op_error := None;
                             op_blurScore := blurScore result |} ];
                n_successful := n_successful progress + 1;
                n_failed := n_failed progress;
                n_skipped := n_skipped progress |}
    else
      io_ret {| done := done progress ++
                        [ {| source := file result;
                             destination := Some destPath;
                             action := action;
                             status := "failed";
                             op_error := res_error opResult;
                             op_blurScore := blurScore result |} ];
                n_successful := n_successful progress;
                n_failed := n_failed progress + 1;
                n_skipped := n_skipped progress |}.

Definition processBlurryFiles (results : list AnalyzeResult)
  (outputDir : string) (options : Options) : IO Report :=
  let blurryFiles := filter isBlurryResult results in
  match blurryFiles with
  | [] =>
      io_ret {| total := 0; successful := 0; failed := 0; skipped := 0;
                operations := [] |}
  | _ =>
      _ <- (if negb (dryRun options) && negb (rename options) then
              dirResult <- ensureDirectory outputDir ;;
              if success dirResult then io_ret tt
              else io_throw ("Failed to create directory " ++ outputDir ++
                             ": " ++ text (res_error dirResult))%string
            else io_ret tt) ;;
      progress <-
        fold_left (fun acc result =>
                     progress <- acc ;;
                     processOne outputDir options result progress)
                  blurryFiles
                  (io_ret {| done := []; n_successful := 0; n_failed := 0;
                             n_skipped := 0 |}) ;;
      io_ret {| total := List.length blurryFiles;
                successful := n_successful progress;
                failed := n_failed progress;
                skipped := n_skipped progress;
                operations := done progress |}
  end.
End Operations.
End FileOperations.

(* ================================================================== *)
(** ** Reporters: the summary of a run *)
(* ================================================================== *)

(** A result as the reporters receive it: the record of [analyze]
    together with its [processingTime]. *)
Record TimedResult : Type := {
  result : AnalyzeResult;
  processingTime : option JS.num
}.

(** Truthiness of the fields that the reporters test. *)
Definition truthy_flag (v : option bool) : bool :=
  match v with Some true => true | _ => false end.

Definition truthy_text (v : option string) : bool :=
  match v with
  | None | Some EmptyString => false
  | Some _ => true
  end.

Definition truthy_number (v : option JS.num) : bool :=
  match v with Some n => JS.truthy n | None => false end.

(** [v || d] on an optional number. *)
Definition number_or (v : option JS.num) (d : JS.num) : JS.num :=
  match v with
  | Some n => if JS.truthy n then n else d
  | None => d
  end.

(** The three filters and the mean time that the two reporters share. *)
Definition isBlurryEntry (r : TimedResult) : bool :=
  truthy_flag (isBlurry (result r)) && negb (truthy_text (error (result r))).

Definition isSharpEntry (r : TimedResult) : bool :=
  negb (truthy_flag (isBlurry (result r))) &&
  negb (truthy_text (error (result r))).

Definition isErrorEntry (r : TimedResult) : bool :=
  truthy_text (error (result r)).

Definition averageTime (results : list TimedResult) : JS.num :=
  let total := List.length results in
  let totalTime :=
    fold_left (fun sum r => sum + number_or (processingTime r) JS.zero)
              results JS.zero in
  if (0 <? total)%nat then JS.Math_round (totalTime / JS.of_nat total)
  else JS.zero.

Module ConsoleReporter.

Record Summary : Type := {
  total : nat;
  blurry : nat;
  sharp : nat;
  errors : nat;
  avgTime : JS.num
}.

Definition generateSummary (results : list TimedResult) : Summary :=
  {| total := List.length results;
     blurry := List.length (filter isBlurryEntry results);
     sharp := List.length (filter isSharpEntry results);
     errors := List.length (filter isErrorEntry results);
     avgTime := averageTime results |}.

End ConsoleReporter.

Module JsonReporter.

Record Summary : Type := {
  total : nat;
  blurry : nat;
  sharp : nat;
  errors : nat;
  blurryPercentage : JS.num;
  avgProcessingTime : JS.num;
  avgBlurScore : JS.num
}.

(** [results.filter(r => !r.error && r.blurScore).map(r => r.blurScore)]. *)
Definition scoresOf (results : list TimedResult) : list JS.num :=
  map (fun r => to_number (blurScore (result r)))
      (filter (fun r => negb (truthy_text (error (result r))) &&
                        truthy_number (blurScore (result r)))
              results).

Definition generateSummary (results : list TimedResult) : Summary :=
  let total := List.length results in
  let blurry := List.length (filter isBlurryEntry results) in
  let scores := scoresOf results in
  let avgScore :=
    if (0 <? List.length scores)%nat
    then JS.Math_round
           ((JS.sum scores / JS.of_nat (List.length scores)) * JS.Fin 100)
         / JS.Fin 100
    else JS.zero in
  {| total := total;
     blurry := blurry;
     sharp := List.length (filter isSharpEntry results);
     errors := List.length (filter isErrorEntry results);
     blurryPercentage :=
       if (0 <? total)%nat
       then JS.Math_round ((JS.of_nat blurry / JS.of_nat total) * JS.Fin 100)
       else JS.zero;
     avgProcessingTime := averageTime results;
     avgBlurScore := avgScore |}.

End JsonReporter.

(* ================================================================== *)
(** ** The display of the blur map ([formatBlurMap] of patch-based.js) *)
(* ================================================================== *)

(** The display string is built from a space and four block characters,
    which lie outside the byte range, so a JavaScript string is modelled
    here as its sequence of UTF-16 code units. *)

Module BlurMapDisplay.

Definition jsstring : Type := list N.

(** The shades [chars]: U+0020 (space), U+2591 (light shade), U+2592
    (medium shade), U+2593 (dark shade), U+2588 (full block). *)
Definition chars : jsstring := [32; 9617; 9618; 9619; 9608]%N.

(** The text that [line += undefined] appends. *)
Definition undefined_text : jsstring :=
  [117; 110; 100; 101; 102; 105; 110; 101; 100]%N.

Definition newline : jsstring := [10%N].

(** [line += s[i]]: the code unit at a non-negative integer index inside the
    string; any other key ([NaN], a negative number, an index past the end)
    reads [undefined], which is appended as the text "undefined". *)
Definition appendCharAt (line s : jsstring) (i : JS.num) : jsstring :=
  match i with
  | JS.Fin q =>
      if Qeq_bool (inject_Z (Qfloor q)) q && (0 <=? Qfloor q)%Z
      then match nth_error s (Z.to_nat (Qfloor q)) with
           | Some c => line ++ [c]
           | None => line ++ undefined_text
           end
      else line ++ undefined_text
  | _ => line ++ undefined_text
  end.

Definition charIndex (value : JS.num) : JS.num :=
  JS.Math_min (JS.Fin 4) (JS.Math_floor (value / JS.Fin 25)).

Definition formatRow (row : list JS.num) : jsstring :=
  fold_left (fun line value => appendCharAt line chars (charIndex value))
            row [].

(** [lines.join(sep)]. *)
Fixpoint join (sep : jsstring) (lines : list jsstring) : jsstring :=
  match lines with
  | [] => []
  | [line] => line
  | line :: rest => line ++ sep ++ join sep rest
  end.

(** [formatBlurMap(blurMap, width = 50)]; [width] is not used. *)
Definition formatBlurMap (blurMap : list (list JS.num))
  (width : option JS.num) : jsstring :=
  let lines :=
    fold_left (fun lines row => lines ++ [formatRow row]) blurMap [] in
  join newline lines.

End BlurMapDisplay.

(* ================================================================== *)
(** ** Reference definitions, in the words of the specification *)
(* ================================================================== *)

(** "Sort ascending": insertion sort on rationals. *)
Fixpoint insert_ascending (x : Q) (l : list Q) : list Q :=
  match l with
  | [] => [x]
  | y :: l' =>
      match (y ?= x)%Q with
      | Lt => y :: insert_ascending x l'
      | _ => x :: l
      end
  end.

Definition sort_ascending (l : list Q) : list Q :=
  fold_right insert_ascending [] l.

(** "Linear interpolation between order statistics at fractional rank
    p/100*(n-1)", on a sorted list. *)
Definition interpolate (sorted : list Q) (p : Q) : Q :=
  let rank :=
    (p / 100 * (inject_Z (Z.of_nat (List.length sorted)) - 1))%Q in
  let w := (rank - inject_Z (Qfloor rank))%Q in
  (nth (Z.to_nat (Qfloor rank)) sorted 0 * (1 - w) +
   nth (Z.to_nat (Qceiling rank)) sorted 0 * w)%Q.

(** "Percentile function: sort ascending, linear interpolation ...; empty
    array returns 0." *)
Definition percentile_spec (arr : list Q) (p : Q) : Q :=
  match arr with
  | [] => 0
  | _ => interpolate (sort_ascending arr) p
  end.

(** "0.30*normLaplacian + 0.20*normGradient + 0.40*normTenengrad +
    0.10*normVariance". *)
Definition composite_spec (n : Normalized) : JS.num :=
  JS.Fin 0.30 * norm_laplacian n + JS.Fin 0.20 * norm_gradient n +
  JS.Fin 0.40 * norm_tenengrad n + JS.Fin 0.10 * norm_variance n.

(** "The Tenengrad log-percentile normalization": calibration p5/p95 in
    log10 space if available, else the log range [3.0, 9.0], mapped to
    [0,100]; a non-positive value has log term 0. *)
Definition guarded_log10 {M : MathLib} (v : JS.num) : JS.num :=
  if v > JS.zero then Math_log10 v else JS.zero.

Definition tenengrad_log_normalization {M : MathLib}
  (calibration : option CalibrationStats) (raw : JS.num) : JS.num :=
  let '(lo, hi) :=
    match calibration with
    | Some stats =>
        (guarded_log10 (p5 (stats_tenengrad stats)),
         guarded_log10 (p95 (stats_tenengrad stats)))
    | None => (JS.Fin 3.0, JS.Fin 9.0)
    end in
  JS.Fin 100 *
  PatchBasedDetector.clip ((guarded_log10 raw - lo) / (hi - lo))
                          JS.zero (JS.Fin 1).

(** "Sort patches descending by composite score, take the top 3". *)
Definition top3 (patchScores : list PatchScore) : list PatchScore :=
  firstn 3
    (JS.sort (fun a b => patch_composite b - patch_composite a) patchScores).

(** The arithmetic mean of a list of numbers. *)
Definition mean (xs : list JS.num) : JS.num :=
  JS.sum xs / JS.of_nat (List.length xs).

(** "The position-weight-weighted mean" of (composite, weight) pairs, with
    the weights renormalised within the list. *)
Definition weighted_mean_spec (pairs : list (JS.num * JS.num)) : JS.num :=
  JS.sum (map (fun cw => fst cw * snd cw) pairs) / JS.sum (map snd pairs).

(** "max(3, ceil(patchCount*topPercent))". *)
Definition retained_count (patchCount : nat) (topPercent : Q) : nat :=
  Z.to_nat
    (Z.max 3 (Qceiling (inject_Z (Z.of_nat patchCount) * topPercent)%Q)).

(** The algorithm and strategy names that the tool supports. *)
Definition supportedAlgorithms : list string :=
  ["composite"; "patch-based"; "laplacian"; "gradient"; "tenengrad";
   "variance"]%string.

Definition supportedStrategies : list string :=
  ["max-focus"; "subject-focus-aggressive"; "subject-focus";
   "subject-focus-conservative"; "subject-focus-relaxed";
   "subject-focus-strict"; "subject-focus-very-strict"; "peak-focus";
   "center-weighted"; "top-25-percentile"; "median"; "average"]%string.

(** All patches of the valid results of a corpus, flattened. *)
Definition all_patches (results : list AnalyzeResult) : list PatchScore :=
  flat_map (fun r =>
              match Calibration.patchScores_of r with
              | Some ps => ps
              | None => []
              end)
           (filter Calibration.valid results).

(** A focus-measure kernel fails when the image library cannot decode its
    input: the decoded buffer of a full-image detector, or the buffer of
    one of the patches of the patch-based detector. *)
Definition kernel_fails {P : Platform} (d : BlurDetector.Detector)
  (imageBuffer : ImageBuffer) : Prop :=
  match d with
  | BlurDetector.DPatchBased pd =>
      exists patches,
        PatchBasedDetector.divideIntoPatches imageBuffer
          (PatchBasedDetector.patchSize pd)
          (PatchBasedDetector.patchSize pd) = Ok patches /\
        Exists (fun patch => exists m, sharp_raw (buffer patch) = Throw m)
               patches
  | _ => exists m, sharp_raw imageBuffer = Throw m
  end.

(* ================================================================== *)
(** ** A small platform on which the definitions run *)
(* ================================================================== *)

(** Coarse rational stand-ins for the Math functions: the integer square
    root, a power of two and a scaled binary logarithm.  They satisfy the
    facts of [MathLib] and let the definitions be evaluated on examples. *)
Definition CoarseMath : MathLib.
Proof.
  refine {| sqrtQ := fun q => inject_Z (Z.sqrt (Qfloor q));
            expQ := fun q => Qpower 2 (Qfloor q);
            log10Q := fun q => (inject_Z (Z.log2 (Qfloor q)) * (3 # 10))%Q |}.
  - intro q. change 0%Q with (inject_Z 0). rewrite <- Zle_Qle.
    apply Z.sqrt_nonneg.
  - intros q Hq. rewrite Hq. reflexivity.
  - intro q. apply Qpower_0_lt. reflexivity.
Defined.

(** Cutting the region (left, top, w, h) out of a decoded image. *)
Definition crop (img : RawImage) (left top w h : nat) : RawImage :=
  {| data :=
       flat_map (fun r => firstn w (skipn (r * width img + left) (data img)))
                (seq top h);
     width := w;
     height := h |}.

(** An image buffer is a decoded image, or [None] for bytes that the image
    library rejects; two files exist. *)
Definition flatGray (w h : nat) (c : Z) : RawImage :=
  {| data := repeat c (w * h); width := w; height := h |}.

Definition SamplePlatform : Platform :=
  {| ImageBuffer := option RawImage;
     sharp_raw := fun buf =>
       match buf with
       | Some img => Ok img
       | None => Throw "Input buffer contains unsupported image format"%string
       end;
     sharp_metadata := fun buf =>
       match buf with
       | Some img => Ok (width img, height img)
       | None => Throw "Input buffer contains unsupported image format"%string
       end;
     sharp_extract := fun buf left top w h =>
       match buf with
       | Some img =>
           if ((w =? 0) || (h =? 0))%nat
           then Throw "extract_area: bad extract area"%string
           else Ok (Some (crop img left top w h))
       | None => Throw "Input buffer contains unsupported image format"%string
       end;
     extract_preview := fun filePath =>
       if String.eqb filePath "flat.nef" then Ok (Some (flatGray 4 4 128))
       else if String.eqb filePath "corrupt.nef" then Ok None
       else Throw ("Failed to extract preview from " ++ filePath ++
                   ": No preview image found in RAW file")%string;
     scan := fun _ => Ok ["corrupt.nef"; "flat.nef"]%string;
     basename := fun filePath => filePath |}.

(* ================================================================== *)
(** ** Predicates and sample data of the statements *)
(* ================================================================== *)

Unset Implicit Arguments.

(** A finite value within [0,100]. *)
Definition in_range (a : JS.num) : Prop :=
  exists x, a = JS.Fin x /\ (0 <= x <= 100)%Q.

(** The statistics that calibration computes from a corpus whose raw scores
    are all zero (uniform images): every percentile is 0. *)
Definition zeroStats : CalibrationStats :=
  let a := {| p5 := JS.Fin 0; p95 := JS.Fin 0; median := JS.Fin 0;
              min := Some (JS.Fin 0); max := Some (JS.Fin 0) |} in
  {| stats_laplacian := a; stats_gradient := a; stats_tenengrad := a;
     stats_variance := a; sampleSize := 1; patchMode := false;
     totalSamples := 1; version := "1.0.0" |}.

Definition allNaN : Normalized :=
  {| norm_laplacian := JS.NaN; norm_gradient := JS.NaN;
     norm_tenengrad := JS.NaN; norm_variance := JS.NaN |}.

(** The fractional rank of the specification. *)
Definition rank (n : nat) (p : Q) : Q :=
  (p / 100 * (inject_Z (Z.of_nat n) - 1))%Q.

Definition finite_key {A : Type} (key : A -> JS.num) (a : A) : Prop :=
  JS.is_finite (key a) = true.

(** A patch with the given composite and raw Tenengrad scores. *)
Definition patchOf (c t : Q) : PatchScore :=
  {| patch_composite := JS.Fin c;
     patch_laplacian := JS.zero;
     patch_gradient := JS.zero;
     patch_tenengrad := JS.Fin t;
     patch_variance := JS.zero;
     patch_normalized :=
       {| norm_laplacian := JS.zero; norm_gradient := JS.zero;
          norm_tenengrad := JS.zero; norm_variance := JS.zero |};
     patch_x := 0;
     patch_y := 0 |}.

(** A uniform 4x4 image. *)
Definition sampleImage : RawImage := flatGray 4 4 128.

(** Two patch arrays with the same three sharpest patches and different
    composites elsewhere. *)
Definition samplePatches : list PatchScore :=
  [patchOf 10 5; patchOf 90 4000; patchOf 80 3000;
   patchOf 20 7; patchOf 70 2000].

Definition samplePatchesAlt : list PatchScore :=
  [patchOf 60 5; patchOf 90 4000; patchOf 80 3000;
   patchOf 1 7; patchOf 70 2000].

(** The four arrays of a list of patches. *)
Definition arrays_of (ps : list PatchScore) : Calibration.Arrays :=
  {| Calibration.laplacianScores := map (fun s => Some (patch_laplacian s)) ps;
     Calibration.gradientScores := map (fun s => Some (patch_gradient s)) ps;
     Calibration.tenengradScores := map (fun s => Some (patch_tenengrad s)) ps;
     Calibration.varianceScores := map (fun s => Some (patch_variance s)) ps |}.

Definition arrays_app (a b : Calibration.Arrays) : Calibration.Arrays :=
  {| Calibration.laplacianScores :=
       Calibration.laplacianScores a ++ Calibration.laplacianScores b;
     Calibration.gradientScores :=
       Calibration.gradientScores a ++ Calibration.gradientScores b;
     Calibration.tenengradScores :=
       Calibration.tenengradScores a ++ Calibration.tenengradScores b;
     Calibration.varianceScores :=
       Calibration.varianceScores a ++ Calibration.varianceScores b |}.

(** The corpus that the sample platform gives for the patch-based
    algorithm on a 2x2 grid: one file cannot be decoded, the other is a
    uniform image. *)
Definition sampleCorpus : list AnalyzeResult :=
  match BlurDetector.new
          {| BlurDetector.opt_threshold := None;
             BlurDetector.opt_algorithm := Some "patch-based"%string;
             BlurDetector.opt_calibrationStats := None;
             BlurDetector.opt_strategy := None;
             BlurDetector.opt_patchSize := Some 2%nat |} with
  | Ok d =>
      match @BlurDetector.analyzeAll CoarseMath SamplePlatform d
              ["corrupt.nef"; "flat.nef"]%string with
      | Ok rs => rs
      | Throw _ => []
      end
  | Throw _ => []
  end.

Definition sharpnessOptions : BlurDetector.Options :=
  {| BlurDetector.opt_threshold := None;
     BlurDetector.opt_algorithm := Some "sharpness"%string;
     BlurDetector.opt_calibrationStats := None;
     BlurDetector.opt_strategy := Some "sharpest"%string;
     BlurDetector.opt_patchSize := None |}.

Definition compositeOptions : BlurDetector.Options :=
  {| BlurDetector.opt_threshold := None;
     BlurDetector.opt_algorithm := None;
     BlurDetector.opt_calibrationStats := None;
     BlurDetector.opt_strategy := None;
     BlurDetector.opt_patchSize := None |}.

Definition compositeDetector0 : BlurDetector.t :=
  match BlurDetector.new compositeOptions with
  | Ok d => d
  | Throw _ =>
      {| BlurDetector.threshold := JS.Fin 30;
         BlurDetector.algorithm := "composite";
         BlurDetector.calibrationStats := None;
         BlurDetector.strategy := "average";
         BlurDetector.patchSize := 8;
         BlurDetector.detector :=
           BlurDetector.DComposite (CompositeDetector.new None) |}
  end.

(** The detector of the command line run
    [--algorithm patch-based --patch-size 1 --strategy center-weighted]. *)
Definition singlePatchOptions : BlurDetector.Options :=
  {| BlurDetector.opt_threshold := None;
     BlurDetector.opt_algorithm := Some "patch-based"%string;
     BlurDetector.opt_calibrationStats := None;
     BlurDetector.opt_strategy := Some "center-weighted"%string;
     BlurDetector.opt_patchSize := Some 1%nat |}.

(** An array of finite values that all satisfy [Good]. *)
Definition fin_list (Good : Q -> Prop) (l : list JS.num) : Prop :=
  Forall (fun v => exists q, v = JS.Fin q /\ Good q) l.

(** A patch whose composite is finite and within [lo, hi]. *)
Definition composite_in (lo hi : Q) (s : PatchScore) : Prop :=
  exists c, patch_composite s = JS.Fin c /\ (lo <= c <= hi)%Q.

(** A finite value within [lo, hi]. *)
Definition within (lo hi : Q) (v : JS.num) : Prop :=
  exists q, v = JS.Fin q /\ (lo <= q <= hi)%Q.

(** A list of (composite, weight) pairs with composites in [lo, hi] and
    positive weights. *)
Definition weighted_pair (lo hi : Q) (cw : JS.num * JS.num) : Prop :=
  exists c w, cw = (JS.Fin c, JS.Fin w) /\ (lo <= c <= hi)%Q /\ (0 < w)%Q.

(* ================================================================== *)
(** ** Predicates and sample data for the files around the engine *)
(* ================================================================== *)

(** Finite statistics in ascending order. *)
Definition ordered_stats (a : AlgorithmStats) : Prop :=
  exists lo a5 m a95 hi,
    min a = Some (JS.Fin lo) /\ p5 a = JS.Fin a5 /\ median a = JS.Fin m /\
    p95 a = JS.Fin a95 /\ max a = Some (JS.Fin hi) /\
    (lo <= a5)%Q /\ (a5 <= m)%Q /\ (m <= a95)%Q /\ (a95 <= hi)%Q.

(** A result that carries the report of the composite algorithm, with
    finite raw scores. *)
Definition finite_report (r : AnalyzeResult) : Prop :=
  exists rep, scores r = Some (CompositeScores rep) /\
    JS.is_finite (rep_laplacian rep) = true /\
    JS.is_finite (rep_gradient rep) = true /\
    JS.is_finite (rep_tenengrad rep) = true /\
    JS.is_finite (rep_variance rep) = true.

(** A patch score with finite raw scores. *)
Definition finite_patch (s : PatchScore) : Prop :=
  JS.is_finite (patch_laplacian s) = true /\
  JS.is_finite (patch_gradient s) = true /\
  JS.is_finite (patch_tenengrad s) = true /\
  JS.is_finite (patch_variance s) = true.

(** A composite result with the given raw scores. *)
Definition reportOf (l g t v : Q) : AnalyzeResult :=
  {| file := "a.nef"; fileName := "a.nef";
     blurScore := Some (JS.Fin 50); isBlurry := Some false;
     res_threshold := Some (JS.Fin 30);
     res_algorithm := Some "composite"%string;
     scores :=
       Some (CompositeScores
               {| rep_composite := JS.Fin 50;
                  rep_laplacian := JS.Fin l; rep_gradient := JS.Fin g;
                  rep_tenengrad := JS.Fin t; rep_variance := JS.Fin v;
                  rep_normalized :=
                    {| norm_laplacian := JS.zero; norm_gradient := JS.zero;
                       norm_tenengrad := JS.zero;
                       norm_variance := JS.zero |} |});
     error := None |}.

(** A corpus of three images. *)
Definition sampleReports : list AnalyzeResult :=
  [reportOf 12 3 5000 40; reportOf 4 1 200 10; reportOf 30 8 90000 75].

(** The statistics of an empty array, and those of an array of
    [undefined] entries. *)
Definition emptyStats : AlgorithmStats :=
  {| p5 := JS.zero; p95 := JS.zero; median := JS.zero;
     min := None; max := None |}.

Definition undefinedStats : AlgorithmStats :=
  {| p5 := JS.NaN; p95 := JS.NaN; median := JS.NaN;
     min := None; max := None |}.

(** A result that carries the report of the patch-based algorithm. *)
Definition patch_report (r : AnalyzeResult) : Prop :=
  exists rep, scores r = Some (PatchScores rep).

(** A 2x5 image of alternating black and white pixels. *)
Definition stripeImage : RawImage :=
  {| data := [0; 255; 255; 0; 0; 255; 255; 0; 0; 255]%Z;
     width := 2; height := 5 |}.

(** A 4x4 image with a vertical edge. *)
Definition edgeImage : RawImage :=
  {| data := [0; 0; 255; 255; 0; 0; 255; 255;
              0; 0; 255; 255; 0; 0; 255; 255]%Z;
     width := 4; height := 4 |}.

(** The linear map that sends [lo] to 0 and [hi] to 100, held at 0 below
    [lo] and at 100 above [hi]. *)
Definition ramp (lo hi x : Q) : Q :=
  if Qle_bool x lo then 0
  else if Qle_bool hi x then 100
  else (100 * ((x - lo) / (hi - lo)))%Q.

(** Calibration statistics with the given 5th and 95th percentiles. *)
Definition statsWith (l5 l95 g5 g95 t5 t95 v5 v95 : Q) : CalibrationStats :=
  let a lo hi :=
    {| p5 := JS.Fin lo; p95 := JS.Fin hi; median := JS.Fin ((lo + hi) / 2);
       min := Some (JS.Fin lo); max := Some (JS.Fin hi) |} in
  {| stats_laplacian := a l5 l95; stats_gradient := a g5 g95;
     stats_tenengrad := a t5 t95; stats_variance := a v5 v95;
     sampleSize := 50; patchMode := false; totalSamples := 50;
     version := "1.0.0" |}.

Definition sampleStats : CalibrationStats :=
  statsWith 2 22 1 6 100 1000000 10 110.

(** The normalized scores of one raw quadruple under [sampleStats]. *)
Definition sampleNormalized : Normalized :=
  @CompositeDetector.normalizePercentile CoarseMath sampleStats
    (JS.Fin 7) (JS.Fin (1 # 2)) (JS.Fin 5000) (JS.Fin 200).

(** The positions [(y, x)] of a grid of [py] rows and [px] columns, row by
    row. *)
Definition grid (px py : nat) : list (nat * nat) :=
  flat_map (fun y => map (fun x => (y, x)) (seq 0 px)) (seq 0 py).

(** The buffer of a patch decodes, if at all, to a non-empty image of
    width*height bytes. *)
Definition decodes_to_pixels {P : Platform} (patch : Patch) : Prop :=
  forall img, sharp_raw (buffer patch) = Ok img ->
              List.length (data img) = (width img * height img)%nat /\
              data img <> [].

(** The aggregated scores of a patch-based result. *)
Definition strategyScores (r : AggregationResult) : list JS.num :=
  [maxFocus r; minFocus r; avgFocus r; centerWeighted r;
   subjectFocusAggressive r; subjectFocus r; subjectFocusConservative r;
   subjectFocusRelaxed r; subjectFocusStrict r; subjectFocusVeryStrict r;
   peakFocus r; top10Percentile r; top25Percentile r; medianFocus r].

(** The options of the run
    [--algorithm patch-based --patch-size 2 --strategy median]. *)
Definition medianOptions : BlurDetector.Options :=
  {| BlurDetector.opt_threshold := None;
     BlurDetector.opt_algorithm := Some "patch-based"%string;
     BlurDetector.opt_calibrationStats := None;
     BlurDetector.opt_strategy := Some "median"%string;
     BlurDetector.opt_patchSize := Some 2%nat |}.

(** A preview tag is usable for a file when the metadata tool returns a
    non-empty buffer for it and the image library accepts the buffer. *)
Definition usable {E : ExifTool} (tag filePath : string)
  (image : SharpImage) : Prop :=
  exists buffer,
    extractTag tag filePath = Ok (Some buffer) /\
    (0 < binary_length buffer)%nat /\
    sharp_new buffer = Ok image.

Definition unusable {E : ExifTool} (filePath tag : string) : Prop :=
  forall image, ~ usable tag filePath image.

(** A metadata tool that knows two files.  [a.nef] has no [PreviewImage]
    tag, an empty [JpgFromRaw] and two further previews; [b.nef] has no
    preview. *)
Definition SampleExif : ExifTool :=
  {| Binary := list Z;
     binary_length := @List.length Z;
     SharpImage := list Z;
     extractTag := fun tag filePath =>
       if String.eqb filePath "a.nef" then
         if String.eqb tag "PreviewImage" then Throw "tag not found"%string
         else if String.eqb tag "JpgFromRaw" then Ok (Some [])
         else if String.eqb tag "OtherImage" then Ok (Some [255; 216]%Z)
         else Ok (Some [1]%Z)
       else if String.eqb tag "ThumbnailImage" then Ok None
       else Throw "tag not found"%string;
     sharp_new := fun buffer => Ok buffer;
     toFile := fun _ _ => Ok tt |}.

(** Simple stand-ins for the path functions, on absolute paths with [/]
    as the separator, and for [toLowerCase], on the letters A to Z. *)
Fixpoint lastFrom (c : ascii) (s : string) : option string :=
  match s with
  | EmptyString => None
  | String a rest =>
      match lastFrom c rest with
      | Some t => Some t
      | None => if Ascii.eqb a c then Some s else None
      end
  end.

Definition lowerChar (c : ascii) : ascii :=
  let n := nat_of_ascii c in
  if ((65 <=? n) && (n <=? 90))%nat then ascii_of_nat (n + 32) else c.

Fixpoint lowerCase (s : string) : string :=
  match s with
  | EmptyString => EmptyString
  | String c rest => String (lowerChar c) (lowerCase rest)
  end.

Definition SamplePath : PathLib :=
  let basename s :=
    match lastFrom "/" s with
    | Some (String _ t) => t
    | _ => s
    end in
  let extname s :=
    match lastFrom "." s with Some t => t | None => EmptyString end in
  {| path_basename := basename;
     path_basename_ext := fun s ext =>
       substring 0 (String.length (basename s) - String.length ext)
                 (basename s);
     path_dirname := fun s =>
       match lastFrom "/" s with
       | Some t => substring 0 (String.length s - String.length t) s
       | None => "."%string
       end;
     path_extname := extname;
     path_join := String.concat "/";
     path_resolve := fun s => s;
     toLowerCase := lowerCase |}.

(** A directory [/photos] with three RAW files and a text file. *)
Definition SampleDirectory : Directory :=
  {| stat_isFile := fun p =>
       if String.eqb p "/photos" then Ok false
       else if String.eqb p "/photos/a.nef" then Ok true
       else if String.eqb p "/photos/notes.txt" then Ok true
       else Throw ("ENOENT: no such file or directory, stat '" ++ p ++ "'")%string;
     glob := fun pattern =>
       if String.eqb pattern "/photos/*.nef"
       then Ok ["/photos/b.NEF"; "/photos/a.nef"]%string
       else if String.eqb pattern "/photos/*.nrw"
       then Ok ["/photos/b.NEF"]%string
       else if String.eqb pattern "/photos/*.dng"
       then Ok ["/photos/c.dng"]%string
       else Ok [] |}.

Definition scanAll : FileScanner.Options :=
  {| FileScanner.recursive := false; FileScanner.format := None |}.

(** A disk as the list of the paths of its files.  Renaming into
    [/backup/] crosses devices and directories under [/readonly/] cannot
    be created. *)
Definition SampleFS : FileSystem :=
  let has (p : string) (disk : list string) := existsb (String.eqb p) disk in
  let drop (p : string) (disk : list string) :=
    filter (fun q => negb (String.eqb p q)) disk in
  let missing (call p : string) : string :=
    ("ENOENT: no such file or directory, " ++ call ++ " '" ++ p ++ "'")%string in
  {| Disk := list string;
     fs_copyFile := fun src dst disk =>
       if has src disk then (Ok tt, disk ++ [dst])
       else (Throw (missing "copyfile"%string src), disk);
     fs_rename := fun src dst disk =>
       if String.prefix "/backup/"%string dst
       then (Throw "EXDEV: cross-device link not permitted"%string, disk)
       else if has src disk then (Ok tt, drop src disk ++ [dst])
       else (Throw (missing "rename"%string src), disk);
     fs_unlink := fun src disk =>
       if has src disk then (Ok tt, drop src disk)
       else (Throw (missing "unlink"%string src), disk);
     fs_mkdir := fun p disk =>
       if String.prefix "/readonly/"%string p
       then (Throw ("EACCES: permission denied, mkdir '" ++ p ++ "'")%string,
             disk)
       else (Ok tt, disk);
     fs_isDirectory := fun p disk =>
       if has p disk then (Ok false, disk)
       else (Throw (missing "stat"%string p), disk) |}.

Definition sampleDisk : list string :=
  ["/photos/a.nef"; "/photos/b.nef"]%string.

(** The result record of a scored file. *)
Definition verdict (filePath : string) (score : Q) (blurry : bool)
  : AnalyzeResult :=
  {| file := filePath; fileName := filePath;
     blurScore := Some (JS.Fin score); isBlurry := Some blurry;
     res_threshold := Some (JS.Fin 30);
     res_algorithm := Some "laplacian"%string;
     scores := None; error := None |}.

(** Four results: two blurry files, of which [c.nef] is no longer on the
    disk, a sharp one and one that could not be read. *)
Definition sampleVerdicts : list AnalyzeResult :=
  [verdict "/photos/a.nef"%string 12 true;
   verdict "/photos/b.nef"%string 55 false;
   {| file := "/photos/x.nef"%string; fileName := "x.nef"%string;
      blurScore := None;
      isBlurry := None; res_threshold := None; res_algorithm := None;
      scores := None; error := Some "No preview image found"%string |};
   verdict "/photos/c.nef"%string 8 true].

Definition copyOptions : FileOperations.Options :=
  {| FileOperations.move := false; FileOperations.rename := false;
     FileOperations.dryRun := false;
     FileOperations.suffix := "blurry"%string |}.

Definition dryRunOptions : FileOperations.Options :=
  {| FileOperations.move := true; FileOperations.rename := false;
     FileOperations.dryRun := true;
     FileOperations.suffix := "blurry"%string |}.

(** A result whose score, if any, is a finite number or NaN. *)
Definition score_not_infinite (r : TimedResult) : Prop :=
  match blurScore (result r) with
  | Some JS.PInf | Some JS.NInf => False
  | _ => True
  end.

(** The results of a run of four files, with their times. *)
Definition sampleTimed : list TimedResult :=
  [ {| result := verdict "/photos/a.nef" 12 true;
       processingTime := Some (JS.Fin 40) |};
    {| result := verdict "/photos/b.nef" 55 false;
       processingTime := Some (JS.Fin 30) |};
    {| result :=
         {| file := "/photos/x.nef"%string; fileName := "x.nef"%string;
            blurScore := None; isBlurry := None; res_threshold := None;
            res_algorithm := None; scores := None;
            error := Some "No preview image found"%string |};
       processingTime := Some (JS.Fin 5) |};
    {| result :=
         {| file := "/photos/n.nef"%string; fileName := "n.nef"%string;
            blurScore := Some JS.NaN; isBlurry := Some false;
            res_threshold := Some (JS.Fin 25);
            res_algorithm := Some "composite"%string; scores := None;
            error := None |};
       processingTime := Some (JS.Fin 25) |} ].

(** The shade that stands for a composite score: blank below 25, then light,
    medium and dark shade in steps of 25, and the full block from 100 on. *)
Definition shade (q : Q) : N :=
  if Qlt_le_dec q 25 then 32
  else if Qlt_le_dec q 50 then 9617
  else if Qlt_le_dec q 75 then 9618
  else if Qlt_le_dec q 100 then 9619
  else 9608.

(** A blur map of two rows of three composites. *)
Definition sampleBlurMap : list (list JS.num) :=
  [ [JS.Fin 0; JS.Fin (49 # 2); JS.Fin 25];
    [JS.Fin 60; JS.Fin (999 # 10); JS.Fin 100] ].

(* ================================================================== *)
(** * Properties *)
(* ================================================================== *)

(* ================================================================== *)
(** ** Numbers: equality and algebra *)
(* ================================================================== *)

Lemma num_eq_refl (a : JS.num) : a == a.
Proof. destruct a; simpl; auto. reflexivity. Qed.

Lemma num_eq_sym (a b : JS.num) : a == b -> b == a.
Proof. destruct a, b; simpl; auto. intro H; symmetry; exact H. Qed.

Lemma num_eq_trans (a b c : JS.num) : a == b -> b == c -> a == c.
Proof.
  destruct a, b, c; simpl; auto; try contradiction.
  intros H1 H2. rewrite H1. exact H2.
Qed.

#[export] Instance num_eq_Equivalence : Equivalence JS.num_eq.
Proof.
  split; [exact num_eq_refl | exact num_eq_sym | exact num_eq_trans].
Qed.

#[export] Instance add_Proper :
  Proper (JS.num_eq ==> JS.num_eq ==> JS.num_eq) JS.add.
Proof.
  intros a a' Ha b b' Hb.
  destruct a, a'; simpl in Ha; try contradiction;
    destruct b, b'; simpl in Hb; try contradiction; simpl; auto.
  rewrite Ha, Hb. reflexivity.
Qed.

#[export] Instance neg_Proper : Proper (JS.num_eq ==> JS.num_eq) JS.neg.
Proof.
  intros a a' Ha. destruct a, a'; simpl in *; auto. rewrite Ha. reflexivity.
Qed.

#[export] Instance sub_Proper :
  Proper (JS.num_eq ==> JS.num_eq ==> JS.num_eq) JS.sub.
Proof. intros a a' Ha b b' Hb. unfold JS.sub. rewrite Ha, Hb. reflexivity. Qed.

#[export] Instance mul_Proper :
  Proper (JS.num_eq ==> JS.num_eq ==> JS.num_eq) JS.mul.
Proof.
  intros a a' Ha b b' Hb.
  destruct a, a'; simpl in Ha; try contradiction;
    destruct b, b'; simpl in Hb; try contradiction; simpl; auto;
    try (rewrite Ha; reflexivity); try (rewrite Hb; reflexivity).
  rewrite Ha, Hb. reflexivity.
Qed.

Lemma mul_comm (a b : JS.num) : a * b == b * a.
Proof.
  destruct a, b; simpl; auto; try reflexivity.
  apply Qmult_comm.
Qed.

(** Arithmetic on finite values stays finite, away from a zero divisor. *)
Lemma div_fin (a b : Q) : ~ (b == 0)%Q -> JS.Fin a / JS.Fin b = JS.Fin (a / b).
Proof.
  intro Hb. simpl. destruct (Qeq_bool b 0) eqn:E; [|reflexivity].
  apply Qeq_bool_iff in E. contradiction.
Qed.

Lemma lt_fin (a b : Q) : (JS.Fin a < JS.Fin b) = true <-> (a < b)%Q.
Proof.
  simpl. destruct (a ?= b)%Q eqn:E;
    [apply Qeq_alt in E | apply Qlt_alt in E | apply Qgt_alt in E];
    split; intros; try reflexivity; try congruence; try lra; exfalso; lra.
Qed.

Lemma lt_fin_false (a b : Q) : (JS.Fin a < JS.Fin b) = false <-> (b <= a)%Q.
Proof.
  simpl. destruct (a ?= b)%Q eqn:E;
    [apply Qeq_alt in E | apply Qlt_alt in E | apply Qgt_alt in E];
    split; intros; try reflexivity; try congruence; try lra; exfalso; lra.
Qed.

Lemma le_fin (a b : Q) : (JS.Fin a <= JS.Fin b) = true <-> (a <= b)%Q.
Proof.
  simpl. destruct (a ?= b)%Q eqn:E;
    [apply Qeq_alt in E | apply Qlt_alt in E | apply Qgt_alt in E];
    split; intros; try reflexivity; try congruence; try lra; exfalso; lra.
Qed.

Lemma Math_min_fin (a b : Q) :
  JS.Math_min (JS.Fin a) (JS.Fin b) = JS.Fin (if Qlt_le_dec b a then b else a).
Proof.
  unfold JS.Math_min. destruct (Qlt_le_dec b a) as [H|H].
  - apply lt_fin in H. rewrite H. reflexivity.
  - apply lt_fin_false in H. rewrite H. reflexivity.
Qed.

Lemma Math_max_fin (a b : Q) :
  JS.Math_max (JS.Fin a) (JS.Fin b) = JS.Fin (if Qlt_le_dec a b then b else a).
Proof.
  unfold JS.Math_max. destruct (Qlt_le_dec a b) as [H|H].
  - apply lt_fin in H. rewrite H. reflexivity.
  - apply lt_fin_false in H. rewrite H. reflexivity.
Qed.

(* ================================================================== *)
(** ** Exceptions: inversion of the monadic steps *)
(* ================================================================== *)

Lemma bind_Ok {A B : Type} (c : Exc A) (k : A -> Exc B) (b : B) :
  bind c k = Ok b -> exists a, c = Ok a /\ k a = Ok b.
Proof. destruct c as [a|m]; simpl; [eauto | discriminate]. Qed.

Lemma try_catch_rethrow_Ok {A : Type} (body : Exc A) (f : string -> string)
  (a : A) :
  try_catch body (fun m => Throw (f m)) = Ok a -> body = Ok a.
Proof. destruct body; simpl; [auto | discriminate]. Qed.

Ltac invert_Ok H :=
  repeat match type of H with
  | try_catch _ (fun m => Throw _) = Ok _ =>
      apply try_catch_rethrow_Ok in H
  | bind _ _ = Ok _ =>
      let a := fresh "a" in
      let Ha := fresh "Ha" in
      apply bind_Ok in H; destruct H as (a & Ha & H)
  | Ok _ = Ok _ => injection H as H
  end.

(* ================================================================== *)
(** ** C1: the composite score *)
(* ================================================================== *)

Lemma compositeScore_spec (n : Normalized) :
  CompositeDetector.compositeScore n == composite_spec n.
Proof.
  unfold CompositeDetector.compositeScore, composite_spec.
  repeat apply add_Proper; apply mul_comm.
Qed.

Lemma combine_scores_normalized {M : MathLib} (self : CompositeDetector.t)
  (l g t v : JS.num) :
  composite (CompositeDetector.combine_scores self l g t v) =
  CompositeDetector.compositeScore
    (normalized (CompositeDetector.combine_scores self l g t v)).
Proof. reflexivity. Qed.



(* ================================================================== *)
(** ** C2: normalisation *)
(* ================================================================== *)

Lemma composite_clip_fin (q lo hi : Q) :
  (lo <= hi)%Q ->
  exists x, CompositeDetector.clip (JS.Fin q) (JS.Fin lo) (JS.Fin hi)
            = JS.Fin x /\ (lo <= x <= hi)%Q.
Proof.
  intro H. unfold CompositeDetector.clip.
  rewrite Math_min_fin.
  destruct (Qlt_le_dec q hi); rewrite Math_max_fin;
    match goal with |- context [Qlt_le_dec ?a ?b] =>
      destruct (Qlt_le_dec a b) end;
    eexists; (split; [reflexivity | lra]).
Qed.

(** The percentile map of one channel, on finite values: the result is in
    [0,100], except that it is NaN when the value, p5 and p95 coincide. *)
Lemma percentile_map_cases (raw lo hi : Q) :
  let r := JS.Fin 100 *
           CompositeDetector.clip
             ((JS.Fin raw - JS.Fin lo) / (JS.Fin hi - JS.Fin lo))
             JS.zero (JS.Fin 1) in
  ((hi == lo)%Q /\ (raw == lo)%Q /\ r = JS.NaN) \/
  (~ ((hi == lo)%Q /\ (raw == lo)%Q) /\ in_range r).
Proof.
  simpl JS.sub. unfold JS.div.
  destruct (Qeq_bool (hi + - lo) 0) eqn:E.
  - apply Qeq_bool_iff in E.
    destruct (raw + - lo ?= 0)%Q eqn:C;
      [apply Qeq_alt in C | apply Qlt_alt in C | apply Qgt_alt in C]; simpl.
    + left. repeat split; lra.
    + right. split; [lra|]. exists (100 * 0)%Q. split; [reflexivity | lra].
    + right. split; [lra|]. exists (100 * 1)%Q. split; [reflexivity | lra].
  - apply Qeq_bool_neq in E. right. split; [lra|].
    destruct (composite_clip_fin ((raw + - lo) / (hi + - lo)) 0 1)
      as (x & Hx & Hr); [lra|].
    unfold JS.zero. rewrite Hx. exists (100 * x)%Q.
    split; [reflexivity | lra].
Qed.

Lemma gt_zero_fin (q : Q) : (JS.Fin q > JS.zero) = true <-> (0 < q)%Q.
Proof. unfold JS.gt, JS.zero. apply lt_fin. Qed.

(** The guarded logarithm of a finite value is finite. *)
Lemma guarded_log10_fin {M : MathLib} (q : Q) :
  exists x, guarded_log10 (JS.Fin q) = JS.Fin x.
Proof.
  unfold guarded_log10.
  destruct (JS.Fin q > JS.zero) eqn:E.
  - apply gt_zero_fin in E. simpl.
    apply Qgt_alt in E. rewrite E. eauto.
  - unfold JS.zero. eauto.
Qed.

(** Hand-tuned mode: the four maps are those of the specification, and on
    finite non-negative raw scores every normalized score is in [0,100]. *)
Lemma normalizeHandTuned_in_range {M : MathLib} (l g t v : Q) :
  (0 <= l)%Q -> (0 <= g)%Q -> (0 <= t)%Q -> (0 <= v)%Q ->
  let n := CompositeDetector.normalizeHandTuned
             (JS.Fin l) (JS.Fin g) (JS.Fin t) (JS.Fin v) in
  (norm_laplacian n = JS.Math_min (JS.Fin 100) (JS.Fin l / JS.Fin 0.5) /\
   norm_gradient n = JS.Math_min (JS.Fin 100) (JS.Fin g / JS.Fin 0.3) /\
   norm_tenengrad n =
     CompositeDetector.clip
       (((guarded_log10 (JS.Fin t) - JS.Fin 2) / JS.Fin 6) * JS.Fin 100)
       JS.zero (JS.Fin 100) /\
   norm_variance n = JS.Math_min (JS.Fin 100) (JS.Fin v / JS.Fin 10)) /\
  in_range (norm_laplacian n) /\ in_range (norm_gradient n) /\
  in_range (norm_tenengrad n) /\ in_range (norm_variance n).
Proof.
  intros Hl Hg Ht Hv n.
  assert (Hmin : forall (a d : Q), (0 <= a)%Q -> (0 < d)%Q ->
            in_range (JS.Math_min (JS.Fin 100) (JS.Fin a / JS.Fin d))).
  { intros a d Ha Hd. rewrite div_fin by lra. rewrite Math_min_fin.
    assert (0 <= a / d)%Q.
    { apply Qle_shift_div_l; lra. }
    destruct (Qlt_le_dec (a / d) 100); eexists; (split; [reflexivity|lra]). }
  split; [repeat split; reflexivity|].
  split; [|split; [|split]].
  - subst n. cbn [norm_laplacian CompositeDetector.normalizeHandTuned].
    apply Hmin; lra.
  - subst n. cbn [norm_gradient CompositeDetector.normalizeHandTuned].
    apply Hmin; lra.
  - subst n. cbn [norm_tenengrad CompositeDetector.normalizeHandTuned].
    fold (guarded_log10 (JS.Fin t)).
    destruct (guarded_log10_fin t) as (x & Hx). rewrite Hx.
    simpl JS.sub. rewrite div_fin by lra. simpl JS.mul.
    destruct (composite_clip_fin ((x + - (2)) / 6 * 100) 0 100)
      as (y & Hy & Hr); [lra|].
    unfold CompositeDetector.clip in Hy. unfold JS.zero. rewrite Hy.
    exists y. split; [reflexivity | lra].
  - subst n. cbn [norm_variance CompositeDetector.normalizeHandTuned].
    apply Hmin; lra.
Qed.

(** Calibration mode outside the degenerate case: with finite statistics
    whose p95 differs from p5 (in log space for Tenengrad), every
    normalized score of a finite raw quadruple is in [0,100]. *)
Lemma normalizePercentile_in_range {M : MathLib} (stats : CalibrationStats)
  (l g t v l5 l95 g5 g95 t5 t95 v5 v95 : Q) :
  p5 (stats_laplacian stats) = JS.Fin l5 ->
  p95 (stats_laplacian stats) = JS.Fin l95 ->
  p5 (stats_gradient stats) = JS.Fin g5 ->
  p95 (stats_gradient stats) = JS.Fin g95 ->
  p5 (stats_tenengrad stats) = JS.Fin t5 ->
  p95 (stats_tenengrad stats) = JS.Fin t95 ->
  p5 (stats_variance stats) = JS.Fin v5 ->
  p95 (stats_variance stats) = JS.Fin v95 ->
  ~ (l95 == l5)%Q -> ~ (g95 == g5)%Q -> ~ (v95 == v5)%Q ->
  ~ guarded_log10 (JS.Fin t95) == guarded_log10 (JS.Fin t5) ->
  let n := CompositeDetector.normalizePercentile stats
             (JS.Fin l) (JS.Fin g) (JS.Fin t) (JS.Fin v) in
  in_range (norm_laplacian n) /\ in_range (norm_gradient n) /\
  in_range (norm_tenengrad n) /\ in_range (norm_variance n).
Proof.
  intros Hl5 Hl95 Hg5 Hg95 Ht5 Ht95 Hv5 Hv95 Hl Hg Hv Ht n.
  subst n. unfold CompositeDetector.normalizePercentile.
  cbn [norm_laplacian norm_gradient norm_tenengrad norm_variance].
  rewrite Hl5, Hl95, Hg5, Hg95, Ht5, Ht95, Hv5, Hv95.
  fold (guarded_log10 (JS.Fin t)) (guarded_log10 (JS.Fin t5))
       (guarded_log10 (JS.Fin t95)).
  destruct (guarded_log10_fin t) as (x & Hx).
  destruct (guarded_log10_fin t5) as (x5 & Hx5).
  destruct (guarded_log10_fin t95) as (x95 & Hx95).
  rewrite Hx, Hx5, Hx95 in *. simpl in Ht.
  repeat split.
  - destruct (percentile_map_cases l l5 l95) as [(?&?&?)|(_&?)];
      [contradiction | assumption].
  - destruct (percentile_map_cases g g5 g95) as [(?&?&?)|(_&?)];
      [contradiction | assumption].
  - destruct (percentile_map_cases x x5 x95) as [(?&?&?)|(_&?)];
      [contradiction | assumption].
  - destruct (percentile_map_cases v v5 v95) as [(?&?&?)|(_&?)];
      [contradiction | assumption].
Qed.

(** C2, at the input where the code leaves [0,100].  In calibration mode a
    raw score equal to both p5 and p95 is mapped to NaN (0/0 passes through
    [clip]): with the statistics of an all-zero corpus, the raw quadruple
    (0,0,0,0) has four NaN normalized scores and a NaN composite, which no
    threshold classifies as blurry.  On the sample platform this is what
    calibrating on one uniform image and then scoring a uniform image
    gives. *)
Theorem C2_degenerate_calibration_gives_NaN :
  (forall M : MathLib,
      @CompositeDetector.normalizePercentile M zeroStats
        (JS.Fin 0) (JS.Fin 0) (JS.Fin 0) (JS.Fin 0) = allNaN) /\
  (forall (M : MathLib) (threshold : JS.num),
      let r := @CompositeDetector.combine_scores M
                 (CompositeDetector.new (Some zeroStats))
                 (JS.Fin 0) (JS.Fin 0) (JS.Fin 0) (JS.Fin 0) in
      composite r = JS.NaN /\
      CompositeDetector.isBlurry r threshold = false) /\
  (exists d res stats r,
      BlurDetector.new
        {| BlurDetector.opt_threshold := None;
           BlurDetector.opt_algorithm := Some "composite"%string;
           BlurDetector.opt_calibrationStats := None;
           BlurDetector.opt_strategy := None;
           BlurDetector.opt_patchSize := None |} = Ok d /\
      @BlurDetector.analyze CoarseMath SamplePlatform d "flat.nef" = Ok res /\
      Calibration.computeStats [res] false = Ok stats /\
      @CompositeDetector.calculateBlurScore CoarseMath SamplePlatform
        (CompositeDetector.new (Some stats)) (Some (flatGray 4 4 128))
        = Ok r /\
      normalized r = allNaN /\ composite r = JS.NaN).
Proof.
  split; [|split].
  - intro M. reflexivity.
  - intros M threshold. split; [reflexivity|].
    unfold CompositeDetector.isBlurry. simpl. reflexivity.
  - do 4 eexists.
    split; [reflexivity|].
    split; [vm_compute; reflexivity|].
    split; [vm_compute; reflexivity|].
    split; [vm_compute; reflexivity|].
    split; reflexivity.
Qed.

(* ================================================================== *)
(** ** Sorting *)
(* ================================================================== *)

Section SortFacts.
Context {A : Type} (cmp : A -> A -> JS.num).

Lemma insert_Permutation (x : A) (l : list A) :
  Permutation (JS.insert cmp x l) (x :: l).
Proof.
  induction l as [|y l IH]; cbn [JS.insert]; [reflexivity|].
  destruct (cmp x y > JS.zero); [|reflexivity].
  rewrite IH. apply perm_swap.
Qed.

Lemma sort_Permutation (l : list A) : Permutation (JS.sort cmp l) l.
Proof.
  induction l as [|x l IH]; simpl; [reflexivity|].
  rewrite insert_Permutation. constructor. exact IH.
Qed.

Lemma sort_length (l : list A) : List.length (JS.sort cmp l) = List.length l.
Proof. apply Permutation_length, sort_Permutation. Qed.

(** With a comparator that decides a transitive relation [R] on the
    elements at hand, the result is sorted by [R]. *)
Context (R : A -> A -> Prop) (Dom : A -> Prop).
Hypothesis R_trans : forall x y z, R x y -> R y z -> R x z.
Hypothesis cmp_gt : forall x y, Dom x -> Dom y ->
  (cmp x y > JS.zero) = true -> R y x.
Hypothesis cmp_le : forall x y, Dom x -> Dom y ->
  (cmp x y > JS.zero) = false -> R x y.

Lemma insert_sorted (x : A) (l : list A) :
  Dom x -> Forall Dom l -> StronglySorted R l ->
  StronglySorted R (JS.insert cmp x l).
Proof.
  intros Hx Hl Hs. induction Hs as [|y l Hs IH Hy]; cbn [JS.insert].
  - repeat constructor.
  - inversion Hl as [|? ? Dy Dl]; subst.
    destruct (cmp x y > JS.zero) eqn:E.
    + constructor; [apply IH; assumption|].
      eapply Permutation_Forall;
        [symmetry; apply insert_Permutation|].
      constructor; [eapply cmp_gt; eassumption | assumption].
    + constructor; [constructor; assumption|].
      assert (Rxy : R x y) by (eapply cmp_le; eassumption).
      constructor; [assumption|].
      eapply Forall_impl; [|exact Hy]. intros z Hz. eapply R_trans; eauto.
Qed.

Lemma sort_sorted (l : list A) :
  Forall Dom l -> StronglySorted R (JS.sort cmp l).
Proof.
  induction 1 as [|x l Hx Hl IH]; simpl; [constructor|].
  apply insert_sorted; [assumption| |assumption].
  eapply Permutation_Forall; [symmetry; apply sort_Permutation|assumption].
Qed.
End SortFacts.

(** Reading a comparison of rationals. *)
Ltac qcompare E :=
  match type of E with
  | _ = Eq => apply Qeq_alt in E
  | _ = Lt => apply Qlt_alt in E
  | _ = Gt => apply Qgt_alt in E
  end.

(** The ascending sort of finite numbers is the reference sort. *)
Lemma sort_ascending_commutes (qs : list Q) :
  JS.sort (fun a b => a - b) (map JS.Fin qs) = map JS.Fin (sort_ascending qs).
Proof.
  induction qs as [|x qs IH]; simpl; [reflexivity|].
  rewrite IH. clear IH. generalize (sort_ascending qs) as l.
  induction l as [|y l IH]; simpl; [reflexivity|].
  rewrite IH.
  destruct (0 ?= x + - y)%Q eqn:E1; qcompare E1;
    destruct (y ?= x)%Q eqn:E2; qcompare E2;
    try reflexivity; exfalso; lra.
Qed.

Lemma insert_ascending_Permutation (x : Q) (l : list Q) :
  Permutation (insert_ascending x l) (x :: l).
Proof.
  induction l as [|y l IH]; simpl; [reflexivity|].
  destruct (y ?= x)%Q; try reflexivity.
  rewrite IH. apply perm_swap.
Qed.

Lemma sort_ascending_Permutation (l : list Q) :
  Permutation (sort_ascending l) l.
Proof.
  induction l as [|x l IH]; simpl; [reflexivity|].
  rewrite insert_ascending_Permutation. constructor. exact IH.
Qed.

Lemma sort_ascending_sorted (l : list Q) :
  StronglySorted Qle (sort_ascending l).
Proof.
  induction l as [|x l IH]; simpl; [constructor|].
  revert IH. generalize (sort_ascending l) as s. clear l.
  intros s Hs. induction Hs as [|y s Hs IH Hy]; simpl.
  - repeat constructor.
  - destruct (y ?= x)%Q eqn:E; qcompare E.
    + constructor; [constructor; assumption|].
      constructor; [lra|]. eapply Forall_impl; [|exact Hy].
      intros z Hz. simpl in Hz. lra.
    + constructor; [assumption|].
      eapply Permutation_Forall;
        [symmetry; apply insert_ascending_Permutation|].
      constructor; [lra | assumption].
    + constructor; [constructor; assumption|].
      constructor; [lra|]. eapply Forall_impl; [|exact Hy].
      intros z Hz. simpl in Hz. lra.
Qed.

Lemma sort_ascending_nonempty (l : list Q) :
  l <> [] -> sort_ascending l <> [].
Proof.
  intros H E. apply H.
  pose proof (sort_ascending_Permutation l) as P. rewrite E in P.
  apply Permutation_nil in P. exact P.
Qed.

(* ================================================================== *)
(** ** C3: the percentile function *)
(* ================================================================== *)

Lemma get_map_Fin (s : list Q) (k : nat) :
  (k < List.length s)%nat -> JS.get (map JS.Fin s) k = JS.Fin (nth k s 0%Q).
Proof.
  intro H. unfold JS.get.
  rewrite (nth_indep _ JS.NaN (JS.Fin 0)) by (rewrite length_map; lia).
  apply map_nth.
Qed.

Lemma at_num_map_Fin (s : list Q) (z : Z) :
  (0 <= z < Z.of_nat (List.length s))%Z ->
  JS.at_num (map JS.Fin s) (JS.Fin (inject_Z z)) =
  JS.Fin (nth (Z.to_nat z) s 0%Q).
Proof.
  intros [H0 H1]. unfold JS.at_num. rewrite Qfloor_Z.
  assert (E1 : Qle_bool 0 (inject_Z z) = true).
  { apply Qle_bool_iff. change 0%Q with (inject_Z 0). rewrite <- Zle_Qle.
    exact H0. }
  assert (E2 : Qeq_bool (inject_Z z) (inject_Z z) = true).
  { apply Qeq_bool_iff. reflexivity. }
  rewrite E1, E2. simpl. apply get_map_Fin. lia.
Qed.

Lemma rank_range (n : nat) (p : Q) :
  (0 < n)%nat -> (0 <= p <= 100)%Q ->
  (0 <= rank n p <= inject_Z (Z.of_nat n - 1))%Q.
Proof.
  intros Hn Hp. unfold rank.
  assert (Hn' : (1 <= inject_Z (Z.of_nat n))%Q).
  { change 1%Q with (inject_Z 1). rewrite <- Zle_Qle. lia. }
  assert (E : (inject_Z (Z.of_nat n - 1) == inject_Z (Z.of_nat n) - 1)%Q).
  { unfold Z.sub. rewrite inject_Z_plus. reflexivity. }
  rewrite E.
  assert (Ht : (p / 100 == p * (1 # 100))%Q) by (field).
  rewrite Ht. split; nra.
Qed.

Lemma rank_bounds (n : nat) (p : Q) :
  (0 < n)%nat -> (0 <= p <= 100)%Q ->
  (0 <= Qfloor (rank n p))%Z /\
  (Qfloor (rank n p) <= Qceiling (rank n p))%Z /\
  (Qceiling (rank n p) < Z.of_nat n)%Z.
Proof.
  intros Hn Hp. destruct (rank_range n p Hn Hp) as [H0 H1].
  split; [|split].
  - rewrite <- (Qfloor_Z 0). apply Qfloor_resp_le. exact H0.
  - rewrite Zle_Qle. apply Qle_floor_ceiling.
  - apply Qceiling_resp_le in H1. rewrite Qceiling_Z in H1. lia.
Qed.

(** On a non-empty array of finite numbers and p in [0,100], the shared
    body of the two percentile functions is the interpolation of the
    specification. *)
Lemma percentile_sorted_fin (s : list Q) (p : Q) :
  s <> [] -> (0 <= p <= 100)%Q ->
  percentile_sorted (map JS.Fin s) (JS.Fin p) = JS.Fin (interpolate s p).
Proof.
  intros Hs Hp.
  assert (Hn : (0 < List.length s)%nat).
  { destruct s; [congruence | simpl; lia]. }
  destruct (rank_bounds (List.length s) p Hn Hp) as (B0 & B1 & B2).
  unfold percentile_sorted.
  destruct (map JS.Fin s) eqn:Em; [destruct s; [congruence | discriminate]|].
  rewrite <- Em. clear Em. rewrite length_map.
  change ((JS.Fin p / JS.Fin 100) *
          (JS.of_nat (List.length s) - JS.Fin 1))
    with (JS.Fin (rank (List.length s) p)).
  cbn [JS.Math_floor JS.Math_ceil].
  set (r := rank (List.length s) p) in *.
  assert (G : (JS.Fin (inject_Z (Qceiling r)) >=
               JS.of_nat (List.length s)) = false).
  { unfold JS.ge, JS.of_nat.
    destruct (JS.Fin (inject_Z (Z.of_nat (List.length s))) <=
              JS.Fin (inject_Z (Qceiling r))) eqn:E; [|reflexivity].
    apply le_fin in E. rewrite <- Zle_Qle in E. lia. }
  rewrite G.
  rewrite !at_num_map_Fin by lia.
  reflexivity.
Qed.

Lemma nth_pred_last (s : list Q) (d : Q) :
  nth (List.length s - 1) s d = last s d.
Proof.
  induction s as [|x s IH]; [reflexivity|].
  destruct s as [|y s]; [reflexivity|].
  remember (y :: s) as t eqn:Et.
  replace (List.length (x :: t) - 1)%nat with (S (List.length t - 1))
    by (subst t; simpl; lia).
  cbn [nth]. rewrite IH. subst t. reflexivity.
Qed.

Lemma interpolate_at_integer (s : list Q) (p : Q) (z : Z) :
  (rank (List.length s) p == inject_Z z)%Q ->
  (interpolate s p == nth (Z.to_nat z) s 0)%Q.
Proof.
  intro Hr. unfold interpolate. cbv zeta.
  fold (rank (List.length s) p).
  assert (Ef : Qfloor (rank (List.length s) p) = z)
    by (rewrite Hr; apply Qfloor_Z).
  assert (Ec : Qceiling (rank (List.length s) p) = z)
    by (rewrite Hr; apply Qceiling_Z).
  rewrite Ef, Ec.
  generalize (nth (Z.to_nat z) s 0%Q) as a. intro a.
  rewrite Hr. ring.
Qed.

Lemma interpolate_0 (s : list Q) :
  (interpolate s 0 == hd 0 s)%Q.
Proof.
  rewrite (interpolate_at_integer s 0 0).
  - destruct s; reflexivity.
  - unfold rank. simpl. field.
Qed.

Lemma interpolate_100 (s : list Q) :
  s <> [] -> (interpolate s 100 == last s 0)%Q.
Proof.
  intro Hs.
  rewrite (interpolate_at_integer s 100 (Z.of_nat (List.length s) - 1)).
  - replace (Z.to_nat (Z.of_nat (List.length s) - 1))
      with (List.length s - 1)%nat by lia.
    rewrite nth_pred_last. reflexivity.
  - unfold rank, Z.sub. rewrite inject_Z_plus. simpl. field.
Qed.

Lemma defined_Some (ns : list JS.num) :
  Calibration.defined (map Some ns) = ns.
Proof.
  induction ns as [|a ns IH]; [reflexivity|].
  unfold Calibration.defined in *. cbn [map flat_map app]. f_equal. exact IH.
Qed.

Lemma undefineds_Some (ns : list JS.num) :
  Calibration.undefineds (map Some ns) = [].
Proof.
  induction ns as [|a ns IH]; [reflexivity|].
  unfold Calibration.undefineds in *. cbn [map filter]. exact IH.
Qed.

Lemma sortNumbers_defined (ns : list JS.num) :
  Calibration.sortNumbers (map Some ns) =
  map Some (JS.sort (fun a b => a - b) ns).
Proof.
  unfold Calibration.sortNumbers.
  rewrite defined_Some, undefineds_Some. apply app_nil_r.
Qed.

Lemma to_number_Some (ns : list JS.num) : map to_number (map Some ns) = ns.
Proof.
  induction ns as [|a ns IH]; [reflexivity|].
  cbn [map to_number]. f_equal. exact IH.
Qed.

(** The percentile function of the patch analyzer on finite numbers. *)
Lemma patch_percentile_fin (arr : list Q) (p : Q) :
  (0 <= p <= 100)%Q ->
  PatchBasedDetector.percentile (map JS.Fin arr) (JS.Fin p)
  = JS.Fin (percentile_spec arr p).
Proof.
  intro Hp. unfold PatchBasedDetector.percentile, percentile_spec.
  destruct arr as [|a arr']; [reflexivity|].
  cbn [map]. change (JS.Fin a :: map JS.Fin arr') with (map JS.Fin (a :: arr')).
  rewrite sort_ascending_commutes.
  apply percentile_sorted_fin; [|exact Hp].
  apply sort_ascending_nonempty. discriminate.
Qed.

(** C3.  For every array of (finite) numbers and every p in [0,100]: the
    percentile function of the patch analyzer, and that of the calibration
    engine applied to the array as calibration sorts it, return the linear
    interpolation between the order statistics of the ascending sort at the
    fractional rank p/100*(n-1), whose floor and ceiling are positions of
    the array; on a sorted array the calibration function returns the first
    element for p = 0 and the last for p = 100, and so does the patch
    function with respect to the sorted array; and the percentile of the
    empty array is 0 for every p. *)
Theorem C3_percentile_interpolates (arr : list Q) (p : Q) :
  (0 <= p <= 100)%Q ->
  (* sorts ascending, then interpolates at the fractional rank *)
  PatchBasedDetector.percentile (map JS.Fin arr) (JS.Fin p)
    = JS.Fin (percentile_spec arr p) /\
  Calibration.percentile
    (Calibration.sortNumbers (map (fun q => Some (JS.Fin q)) arr)) (JS.Fin p)
    = JS.Fin (percentile_spec arr p) /\
  StronglySorted Qle (sort_ascending arr) /\
  Permutation (sort_ascending arr) arr /\
  (arr <> [] ->
   (0 <= Qfloor (rank (List.length arr) p)
      <= Qceiling (rank (List.length arr) p))%Z /\
   (Qceiling (rank (List.length arr) p) < Z.of_nat (List.length arr))%Z) /\
  (* the ends *)
  (arr <> [] ->
   Calibration.percentile (map (fun q => Some (JS.Fin q)) arr) (JS.Fin 0)
     == JS.Fin (hd 0%Q arr) /\
   Calibration.percentile (map (fun q => Some (JS.Fin q)) arr) (JS.Fin 100)
     == JS.Fin (last arr 0%Q) /\
   PatchBasedDetector.percentile (map JS.Fin arr) (JS.Fin 0)
     == JS.Fin (hd 0%Q (sort_ascending arr)) /\
   PatchBasedDetector.percentile (map JS.Fin arr) (JS.Fin 100)
     == JS.Fin (last (sort_ascending arr) 0%Q)) /\
  (* the empty array *)
  (forall p' : JS.num,
      PatchBasedDetector.percentile [] p' = JS.zero /\
      Calibration.percentile [] p' = JS.zero).
Proof.
  intro Hp.
  assert (Patch : forall p0, (0 <= p0 <= 100)%Q ->
            PatchBasedDetector.percentile (map JS.Fin arr) (JS.Fin p0)
            = JS.Fin (percentile_spec arr p0)).
  { intros p0 Hp0. apply patch_percentile_fin. exact Hp0. }
  assert (Calib : forall s p0, s <> [] -> (0 <= p0 <= 100)%Q ->
            Calibration.percentile (map (fun q => Some (JS.Fin q)) s)
              (JS.Fin p0) = JS.Fin (interpolate s p0)).
  { intros s p0 Hs Hp0. unfold Calibration.percentile.
    rewrite <- (map_map JS.Fin Some), to_number_Some.
    apply percentile_sorted_fin; assumption. }
  split; [apply Patch; exact Hp|].
  split.
  { rewrite <- (map_map JS.Fin Some), sortNumbers_defined.
    rewrite sort_ascending_commutes. unfold percentile_spec.
    destruct arr as [|a arr']; [reflexivity|].
    rewrite (map_map JS.Fin Some). apply Calib; [|exact Hp].
    apply sort_ascending_nonempty. discriminate. }
  split; [apply sort_ascending_sorted|].
  split; [apply sort_ascending_Permutation|].
  split.
  { intro Hne.
    assert (Hn : (0 < List.length arr)%nat)
      by (destruct arr; [congruence | simpl; lia]).
    destruct (rank_bounds (List.length arr) p Hn Hp) as (B0 & B1 & B2).
    repeat split; assumption. }
  split.
  { intro Hne.
    assert (Hs : sort_ascending arr <> [])
      by (apply sort_ascending_nonempty; exact Hne).
    rewrite !Calib by (try assumption; lra).
    rewrite !Patch by lra.
    unfold percentile_spec. destruct arr as [|a arr']; [congruence|].
    repeat split; simpl JS.num_eq.
    - apply interpolate_0.
    - apply interpolate_100. discriminate.
    - apply interpolate_0.
    - apply interpolate_100. exact Hs. }
  intro p'. split; reflexivity.
Qed.

Lemma C3_percentile_interpolates_witness :
  (0 <= 50 <= 100)%Q /\
  PatchBasedDetector.percentile (map JS.Fin [40; 10; 30; 20]%Q) (JS.Fin 50)
    = JS.Fin (percentile_spec [40; 10; 30; 20]%Q 50).
Proof.
  assert (H : (0 <= 50 <= 100)%Q) by (split; discriminate).
  split; [exact H|].
  exact (proj1 (C3_percentile_interpolates [40; 10; 30; 20]%Q 50 H)).
Defined.

(* ================================================================== *)
(** ** Descending sort by a key *)
(* ================================================================== *)

Lemma le_trans (a b c : JS.num) :
  (a <= b) = true -> (b <= c) = true -> (a <= c) = true.
Proof.
  destruct a as [x| | |], b as [y| | |], c as [z| | |];
    try (simpl; congruence); try reflexivity.
  rewrite !le_fin. intros. lra.
Qed.

Lemma sub_fin (a b : Q) : JS.Fin a - JS.Fin b = JS.Fin (a - b).
Proof. reflexivity. Qed.

Lemma is_finite_Fin (a : JS.num) :
  JS.is_finite a = true -> exists q, a = JS.Fin q.
Proof. destruct a; try discriminate. eauto. Qed.

(** Sorting by [(a, b) => key(b) - key(a)] orders finite keys from the
    highest to the lowest. *)
Lemma sort_descending_sorted {A : Type} (key : A -> JS.num) (l : list A) :
  Forall (finite_key key) l ->
  StronglySorted (fun a b => (key b <= key a) = true)
                 (JS.sort (fun a b => key b - key a) l).
Proof.
  apply sort_sorted.
  - intros x y z H1 H2. eapply le_trans; eassumption.
  - intros x y Hx Hy H.
    apply is_finite_Fin in Hx, Hy. destruct Hx as (qx & Ex), Hy as (qy & Ey).
    rewrite Ex, Ey in *. rewrite sub_fin in H.
    apply gt_zero_fin in H. apply le_fin. lra.
  - intros x y Hx Hy H.
    apply is_finite_Fin in Hx, Hy. destruct Hx as (qx & Ex), Hy as (qy & Ey).
    rewrite Ex, Ey in *. rewrite sub_fin in H.
    unfold JS.gt, JS.zero in H. apply lt_fin_false in H. apply le_fin. lra.
Qed.

Lemma StronglySorted_app_inv {A : Type} (R : A -> A -> Prop) (l1 l2 : list A) :
  StronglySorted R (l1 ++ l2) ->
  forall a b, In a l1 -> In b l2 -> R a b.
Proof.
  induction l1 as [|x l1 IH]; intros Hs a b Ha Hb; [contradiction|].
  cbn [app] in Hs. inversion Hs as [|? ? Hs' Hx]; subst.
  destruct Ha as [->|Ha].
  - rewrite Forall_forall in Hx. apply Hx. apply in_or_app. right. exact Hb.
  - eapply IH; eassumption.
Qed.

(** The first [k] elements of a list sorted from the highest key are
    above all the others. *)
Lemma top_above_rest {A : Type} (key : A -> JS.num) (l : list A) (k : nat) :
  Forall (finite_key key) l ->
  let sorted := JS.sort (fun a b => key b - key a) l in
  forall a b, In a (firstn k sorted) -> In b (skipn k sorted) ->
              (key b <= key a) = true.
Proof.
  intros Hl sorted a b Ha Hb.
  pose proof (sort_descending_sorted key l Hl) as Hs.
  fold sorted in Hs. rewrite <- (firstn_skipn k sorted) in Hs.
  exact (StronglySorted_app_inv _ _ _ Hs a b Ha Hb).
Qed.

Lemma slice0_nat {A : Type} (l : list A) (z : Z) :
  (0 <= z)%Z -> JS.slice0 l (JS.Fin (inject_Z z)) = firstn (Z.to_nat z) l.
Proof.
  intro Hz. unfold JS.slice0, JS.Qtrunc.
  rewrite Qfloor_Z, Qceiling_Z.
  destruct (Qle_bool 0 (inject_Z z));
    (destruct (Z.ltb_spec z 0); [lia | reflexivity]).
Qed.

Lemma fold_left_add_map {A : Type} (f : A -> JS.num) (l : list A)
  (a : JS.num) :
  fold_left (fun sum p => sum + f p) l a = fold_left JS.add (map f l) a.
Proof.
  revert a. induction l as [|x l IH]; intro a; [reflexivity|].
  cbn [fold_left map]. apply IH.
Qed.

(* ================================================================== *)
(** ** C4: peak focus *)
(* ================================================================== *)



(* ================================================================== *)
(** ** C5: the subject-focus variants *)
(* ================================================================== *)

(** The accumulation loop computes the two sums of the weighted mean. *)
Lemma weighted_loop_sums (pairs : list (JS.num * JS.num)) (a b : JS.num) :
  fold_left (fun '(weightedSum, totalWeight) '(c, weight) =>
               (weightedSum + c * weight, totalWeight + weight))
            pairs (a, b) =
  (fold_left JS.add (map (fun cw => fst cw * snd cw) pairs) a,
   fold_left JS.add (map snd pairs) b).
Proof.
  revert a b. induction pairs as [|[c w] pairs IH]; intros a b;
    [reflexivity|].
  cbn [fold_left map fst snd]. apply IH.
Qed.

Lemma weightedMean_spec (pairs : list (JS.num * JS.num)) :
  PatchBasedDetector.weightedMean pairs = weighted_mean_spec pairs.
Proof.
  unfold PatchBasedDetector.weightedMean, weighted_mean_spec, JS.sum.
  rewrite weighted_loop_sums. reflexivity.
Qed.

Lemma retained_count_ge_3 (n : nat) (tp : Q) : (3 <= retained_count n tp)%nat.
Proof. unfold retained_count. lia. Qed.

(** [topN] is the count of the specification, as a number. *)
Lemma slice0_topN {A : Type} (l : list A) (n : nat) (tp : Q) :
  JS.slice0 l (PatchBasedDetector.topN n (JS.Fin tp)) =
  firstn (retained_count n tp) l.
Proof.
  unfold PatchBasedDetector.topN, retained_count, JS.of_nat.
  cbn [JS.mul JS.Math_ceil].
  set (c := Qceiling (inject_Z (Z.of_nat n) * tp)).
  change 3%Q with (inject_Z 3). rewrite Math_max_fin.
  destruct (Qlt_le_dec (inject_Z 3) (inject_Z c)) as [H|H].
  - rewrite <- Zlt_Qlt in H. rewrite slice0_nat by lia.
    f_equal. lia.
  - rewrite <- Zle_Qle in H. rewrite slice0_nat by lia.
    f_equal. lia.
Qed.

Lemma scorePatches_length {M : MathLib} (ps : list PatchScore)
  (px py : nat) (sigma : JS.num) :
  List.length (PatchBasedDetector.scorePatches ps px py sigma) =
  List.length ps.
Proof.
  unfold PatchBasedDetector.scorePatches.
  rewrite length_map, length_combine, length_seq. lia.
Qed.

Lemma scorePatches_composite {M : MathLib} (ps : list PatchScore)
  (px py : nat) (sigma : JS.num) :
  map sp_composite (PatchBasedDetector.scorePatches ps px py sigma) =
  map patch_composite ps.
Proof.
  unfold PatchBasedDetector.scorePatches.
  generalize 0%nat as start.
  induction ps as [|s ps IH]; intro start; [reflexivity|].
  cbn [List.length seq combine map sp_composite]. f_equal. apply IH.
Qed.




(* ================================================================== *)
(** ** C6: calibration statistics *)
(* ================================================================== *)

Lemma arrays_app_nil_r (a : Calibration.Arrays) :
  arrays_app a (arrays_of []) = a.
Proof.
  destruct a. unfold arrays_app. cbn. rewrite !app_nil_r. reflexivity.
Qed.

Lemma arrays_app_assoc (a : Calibration.Arrays) (ps qs : list PatchScore) :
  arrays_app (arrays_app a (arrays_of ps)) (arrays_of qs) =
  arrays_app a (arrays_of (ps ++ qs)).
Proof.
  unfold arrays_app, arrays_of. cbn.
  rewrite !map_app, <- !app_assoc. reflexivity.
Qed.

Lemma push_loop (ps : list PatchScore) (a : Calibration.Arrays) :
  fold_left Calibration.push ps a = arrays_app a (arrays_of ps).
Proof.
  revert a. induction ps as [|s ps IH]; intro a.
  - symmetry. apply arrays_app_nil_r.
  - cbn [fold_left]. rewrite IH.
    change (s :: ps) with ([s] ++ ps). rewrite <- arrays_app_assoc.
    reflexivity.
Qed.

(** The nested loops of patch mode build the concatenation of all patches
    of the valid results. *)
Lemma collectPatchScores_flat (valid : list AnalyzeResult) :
  Calibration.collectPatchScores valid =
  arrays_of
    (flat_map (fun r => match Calibration.patchScores_of r with
                        | Some ps => ps
                        | None => []
                        end) valid).
Proof.
  unfold Calibration.collectPatchScores.
  set (f := fun r => match Calibration.patchScores_of r with
                     | Some ps => ps
                     | None => []
                     end).
  assert (G : forall a,
    fold_left (fun arrays result =>
                 match Calibration.patchScores_of result with
                 | Some patchScores =>
                     fold_left Calibration.push patchScores arrays
                 | None => arrays
                 end) valid a = arrays_app a (arrays_of (flat_map f valid))).
  { induction valid as [|r valid IH]; intro a.
    - symmetry. apply arrays_app_nil_r.
    - cbn [fold_left flat_map]. rewrite IH. unfold f at 2.
      destruct (Calibration.patchScores_of r) as [ps|].
      + rewrite push_loop. apply arrays_app_assoc.
      + reflexivity. }
  rewrite G. unfold arrays_app, arrays_of. reflexivity.
Qed.

Lemma sortNumbers_length_defined (ns : list JS.num) :
  List.length (Calibration.sortNumbers (map Some ns)) = List.length ns.
Proof. rewrite sortNumbers_defined, length_map. apply sort_length. Qed.

(** C6.  The calibration computation fails exactly when no entry is left
    after the entries with an error or without scores are filtered out, and
    then with the message of the empty corpus.  When it succeeds in patch
    mode, the statistics of each algorithm are those of the sorted
    concatenation of that algorithm's raw score over all patches of all
    valid images, [totalSamples] is the number of those patches and
    [sampleSize] the number of valid images. *)
Theorem C6_computeStats_corpus (results : list AnalyzeResult) :
  (forall patchMode,
      (exists m, Calibration.computeStats results patchMode = Throw m) <->
      filter Calibration.valid results = []) /\
  (forall patchMode,
      filter Calibration.valid results = [] ->
      Calibration.computeStats results patchMode =
      Throw "No valid results to compute statistics from") /\
  (forall r, In r (filter Calibration.valid results) ->
      In r results /\ scores r <> None /\
      (error r = None \/ error r = Some ""%string)) /\
  (forall stats,
      Calibration.computeStats results true = Ok stats ->
      let sorted f :=
        Calibration.sortNumbers
          (map (fun s => Some (f s)) (all_patches results)) in
      stats_laplacian stats =
        Calibration.algorithmStats (sorted patch_laplacian) /\
      stats_gradient stats =
        Calibration.algorithmStats (sorted patch_gradient) /\
      stats_tenengrad stats =
        Calibration.algorithmStats (sorted patch_tenengrad) /\
      stats_variance stats =
        Calibration.algorithmStats (sorted patch_variance) /\
      totalSamples stats = List.length (all_patches results) /\
      sampleSize stats = List.length (filter Calibration.valid results) /\
      patchMode stats = true).
Proof.
  split; [|split; [|split]].
  - intro pm. unfold Calibration.computeStats.
    destruct (filter Calibration.valid results) eqn:E.
    + split; [reflexivity | eauto].
    + split; [intros (m & H); discriminate | discriminate].
  - intros pm E. unfold Calibration.computeStats. rewrite E. reflexivity.
  - intros r Hr. apply filter_In in Hr. destruct Hr as (Hin & Hv).
    split; [exact Hin|]. unfold Calibration.valid in Hv.
    apply andb_true_iff in Hv. destruct Hv as (He & Hs).
    split.
    + destruct (scores r); [discriminate | discriminate].
    + destruct (error r) as [[|c s]|]; [right | discriminate | left];
        reflexivity.
  - intros stats H sorted. unfold Calibration.computeStats in H.
    destruct (filter Calibration.valid results) as [|v valid] eqn:E;
      [discriminate|].
    injection H as H. subst stats.
    cbn [stats_laplacian stats_gradient stats_tenengrad stats_variance
         totalSamples sampleSize patchMode
         Calibration.laplacianScores Calibration.gradientScores
         Calibration.tenengradScores Calibration.varianceScores].
    rewrite collectPatchScores_flat. subst sorted. cbv beta.
    unfold all_patches. rewrite E. unfold arrays_of.
    cbn [Calibration.laplacianScores Calibration.gradientScores
         Calibration.tenengradScores Calibration.varianceScores].
    repeat split; try reflexivity.
    rewrite <- (map_map patch_laplacian Some).
    rewrite sortNumbers_length_defined. apply length_map.
Qed.

Lemma C6_computeStats_corpus_witness :
  List.length sampleCorpus = 2%nat /\
  exists stats,
    Calibration.computeStats sampleCorpus true = Ok stats /\
    totalSamples stats = List.length (all_patches sampleCorpus) /\
    sampleSize stats = List.length (filter Calibration.valid sampleCorpus) /\
    totalSamples stats = 4%nat /\ sampleSize stats = 1%nat /\
    Calibration.computeStats [] true =
      Throw "No valid results to compute statistics from".
Proof.
  split; [reflexivity|].
  eexists. split; [vm_compute; reflexivity|].
  pose proof (proj2 (proj2 (proj2 (C6_computeStats_corpus sampleCorpus))))
    as H.
  specialize (H _ ltac:(vm_compute; reflexivity)).
  destruct H as (_ & _ & _ & _ & Ht & Hs & _).
  split; [exact Ht|]. split; [exact Hs|].
  split; [reflexivity|]. split; [reflexivity|].
  exact (proj1 (proj2 (C6_computeStats_corpus [])) true eq_refl).
Defined.

(* ================================================================== *)
(** ** C7: unsupported names *)
(* ================================================================== *)

Lemma eqb_not_In (s x : string) (l : list string) :
  ~ In s l -> In x l -> String.eqb s x = false.
Proof.
  intros Hs Hx. apply String.eqb_neq. intros ->. contradiction.
Qed.

Ltac not_listed H :=
  repeat match goal with
  | |- context [String.eqb ?s ?x] =>
      rewrite (eqb_not_In s x _ H) by (simpl; tauto)
  end.

(** C7, as the code has it.  No name is rejected: the constructor and the
    blurry decision always return.  An algorithm name outside the
    supported ones builds the composite detector, with the calibration and
    the threshold defaults of ['composite']; a strategy name outside the
    supported ones is decided on the max-focus score. *)
Theorem C7_unsupported_names_fall_back :
  (forall options, exists d, BlurDetector.new options = Ok d) /\
  (forall options name d,
      BlurDetector.opt_algorithm options = Some name ->
      ~ In name supportedAlgorithms ->
      BlurDetector.new options = Ok d ->
      BlurDetector.detector d =
        BlurDetector.DComposite
          (CompositeDetector.new (BlurDetector.opt_calibrationStats options))
      /\
      BlurDetector.threshold d =
        BlurDetector.thresholdOr options
          (match BlurDetector.opt_calibrationStats options with
           | Some _ => JS.Fin 25
           | None => JS.Fin 30
           end)) /\
  (forall scores threshold strategy,
      ~ In strategy supportedStrategies ->
      PatchBasedDetector.isBlurry scores threshold strategy =
      Ok (maxFocus scores < threshold)).
Proof.
  split; [|split].
  - intro options. unfold BlurDetector.new.
    repeat match goal with
    | |- context [if ?b then _ else _] => destruct b
    end; eauto.
  - intros options name d Hopt Hname Hnew.
    unfold BlurDetector.new in Hnew. rewrite Hopt in Hnew.
    cbv zeta in Hnew.
    destruct name as [|c name'].
    + (* the empty name is falsy: 'composite' is taken *)
      cbn in Hnew. injection Hnew as <-.
      cbn [BlurDetector.detector BlurDetector.threshold].
      split; [reflexivity|].
      destruct (BlurDetector.opt_calibrationStats options); reflexivity.
    + change (BlurDetector.string_or (Some (String c name')) "composite")
        with (String c name') in Hnew.
      revert Hnew. not_listed Hname. intro Hnew. injection Hnew as <-.
      cbn [BlurDetector.detector BlurDetector.threshold].
      split; [reflexivity|].
      destruct (BlurDetector.opt_calibrationStats options); reflexivity.
  - intros scores threshold strategy Hs.
    unfold PatchBasedDetector.isBlurry, PatchBasedDetector.selectScore.
    not_listed Hs. reflexivity.
Qed.

Lemma not_In_dec (s : string) (l : list string) :
  existsb (String.eqb s) l = false -> ~ In s l.
Proof.
  intros H Hin. assert (E : existsb (String.eqb s) l = true).
  { apply existsb_exists. exists s. split; [exact Hin | apply String.eqb_refl]. }
  congruence.
Qed.

Lemma C7_unsupported_names_fall_back_witness :
  ~ In "sharpness"%string supportedAlgorithms /\
  ~ In "sharpest"%string supportedStrategies /\
  (exists d,
     BlurDetector.new sharpnessOptions = Ok d /\
     BlurDetector.detector d =
       BlurDetector.DComposite (CompositeDetector.new None) /\
     BlurDetector.threshold d = JS.Fin 30) /\
  (forall scores threshold,
     PatchBasedDetector.isBlurry scores threshold "sharpest" =
     Ok (maxFocus scores < threshold)).
Proof.
  assert (Ha : ~ In "sharpness"%string supportedAlgorithms)
    by (apply not_In_dec; reflexivity).
  assert (Hs : ~ In "sharpest"%string supportedStrategies)
    by (apply not_In_dec; reflexivity).
  split; [exact Ha|]. split; [exact Hs|]. split.
  - eexists. split; [reflexivity|].
    exact (proj1 (proj2 C7_unsupported_names_fall_back)
             sharpnessOptions "sharpness"%string _ eq_refl Ha eq_refl).
  - intros scores threshold.
    exact (proj2 (proj2 C7_unsupported_names_fall_back)
             scores threshold "sharpest"%string Hs).
Defined.

(** C7 as stated fails: an unsupported algorithm name and an unsupported
    strategy name are both accepted, the first by constructing a scorer and
    the second by producing a verdict; neither operation throws. *)
Lemma C7_counterexample_no_ConfigError :
  ~ In "sharpness"%string supportedAlgorithms /\
  ~ In "sharpest"%string supportedStrategies /\
  (forall m, BlurDetector.new sharpnessOptions <> Throw m) /\
  (forall scores threshold m,
     PatchBasedDetector.isBlurry scores threshold "sharpest" <> Throw m).
Proof.
  split; [apply not_In_dec; reflexivity|].
  split; [apply not_In_dec; reflexivity|].
  split; intros; discriminate.
Qed.

(* ================================================================== *)
(** ** C8: failures at the per-image boundary *)
(* ================================================================== *)

Section Boundary.
Context {M : MathLib} {P : Platform}.

Lemma laplacian_throws (buf : ImageBuffer) (m : string) :
  sharp_raw buf = Throw m ->
  LaplacianDetector.calculateBlurScore buf =
  Throw ("Failed to calculate blur score: " ++ m)%string.
Proof.
  intro H. unfold LaplacianDetector.calculateBlurScore. rewrite H.
  reflexivity.
Qed.

Lemma gradient_throws (buf : ImageBuffer) (m : string) :
  sharp_raw buf = Throw m ->
  GradientDetector.calculateBlurScore buf =
  Throw ("Failed to calculate gradient score: " ++ m)%string.
Proof.
  intro H. unfold GradientDetector.calculateBlurScore. rewrite H.
  reflexivity.
Qed.

Lemma tenengrad_throws (buf : ImageBuffer) (m : string) :
  sharp_raw buf = Throw m ->
  TenengradDetector.calculateBlurScore buf =
  Throw ("Failed to calculate Tenengrad score: " ++ m)%string.
Proof.
  intro H. unfold TenengradDetector.calculateBlurScore. rewrite H.
  reflexivity.
Qed.

Lemma variance_throws (buf : ImageBuffer) (m : string) :
  sharp_raw buf = Throw m ->
  VarianceDetector.calculateBlurScore buf =
  Throw ("Failed to calculate variance score: " ++ m)%string.
Proof.
  intro H. unfold VarianceDetector.calculateBlurScore. rewrite H.
  reflexivity.
Qed.

Lemma composite_throws (self : CompositeDetector.t) (buf : ImageBuffer)
  (m : string) :
  sharp_raw buf = Throw m ->
  CompositeDetector.calculateBlurScore self buf =
  Throw ("Failed to calculate composite score: " ++
         "Failed to calculate blur score: " ++ m)%string.
Proof.
  intro H. unfold CompositeDetector.calculateBlurScore.
  rewrite (laplacian_throws buf m H). reflexivity.
Qed.

(** Once a step of a loop has thrown, the loop throws. *)
Lemma loop_Throw {A B : Type} (step : A -> B -> Exc A) (l : list B)
  (m : string) :
  fold_left (fun acc b => a <- acc ;; step a b) l (Throw m) = Throw m.
Proof. induction l as [|b l IH]; [reflexivity | exact IH]. Qed.

Lemma scorePatchList_throws (self : PatchBasedDetector.t)
  (patches : list Patch) :
  Exists (fun patch => exists m, sharp_raw (buffer patch) = Throw m) patches ->
  exists m, PatchBasedDetector.scorePatchList self patches = Throw m.
Proof.
  unfold PatchBasedDetector.scorePatchList.
  generalize (@Ok (list PatchScore) []) as acc.
  induction patches as [|p patches IH]; intros acc H;
    [inversion H|].
  cbn [fold_left].
  destruct acc as [ps|m0].
  - inversion H as [? ? (m & Hm)|? ? Ht]; subst.
    + cbn [bind]. rewrite (composite_throws _ _ m Hm). cbn [bind].
      eexists. apply loop_Throw.
    + apply IH. exact Ht.
  - cbn [bind]. eexists. apply loop_Throw.
Qed.

Lemma patch_based_throws (self : PatchBasedDetector.t) (buf : ImageBuffer) :
  kernel_fails (BlurDetector.DPatchBased self) buf ->
  exists m, PatchBasedDetector.calculateBlurScore self buf = Throw m.
Proof.
  intros (patches & Hd & Hex).
  destruct (scorePatchList_throws self patches Hex) as (m & Hm).
  unfold PatchBasedDetector.calculateBlurScore.
  cbv zeta. rewrite Hd. cbn [bind]. rewrite Hm. cbn. eauto.
Qed.

Lemma scoreWith_throws (self : BlurDetector.t) (file : string)
  (buf : ImageBuffer) :
  kernel_fails (BlurDetector.detector self) buf ->
  exists m, BlurDetector.scoreWith self file buf = Throw m.
Proof.
  intro H. unfold BlurDetector.scoreWith.
  destruct (BlurDetector.detector self) as [| | | |pd|cd].
  - destruct H as (m & H). rewrite (laplacian_throws _ _ H). cbn. eauto.
  - destruct H as (m & H). rewrite (gradient_throws _ _ H). cbn. eauto.
  - destruct H as (m & H). rewrite (tenengrad_throws _ _ H). cbn. eauto.
  - destruct H as (m & H). rewrite (variance_throws _ _ H). cbn. eauto.
  - destruct (patch_based_throws pd buf H) as (m & Hm). rewrite Hm.
    cbn. eauto.
  - destruct H as (m & H). rewrite (composite_throws cd _ _ H). cbn. eauto.
Qed.

Lemma analyze_total (self : BlurDetector.t) (file : string) :
  exists r, BlurDetector.analyze self file = Ok r.
Proof.
  unfold BlurDetector.analyze.
  destruct (bind (extract_preview file) _); cbn; eauto.
Qed.

Lemma analyzeAll_results (self : BlurDetector.t) (files : list string) :
  exists rs,
    BlurDetector.analyzeAll self files = Ok rs /\
    Forall2 (fun f r => BlurDetector.analyze self f = Ok r) files rs.
Proof.
  unfold BlurDetector.analyzeAll.
  assert (G : forall acc, exists rs,
    fold_left (fun acc file =>
                 results <- acc ;;
                 result <- BlurDetector.analyze self file ;;
                 Ok (results ++ [result])) files (Ok acc) = Ok (acc ++ rs) /\
    Forall2 (fun f r => BlurDetector.analyze self f = Ok r) files rs).
  { induction files as [|f files IH]; intro acc.
    - exists []. rewrite app_nil_r. split; [reflexivity | constructor].
    - cbn [fold_left bind].
      destruct (analyze_total self f) as (r & Hr). rewrite Hr. cbn [bind].
      destruct (IH (acc ++ [r])) as (rs & E & F).
      exists (r :: rs). rewrite E, <- app_assoc. split; [reflexivity|].
      constructor; assumption. }
  destruct (G []) as (rs & E & F). exists rs. split; assumption.
Qed.

End Boundary.

(** C8.  Scoring one image always returns a record and never throws.  If
    the preview cannot be extracted, or if a focus-measure kernel fails (on
    the image, or on any patch of it for the patch-based detector), the
    record is the one with the error message, which has no score, no
    verdict and no scores object.  A batch therefore yields one record per
    file, each the result of scoring that file, whatever fails on the
    others. *)
Theorem C8_failure_is_a_result_record (M : MathLib) (P : Platform)
  (self : BlurDetector.t) :
  (forall file, exists r, BlurDetector.analyze self file = Ok r) /\
  (forall file m,
      extract_preview file = Throw m ->
      BlurDetector.analyze self file = Ok (BlurDetector.failed file m)) /\
  (forall file buf,
      extract_preview file = Ok buf ->
      kernel_fails (BlurDetector.detector self) buf ->
      exists m,
        BlurDetector.analyze self file = Ok (BlurDetector.failed file m)) /\
  (forall file m,
      error (BlurDetector.failed file m) = Some m /\
      blurScore (BlurDetector.failed file m) = None /\
      isBlurry (BlurDetector.failed file m) = None /\
      scores (BlurDetector.failed file m) = None) /\
  (forall files, exists rs,
      BlurDetector.analyzeAll self files = Ok rs /\
      Forall2 (fun f r => BlurDetector.analyze self f = Ok r) files rs /\
      List.length rs = List.length files).
Proof.
  split; [|split; [|split; [|split]]].
  - apply analyze_total.
  - intros file m H. unfold BlurDetector.analyze. rewrite H. reflexivity.
  - intros file buf He Hk.
    destruct (scoreWith_throws self file buf Hk) as (m & Hm).
    exists m. unfold BlurDetector.analyze. rewrite He. cbn [bind].
    rewrite Hm. reflexivity.
  - intros file m. repeat split.
  - intro files. destruct (analyzeAll_results self files) as (rs & E & F).
    exists rs. split; [exact E|]. split; [exact F|].
    symmetry. eapply Forall2_length. exact F.
Qed.

Lemma C8_failure_is_a_result_record_witness :
  @extract_preview SamplePlatform "corrupt.nef" = Ok None /\
  @kernel_fails SamplePlatform (BlurDetector.detector compositeDetector0)
                None /\
  @extract_preview SamplePlatform "missing.nef" =
    Throw "Failed to extract preview from missing.nef: No preview image found in RAW file" /\
  (exists m,
     @BlurDetector.analyze CoarseMath SamplePlatform compositeDetector0
       "corrupt.nef" = Ok (@BlurDetector.failed SamplePlatform "corrupt.nef" m)) /\
  @BlurDetector.analyze CoarseMath SamplePlatform compositeDetector0
    "missing.nef" =
  Ok (@BlurDetector.failed SamplePlatform "missing.nef"
        "Failed to extract preview from missing.nef: No preview image found in RAW file").
Proof.
  assert (H1 : @extract_preview SamplePlatform "corrupt.nef" = Ok None)
    by reflexivity.
  assert (H2 : @kernel_fails SamplePlatform
                 (BlurDetector.detector compositeDetector0) None)
    by (cbn; eexists; reflexivity).
  assert (H3 : @extract_preview SamplePlatform "missing.nef" =
    Throw "Failed to extract preview from missing.nef: No preview image found in RAW file")
    by reflexivity.
  split; [exact H1|]. split; [exact H2|]. split; [exact H3|]. split.
  - exact (proj1 (proj2 (proj2
             (C8_failure_is_a_result_record CoarseMath SamplePlatform
                compositeDetector0))) "corrupt.nef"%string None H1 H2).
  - exact (proj1 (proj2
             (C8_failure_is_a_result_record CoarseMath SamplePlatform
                compositeDetector0)) "missing.nef"%string _ H3).
Defined.

(* ================================================================== *)
(** ** Loops and typed arrays *)
(* ================================================================== *)

Lemma fold_left_invariant {S B : Type} (Inv : S -> Prop) (f : S -> B -> S)
  (l : list B) (s : S) :
  Inv s -> (forall b s, In b l -> Inv s -> Inv (f s b)) ->
  Inv (fold_left f l s).
Proof.
  revert s. induction l as [|b l IH]; intros s Hs Hf; [exact Hs|].
  cbn [fold_left]. apply IH.
  - apply Hf; [left; reflexivity | exact Hs].
  - intros b' s' Hin. apply Hf. right. exact Hin.
Qed.

Lemma for_loop_invariant {S : Type} (Inv : S -> Prop) (lo hi : nat)
  (body : nat -> S -> S) (s : S) :
  Inv s ->
  (forall i s, (lo <= i < hi)%nat -> Inv s -> Inv (body i s)) ->
  Inv (for_loop lo hi body s).
Proof.
  intros Hs Hb. unfold for_loop. apply fold_left_invariant; [exact Hs|].
  intros i s' Hin. apply Hb. apply in_seq in Hin. lia.
Qed.

Lemma set_length (l : list JS.num) (i : nat) (v : JS.num) :
  List.length (JS.set l i v) = List.length l.
Proof.
  revert i. induction l as [|h t IH]; intro i; [reflexivity|].
  destruct i; cbn [JS.set List.length]; [reflexivity | rewrite IH; reflexivity].
Qed.

Lemma set_fin_list (Good : Q -> Prop) (l : list JS.num) (i : nat) (q : Q) :
  fin_list Good l -> Good q -> fin_list Good (JS.set l i (JS.Fin q)).
Proof.
  intros Hl Hq. revert i. induction Hl as [|h t Hh Ht IH]; intro i.
  - constructor.
  - destruct i; cbn [JS.set]; constructor; try assumption.
    + exists q. split; [reflexivity | exact Hq].
    + apply IH.
Qed.

Lemma Float32Array_fin_list (Good : Q -> Prop) (n : nat) :
  Good 0%Q -> fin_list Good (JS.Float32Array n).
Proof.
  intro H. unfold JS.Float32Array, fin_list. apply Forall_forall.
  intros v Hv. apply repeat_spec in Hv. subst v. exists 0%Q. split; auto.
Qed.

Lemma Float32Array_length (n : nat) : List.length (JS.Float32Array n) = n.
Proof. apply repeat_length. Qed.

Lemma get_fin_list (Good : Q -> Prop) (l : list JS.num) (i : nat) :
  fin_list Good l -> (i < List.length l)%nat ->
  exists q, JS.get l i = JS.Fin q /\ Good q.
Proof.
  intros Hl Hi. unfold fin_list in Hl. rewrite Forall_forall in Hl.
  apply Hl. unfold JS.get. apply nth_In. exact Hi.
Qed.

Lemma fin_list_map (Good : Q -> Prop) (l : list JS.num) :
  fin_list Good l -> exists qs, l = map JS.Fin qs /\ Forall Good qs.
Proof.
  induction 1 as [|v l (q & -> & Hq) Hl (qs & -> & Hqs)].
  - exists []. split; [reflexivity | constructor].
  - exists (q :: qs). split; [reflexivity | constructor; assumption].
Qed.

Lemma nth_set_same (l : list JS.num) (i : nat) (v d : JS.num) :
  (i < List.length l)%nat -> nth i (JS.set l i v) d = v.
Proof.
  revert i. induction l as [|h t IH]; intros i Hi; [simpl in Hi; lia|].
  destruct i; [reflexivity|]. cbn [JS.set nth]. apply IH.
  simpl in Hi. lia.
Qed.

Lemma nth_set_other (l : list JS.num) (i j : nat) (v d : JS.num) :
  i <> j -> nth i (JS.set l j v) d = nth i l d.
Proof.
  revert i j. induction l as [|h t IH]; intros i j Hne; [reflexivity|].
  destruct j, i; cbn [JS.set nth]; try reflexivity; try lia.
  apply IH. lia.
Qed.

(** A loop that writes every cell. *)
Lemma fill_loop_fin_list (Good : Q -> Prop) (n : nat) (f : nat -> JS.num) :
  (forall i, (i < n)%nat -> exists q, f i = JS.Fin q /\ Good q) ->
  let result :=
    for_loop 0 n (fun i arr => JS.set arr i (f i)) (JS.Float32Array n) in
  fin_list Good result /\ List.length result = n.
Proof.
  intros Hf result.
  (* cells below the loop counter are good *)
  assert (G : forall k, (k <= n)%nat ->
    let arr := fold_left (fun arr i => JS.set arr i (f i)) (seq 0 k)
                         (JS.Float32Array n) in
    List.length arr = n /\
    forall i, (i < k)%nat -> exists q, JS.get arr i = JS.Fin q /\ Good q).
  { induction k as [|k IH]; intros Hk arr.
    - split; [apply Float32Array_length | intros i Hi; lia].
    - subst arr. rewrite seq_S, fold_left_app. cbn [fold_left Nat.add].
      specialize (IH ltac:(lia)). cbv zeta in IH. destruct IH as (Hlen & Hget).
      split; [rewrite set_length; exact Hlen|].
      intros i Hi. unfold JS.get.
      destruct (Nat.eq_dec i k) as [->|Hne].
      + rewrite nth_set_same by lia. apply Hf. lia.
      + rewrite nth_set_other by exact Hne. apply Hget. lia. }
  specialize (G n (Nat.le_refl n)). cbv zeta in G. destruct G as (Hlen & Hget).
  unfold result, for_loop. rewrite Nat.sub_0_r.
  split; [|exact Hlen].
  unfold fin_list. apply Forall_forall. intros v Hv.
  apply (In_nth _ _ JS.NaN) in Hv. destruct Hv as (i & Hi & <-).
  apply Hget. lia.
Qed.

(* ================================================================== *)
(** ** Sums and variances of finite values *)
(* ================================================================== *)

Lemma sum_loop_fin (qs : list Q) (s : Q) :
  fold_left JS.add (map JS.Fin qs) (JS.Fin s) = JS.Fin (fold_left Qplus qs s).
Proof.
  revert s. induction qs as [|q qs IH]; intro s; [reflexivity|].
  cbn [map fold_left]. apply IH.
Qed.

Lemma sum_count_loop_fin (qs : list Q) (s c : Q) :
  fold_left (fun '(sum, count) d => (sum + d, count + JS.Fin 1))
            (map JS.Fin qs) (JS.Fin s, JS.Fin c) =
  (JS.Fin (fold_left Qplus qs s),
   JS.Fin (fold_left (fun c _ => c + 1)%Q qs c)).
Proof.
  revert s c. induction qs as [|q qs IH]; intros s c; [reflexivity|].
  cbn [map fold_left]. apply IH.
Qed.

Lemma square_loop_fin (qs : list Q) (m v : Q) :
  fold_left (fun varianceSum d =>
               let diff := d - JS.Fin m in varianceSum + diff * diff)
            (map JS.Fin qs) (JS.Fin v) =
  JS.Fin (fold_left (fun vs q => vs + (q - m) * (q - m))%Q qs v).
Proof.
  revert v. induction qs as [|q qs IH]; intro v; [reflexivity|].
  cbn [map fold_left]. apply IH.
Qed.

Lemma count_loop_value (qs : list Q) (c : Q) :
  (fold_left (fun c _ => c + 1) qs c ==
   c + inject_Z (Z.of_nat (List.length qs)))%Q.
Proof.
  revert c. induction qs as [|q qs IH]; intro c.
  - simpl. ring.
  - cbn [fold_left]. rewrite IH.
    change (List.length (q :: qs)) with (S (List.length qs)).
    rewrite Nat2Z.inj_succ. unfold Z.succ. rewrite inject_Z_plus.
    simpl (inject_Z 1). ring.
Qed.

Lemma sum_loop_const (qs : list Q) (s k : Q) :
  Forall (fun q => q == k)%Q qs ->
  (fold_left Qplus qs s == s + inject_Z (Z.of_nat (List.length qs)) * k)%Q.
Proof.
  intro H. revert s. induction H as [|q qs Hq Hqs IH]; intro s.
  - simpl. ring.
  - cbn [fold_left]. rewrite IH.
    change (List.length (q :: qs)) with (S (List.length qs)).
    rewrite Nat2Z.inj_succ. unfold Z.succ. rewrite inject_Z_plus.
    simpl (inject_Z 1). cbv beta in Hq. rewrite Hq. ring.
Qed.

Lemma sum_loop_nonneg (qs : list Q) (s : Q) :
  (0 <= s)%Q -> Forall (fun q => 0 <= q)%Q qs ->
  (0 <= fold_left Qplus qs s)%Q.
Proof.
  intros Hs H. revert s Hs. induction H as [|q qs Hq Hqs IH]; intros s Hs.
  - exact Hs.
  - cbn [fold_left]. cbv beta in Hq. apply IH. lra.
Qed.

Lemma square_loop_nonneg (qs : list Q) (m v : Q) :
  (0 <= v)%Q ->
  (0 <= fold_left (fun vs q => vs + (q - m) * (q - m)) qs v)%Q.
Proof.
  revert v. induction qs as [|q qs IH]; intros v Hv; [exact Hv|].
  cbn [fold_left]. apply IH.
  assert (H : (0 <= (q - m) * (q - m))%Q)
    by (destruct (Qlt_le_dec (q - m) 0); nra).
  lra.
Qed.

Lemma square_loop_const (qs : list Q) (m v : Q) :
  Forall (fun q => q == m)%Q qs ->
  (fold_left (fun vs q => vs + (q - m) * (q - m)) qs v == v)%Q.
Proof.
  intro H. revert v. induction H as [|q qs Hq Hqs IH]; intro v.
  - reflexivity.
  - cbn [fold_left]. cbv beta in Hq. rewrite IH. rewrite Hq. ring.
Qed.

Lemma length_pos_Q {A : Type} (l : list A) :
  l <> [] -> (0 < inject_Z (Z.of_nat (List.length l)))%Q.
Proof.
  intro H. change 0%Q with (inject_Z 0). rewrite <- Zlt_Qlt.
  destruct l; [congruence | simpl; lia].
Qed.

(** The variance computed by the kernels: sum, mean, sum of squared
    differences, each over the same finite values, divided by their count.
    It is non-negative, and zero when the values are all equal to some
    [k] (the condition [Flat] says when). *)
Lemma variance_core (qs : list Q) (k cnt : Q) (Flat : Prop) :
  qs <> [] ->
  (cnt == inject_Z (Z.of_nat (List.length qs)))%Q ->
  Forall (fun q => Flat -> q == k)%Q qs ->
  let m := (fold_left Qplus qs 0 / cnt)%Q in
  let V := fold_left (fun vs q => vs + (q - m) * (q - m))%Q qs 0%Q in
  ~ (cnt == 0)%Q /\ (0 <= V / cnt)%Q /\ (Flat -> V / cnt == 0)%Q.
Proof.
  intros Hne Hc Hk m V.
  pose proof (length_pos_Q qs Hne) as Hn.
  assert (Hc0 : (0 < cnt)%Q) by lra.
  split; [lra|]. split.
  - apply Qle_shift_div_l; [exact Hc0|].
    pose proof (square_loop_nonneg qs m 0 ltac:(lra)). fold V in H. lra.
  - intro HF.
    assert (Hall : Forall (fun q => q == k)%Q qs).
    { eapply Forall_impl; [|exact Hk]. intros q Hq. exact (Hq HF). }
    assert (Hm : (m == k)%Q).
    { unfold m. rewrite (sum_loop_const qs 0 k Hall), Hc. field. lra. }
    assert (Hall' : Forall (fun q => q == m)%Q qs).
    { eapply Forall_impl; [|exact Hall]. intros q Hq. cbv beta in Hq.
      rewrite Hq, Hm. reflexivity. }
    unfold V. rewrite (square_loop_const qs m 0 Hall'). field. lra.
Qed.

(* ================================================================== *)
(** ** C9: the focus-measure kernels *)
(* ================================================================== *)

Lemma variance_tail (qs : list Q) (k cnt : Q) (Flat : Prop) :
  qs <> [] ->
  (cnt == inject_Z (Z.of_nat (List.length qs)))%Q ->
  Forall (fun q => Flat -> q == k)%Q qs ->
  let mean := JS.Fin (fold_left Qplus qs 0%Q) / JS.Fin cnt in
  let varianceSum :=
    fold_left (fun varianceSum d =>
                 let diff := d - mean in varianceSum + diff * diff)
              (map JS.Fin qs) JS.zero in
  exists v, varianceSum / JS.Fin cnt = JS.Fin v /\
            (0 <= v)%Q /\ (Flat -> v == 0)%Q.
Proof.
  intros Hne Hc Hk mean varianceSum.
  destruct (variance_core qs k cnt Flat Hne Hc Hk) as (Hc0 & Hnn & Hz).
  subst varianceSum mean. rewrite div_fin by exact Hc0.
  unfold JS.zero. rewrite square_loop_fin. rewrite div_fin by exact Hc0.
  eexists. split; [reflexivity|]. split; [exact Hnn | exact Hz].
Qed.

Lemma laplacian_variance_fin (qs : list Q) (Flat : Prop) :
  qs <> [] -> Forall (fun q => Flat -> q == 0)%Q qs ->
  exists v, LaplacianDetector.calculateVariance (map JS.Fin qs) = JS.Fin v /\
            (0 <= v)%Q /\ (Flat -> v == 0)%Q.
Proof.
  intros Hne Hk. unfold LaplacianDetector.calculateVariance, JS.zero.
  rewrite sum_count_loop_fin.
  apply (variance_tail qs 0 _ Flat Hne); [|exact Hk].
  rewrite count_loop_value. ring.
Qed.

Lemma fold_left_map_arg {A B C : Type} (g : C -> B -> C) (f : A -> B)
  (l : list A) (c : C) :
  fold_left (fun acc a => g acc (f a)) l c = fold_left g (map f l) c.
Proof.
  revert c. induction l as [|a l IH]; intro c; [reflexivity|].
  cbn [fold_left map]. apply IH.
Qed.

Lemma variance_kernel_fin (pixels : list Z) (c : Z) (n : nat) :
  pixels <> [] ->
  exists v, VarianceDetector.calculateVariance pixels = JS.Fin v /\
            (0 <= v)%Q /\ (pixels = repeat c n -> v == 0)%Q.
Proof.
  intro Hne. unfold VarianceDetector.calculateVariance.
  rewrite (fold_left_map_arg JS.add JS.of_Z).
  rewrite (fold_left_map_arg
             (fun varianceSum d =>
                let diff := d - _ in varianceSum + diff * diff) JS.of_Z).
  change (map JS.of_Z pixels) with (map (fun z => JS.Fin (inject_Z z)) pixels).
  rewrite <- (map_map inject_Z JS.Fin). unfold JS.zero at 1.
  rewrite sum_loop_fin. unfold JS.of_nat.
  apply (variance_tail (map inject_Z pixels) (inject_Z c)
           _ (pixels = repeat c n)).
  - destruct pixels; [congruence | discriminate].
  - rewrite length_map. reflexivity.
  - apply Forall_forall. intros q Hq E. apply in_map_iff in Hq.
    destruct Hq as (b & <- & Hb). rewrite E in Hb.
    apply repeat_spec in Hb. subst b. reflexivity.
Qed.

(** A byte read within the buffer. *)
Lemma pixel_read (pixels : list Z) (i : nat) :
  (i < List.length pixels)%nat ->
  exists b, pixel pixels i = JS.Fin (inject_Z b) /\
            forall c n, pixels = repeat c n -> b = c.
Proof.
  intro Hi. unfold pixel.
  destruct (nth_error pixels i) as [b|] eqn:E.
  - exists b. split; [reflexivity|]. intros c n ->.
    apply nth_error_In in E. apply repeat_spec in E. exact E.
  - apply nth_error_None in E. lia.
Qed.

Section Convolutions.
Variables (pixels : list Z) (w h : nat) (c : Z).
Hypothesis Hlen : List.length pixels = (w * h)%nat.

(** The buffer has the constant intensity [c]. *)
Let Flat : Prop := pixels = repeat c (w * h).
Let Good (q : Q) : Prop := Flat -> (q == 0)%Q.

Ltac read_pixel i b Hb Hc :=
  let H := fresh "H" in
  assert (H : (i < List.length pixels)%nat)
    by (rewrite Hlen; nia);
  destruct (pixel_read pixels i H) as (b & Hb & Hc); clear H.

Lemma applyLaplacian_fin_list :
  fin_list Good (LaplacianDetector.applyLaplacian pixels w h) /\
  List.length (LaplacianDetector.applyLaplacian pixels w h) =
  List.length pixels.
Proof.
  unfold LaplacianDetector.applyLaplacian.
  apply (for_loop_invariant
           (fun arr => fin_list Good arr /\
                       List.length arr = List.length pixels)).
  - split; [apply Float32Array_fin_list; intro; reflexivity
           | apply Float32Array_length].
  - intros y arr Hy Harr.
    apply (for_loop_invariant
             (fun arr => fin_list Good arr /\
                         List.length arr = List.length pixels));
      [exact Harr|].
    intros x arr' Hx (Hf & Hl). cbv zeta.
    read_pixel ((y - 1) * w + x)%nat b1 E1 C1.
    read_pixel (y * w + (x - 1))%nat b2 E2 C2.
    read_pixel (y * w + x)%nat b3 E3 C3.
    read_pixel (y * w + (x + 1))%nat b4 E4 C4.
    read_pixel ((y + 1) * w + x)%nat b5 E5 C5.
    rewrite E1, E2, E3, E4, E5. cbn [JS.mul JS.add].
    split; [|rewrite set_length; exact Hl].
    apply set_fin_list; [exact Hf|].
    intro HF. rewrite (C1 _ _ HF), (C2 _ _ HF), (C3 _ _ HF), (C4 _ _ HF),
      (C5 _ _ HF). ring.
Qed.

Lemma calculateGradients_fin_list :
  let g := GradientDetector.calculateGradients pixels w h in
  fin_list Good (fst g) /\ fin_list Good (snd g) /\
  List.length (fst g) = List.length pixels /\
  List.length (snd g) = List.length pixels.
Proof.
  unfold GradientDetector.calculateGradients. cbv zeta.
  apply (for_loop_invariant
           (fun g : list JS.num * list JS.num =>
              fin_list Good (fst g) /\ fin_list Good (snd g) /\
              List.length (fst g) = List.length pixels /\
              List.length (snd g) = List.length pixels)).
  - cbn [fst snd]. repeat split;
      try (apply Float32Array_fin_list; intro; reflexivity);
      apply Float32Array_length.
  - intros y g Hy Hg.
    apply (for_loop_invariant
             (fun g : list JS.num * list JS.num =>
                fin_list Good (fst g) /\ fin_list Good (snd g) /\
                List.length (fst g) = List.length pixels /\
                List.length (snd g) = List.length pixels));
      [exact Hg|].
    intros x [gx gy] Hx (Hfx & Hfy & Hlx & Hly). cbn [fst snd] in *.
    read_pixel ((y - 1) * w + (x - 1))%nat b1 E1 C1.
    read_pixel ((y - 1) * w + x)%nat b2 E2 C2.
    read_pixel ((y - 1) * w + (x + 1))%nat b3 E3 C3.
    read_pixel (y * w + (x - 1))%nat b4 E4 C4.
    read_pixel (y * w + (x + 1))%nat b5 E5 C5.
    read_pixel ((y + 1) * w + (x - 1))%nat b6 E6 C6.
    read_pixel ((y + 1) * w + x)%nat b7 E7 C7.
    read_pixel ((y + 1) * w + (x + 1))%nat b8 E8 C8.
    rewrite E1, E2, E3, E4, E5, E6, E7, E8.
    unfold JS.zero. cbn [JS.mul JS.add fst snd].
    rewrite !set_length.
    repeat split; try assumption; apply set_fin_list; try assumption;
      intro HF;
      rewrite ?(C1 _ _ HF), ?(C2 _ _ HF), ?(C3 _ _ HF), ?(C4 _ _ HF),
        ?(C5 _ _ HF), ?(C6 _ _ HF), ?(C7 _ _ HF), ?(C8 _ _ HF); ring.
Qed.

End Convolutions.

Section KernelScores.
Context {M : MathLib}.
Variables (pixels : list Z) (w h : nat) (c : Z).
Hypothesis Hlen : List.length pixels = (w * h)%nat.
Hypothesis Hne : pixels <> [].

Let Flat : Prop := pixels = repeat c (w * h).
Let img : RawImage := {| data := pixels; width := w; height := h |}.

Lemma nonempty_of_length {A B : Type} (l : list A) (l' : list B) :
  List.length l = List.length l' -> l' <> [] -> l <> [].
Proof. destruct l, l'; simpl; congruence. Qed.

Lemma laplacian_score :
  exists v,
    LaplacianDetector.calculateVariance
      (LaplacianDetector.applyLaplacian pixels w h) = JS.Fin v /\
    (0 <= v)%Q /\ (Flat -> v == 0)%Q.
Proof.
  destruct (applyLaplacian_fin_list pixels w h c Hlen) as (Hf & Hl).
  destruct (fin_list_map _ _ Hf) as (qs & E & Hqs).
  rewrite E in *. rewrite length_map in Hl.
  apply laplacian_variance_fin; [|exact Hqs].
  exact (nonempty_of_length qs pixels Hl Hne).
Qed.

(** Squares of gradients: finite, non-negative, zero on a flat buffer. *)
Lemma gradient_squares (gx gy : list JS.num) (i : nat) :
  fin_list (fun q => Flat -> q == 0)%Q gx ->
  fin_list (fun q => Flat -> q == 0)%Q gy ->
  List.length gx = List.length gy -> (i < List.length gx)%nat ->
  exists q, JS.get gx i * JS.get gx i + JS.get gy i * JS.get gy i
            = JS.Fin q /\ (0 <= q)%Q /\ (Flat -> q == 0)%Q.
Proof.
  intros Hx Hy Hl Hi.
  destruct (get_fin_list _ gx i Hx Hi) as (a & Ea & Ha).
  destruct (get_fin_list _ gy i Hy ltac:(lia)) as (b & Eb & Hb).
  rewrite Ea, Eb. cbn [JS.mul JS.add]. eexists. split; [reflexivity|].
  split.
  - assert (0 <= a * a)%Q by (destruct (Qlt_le_dec a 0); nra).
    assert (0 <= b * b)%Q by (destruct (Qlt_le_dec b 0); nra).
    lra.
  - intro HF. rewrite (Ha HF), (Hb HF). ring.
Qed.

Lemma mean_fin (qs : list Q) :
  qs <> [] ->
  Forall (fun q => 0 <= q /\ (Flat -> q == 0))%Q qs ->
  exists v, JS.sum (map JS.Fin qs) /
            JS.of_nat (List.length (map JS.Fin qs)) = JS.Fin v /\
            (0 <= v)%Q /\ (Flat -> v == 0)%Q.
Proof.
  intros Hq Hall. unfold JS.sum, JS.zero, JS.of_nat.
  rewrite sum_loop_fin, length_map.
  pose proof (length_pos_Q qs Hq) as Hn.
  rewrite div_fin by lra. eexists. split; [reflexivity|]. split.
  - apply Qle_shift_div_l; [exact Hn|].
    assert (0 <= fold_left Qplus qs 0)%Q.
    { apply sum_loop_nonneg; [lra|]. eapply Forall_impl; [|exact Hall].
      intros q Hq0. apply Hq0. }
    lra.
  - intro HF.
    assert (Hz : Forall (fun q => q == 0)%Q qs).
    { eapply Forall_impl; [|exact Hall]. intros q Hq0. apply Hq0. exact HF. }
    rewrite (sum_loop_const qs 0 0 Hz). field. lra.
Qed.

Lemma gradient_score :
  exists v, GradientDetector.score img = JS.Fin v /\
            (0 <= v)%Q /\ (Flat -> v == 0)%Q.
Proof.
  unfold GradientDetector.score. cbn [data width height img].
  pose proof (calculateGradients_fin_list pixels w h c Hlen) as G.
  cbv zeta in G.
  destruct (GradientDetector.calculateGradients pixels w h) as [gx gy].
  cbn [fst snd] in G. destruct G as (Hx & Hy & Lx & Ly).
  unfold GradientDetector.calculateMagnitude.
  destruct (fill_loop_fin_list
              (fun q => 0 <= q /\ (Flat -> q == 0))%Q (List.length gx)
              (fun i => Math_sqrt (JS.get gx i * JS.get gx i +
                                   JS.get gy i * JS.get gy i)))
    as (Hm & Lm).
  { intros i Hi.
    destruct (gradient_squares gx gy i Hx Hy ltac:(lia) Hi)
      as (q & E & Hq0 & HqF).
    rewrite E. unfold Math_sqrt.
    assert (B : Qle_bool 0 q = true) by (apply Qle_bool_iff; exact Hq0).
    rewrite B. eexists. split; [reflexivity|]. split.
    - apply sqrtQ_nonneg.
    - intro HF. apply sqrtQ_zero. exact (HqF HF). }
  destruct (fin_list_map _ _ Hm) as (qs & E & Hqs).
  rewrite E in *. rewrite length_map in Lm.
  apply mean_fin; [|exact Hqs].
  apply (nonempty_of_length qs pixels); [lia | exact Hne].
Qed.

Lemma tenengrad_score :
  exists v, TenengradDetector.score img = JS.Fin v /\
            (0 <= v)%Q /\ (Flat -> v == 0)%Q.
Proof.
  unfold TenengradDetector.score, TenengradDetector.calculateGradients.
  cbn [data width height img].
  pose proof (calculateGradients_fin_list pixels w h c Hlen) as G.
  cbv zeta in G.
  destruct (GradientDetector.calculateGradients pixels w h) as [gx gy].
  cbn [fst snd] in G. destruct G as (Hx & Hy & Lx & Ly).
  destruct (fill_loop_fin_list
              (fun q => 0 <= q /\ (Flat -> q == 0))%Q (List.length gx)
              (fun i => JS.get gx i * JS.get gx i +
                        JS.get gy i * JS.get gy i))
    as (Hm & Lm).
  { intros i Hi. apply gradient_squares; try assumption. lia. }
  destruct (fin_list_map _ _ Hm) as (qs & E & Hqs).
  rewrite E in *. rewrite length_map in Lm.
  cbv zeta. unfold JS.sum, JS.zero, JS.of_nat.
  rewrite !sum_loop_fin, length_map.
  apply (variance_tail qs 0 _ Flat).
  - apply (nonempty_of_length qs pixels); [lia | exact Hne].
  - reflexivity.
  - eapply Forall_impl; [|exact Hqs]. intros q Hq0. apply Hq0.
Qed.

Lemma variance_score :
  exists v, VarianceDetector.calculateVariance pixels = JS.Fin v /\
            (0 <= v)%Q /\ (Flat -> v == 0)%Q.
Proof. apply variance_kernel_fin. exact Hne. Qed.

End KernelScores.

(** C9.  On every decoded pixel buffer (a non-empty buffer of width*height
    bytes) each of the four kernels returns a finite score that is not
    negative: the variance of the Laplacian response, the mean Sobel
    gradient magnitude, the variance of the squared Sobel magnitude
    (Tenengrad) and the variance of the grey levels.  These are the scores
    that the detectors return for an image buffer that decodes to it.  On a
    buffer of constant intensity all four are exactly 0. *)
Theorem C9_kernel_scores_nonnegative (M : MathLib) (img : RawImage) :
  List.length (data img) = (width img * height img)%nat ->
  data img <> [] ->
  exists l g t v,
    LaplacianDetector.calculateVariance
      (LaplacianDetector.applyLaplacian (data img) (width img) (height img))
      = JS.Fin l /\
    GradientDetector.score img = JS.Fin g /\
    TenengradDetector.score img = JS.Fin t /\
    VarianceDetector.calculateVariance (data img) = JS.Fin v /\
    (0 <= l)%Q /\ (0 <= g)%Q /\ (0 <= t)%Q /\ (0 <= v)%Q /\
    (forall (P : Platform) (imageBuffer : ImageBuffer),
        sharp_raw imageBuffer = Ok img ->
        LaplacianDetector.calculateBlurScore imageBuffer = Ok (JS.Fin l) /\
        GradientDetector.calculateBlurScore imageBuffer = Ok (JS.Fin g) /\
        TenengradDetector.calculateBlurScore imageBuffer = Ok (JS.Fin t) /\
        VarianceDetector.calculateBlurScore imageBuffer = Ok (JS.Fin v)) /\
    (forall c : Z,
        data img = repeat c (width img * height img) ->
        (l == 0)%Q /\ (g == 0)%Q /\ (t == 0)%Q /\ (v == 0)%Q).
Proof.
  destruct img as [pixels w h]. cbn [data width height]. intros Hlen Hne.
  destruct (laplacian_score pixels w h 0%Z Hlen Hne) as (l & El & Hl & _).
  destruct (gradient_score pixels w h 0%Z Hlen Hne) as (g & Eg & Hg & _).
  destruct (tenengrad_score pixels w h 0%Z Hlen Hne) as (t & Et & Ht & _).
  destruct (variance_score pixels w h 0%Z Hne) as (v & Ev & Hv & _).
  exists l, g, t, v.
  repeat (split; [assumption|]).
  split.
  - intros P imageBuffer Hraw.
    unfold LaplacianDetector.calculateBlurScore,
      GradientDetector.calculateBlurScore,
      TenengradDetector.calculateBlurScore,
      VarianceDetector.calculateBlurScore.
    rewrite Hraw. cbn [bind try_catch data width height].
    rewrite El, Eg, Et, Ev. repeat split.
  - intros c Hc.
    destruct (laplacian_score pixels w h c Hlen Hne) as (l' & El' & _ & Zl).
    destruct (gradient_score pixels w h c Hlen Hne) as (g' & Eg' & _ & Zg).
    destruct (tenengrad_score pixels w h c Hlen Hne) as (t' & Et' & _ & Zt).
    destruct (variance_score pixels w h c Hne) as (v' & Ev' & _ & Zv).
    rewrite El in El'. rewrite Eg in Eg'. rewrite Et in Et'.
    rewrite Ev in Ev'.
    injection El' as <-. injection Eg' as <-. injection Et' as <-.
    injection Ev' as <-.
    repeat split; auto.
Qed.

Lemma C9_kernel_scores_nonnegative_witness :
  List.length (data sampleImage) =
    (width sampleImage * height sampleImage)%nat /\
  data sampleImage <> [] /\
  exists l g t v,
    LaplacianDetector.calculateVariance
      (LaplacianDetector.applyLaplacian
         (data sampleImage) (width sampleImage) (height sampleImage))
      = JS.Fin l /\
    @GradientDetector.score CoarseMath sampleImage = JS.Fin g /\
    TenengradDetector.score sampleImage = JS.Fin t /\
    VarianceDetector.calculateVariance (data sampleImage) = JS.Fin v /\
    (0 <= l)%Q /\ (0 <= g)%Q /\ (0 <= t)%Q /\ (0 <= v)%Q /\
    (l == 0)%Q /\ (g == 0)%Q /\ (t == 0)%Q /\ (v == 0)%Q.
Proof.
  assert (H1 : List.length (data sampleImage) =
               (width sampleImage * height sampleImage)%nat)
    by reflexivity.
  assert (H2 : data sampleImage <> []) by discriminate.
  split; [exact H1|]. split; [exact H2|].
  destruct (C9_kernel_scores_nonnegative CoarseMath sampleImage H1 H2)
    as (l & g & t & v & El & Eg & Et & Ev & Hl & Hg & Ht & Hv & _ & Hflat).
  exists l, g, t, v.
  repeat (split; [assumption|]).
  exact (Hflat 128%Z eq_refl).
Defined.

(* ================================================================== *)
(** ** C10: aggregation strategies and the range of the patch scores *)
(* ================================================================== *)

(** On a 1x1 grid the centre of the grid is at coordinate 0, and the
    normalised distance of the only patch is 0/0: its Gaussian weight is
    NaN for every sigma. *)
Lemma gaussianWeight_single_patch {M : MathLib} (sigma : JS.num) :
  PatchBasedDetector.gaussianWeight 1 1 sigma 0 = JS.NaN.
Proof. reflexivity. Qed.

Lemma mul_NaN_r (a : JS.num) : a * JS.NaN = JS.NaN.
Proof. destruct a; reflexivity. Qed.

Lemma weightedMean_single_NaN (c : JS.num) :
  PatchBasedDetector.weightedMean [(c, JS.NaN)] = JS.NaN.
Proof.
  unfold PatchBasedDetector.weightedMean. cbn [fold_left].
  rewrite mul_NaN_r. reflexivity.
Qed.

Lemma subjectFocusVariant_single_patch {M : MathLib} (s : PatchScore)
  (topPercent sigma : Q) :
  PatchBasedDetector.calculateSubjectFocusVariant
    [s] 1 1 (JS.Fin topPercent) (JS.Fin sigma) = JS.NaN.
Proof.
  unfold PatchBasedDetector.calculateSubjectFocusVariant,
    PatchBasedDetector.topPatches.
  rewrite slice0_topN.
  unfold PatchBasedDetector.scorePatches.
  cbn [List.length seq combine map JS.sort fold_right JS.insert].
  pose proof (retained_count_ge_3 1 topPercent) as H.
  destruct (retained_count 1 topPercent) as [|n]; [lia|].
  cbn [firstn map sp_composite positionWeight]. rewrite firstn_nil.
  rewrite gaussianWeight_single_patch. apply weightedMean_single_NaN.
Qed.

(** C10, at the input where the code leaves the range.  With a patch grid
    of size 1 (one patch, whatever its scores) the centre-weighted score
    and the six subject-focus scores are NaN, which is not between the
    minimum and the maximum of the patch composites; for a patch of finite
    composite c the minimum, the maximum, the mean, the median and the
    percentiles are c, and the centre-weighted score is still NaN.  On the sample
    platform the whole run reports the blur score NaN and the verdict "not
    blurry" for a uniform image. *)
Theorem C10_single_patch_grid_gives_NaN (M : MathLib)
  (self : PatchBasedDetector.t) (s : PatchScore) :
  let agg :=
    PatchBasedDetector.aggregate self [s] 1 1 [[patch_composite s]] in
  (centerWeighted agg = JS.NaN /\
   subjectFocusAggressive agg = JS.NaN /\
   subjectFocus agg = JS.NaN /\
   subjectFocusConservative agg = JS.NaN /\
   subjectFocusRelaxed agg = JS.NaN /\
   subjectFocusStrict agg = JS.NaN /\
   subjectFocusVeryStrict agg = JS.NaN) /\
  (minFocus agg <= centerWeighted agg) = false /\
  (centerWeighted agg <= maxFocus agg) = false /\
  (forall c t : Q,
      let agg1 :=
        PatchBasedDetector.aggregate self [patchOf c t] 1 1 [[JS.Fin c]] in
      minFocus agg1 = JS.Fin c /\ maxFocus agg1 = JS.Fin c /\
      avgFocus agg1 == JS.Fin c /\ medianFocus agg1 == JS.Fin c /\
      top25Percentile agg1 == JS.Fin c /\
      top10Percentile agg1 == JS.Fin c /\
      centerWeighted agg1 = JS.NaN) /\
  (exists d r,
      BlurDetector.new singlePatchOptions = Ok d /\
      @BlurDetector.analyze CoarseMath SamplePlatform d "flat.nef" = Ok r /\
      error r = None /\ blurScore r = Some JS.NaN /\
      isBlurry r = Some false).
Proof.
  intro agg.
  assert (CW : centerWeighted agg = JS.NaN).
  { unfold agg, PatchBasedDetector.aggregate. cbn [centerWeighted].
    unfold PatchBasedDetector.calculateCenterWeighted.
    cbn [List.length seq combine map].
    rewrite gaussianWeight_single_patch. apply weightedMean_single_NaN. }
  split.
  { split; [exact CW|].
    repeat split; apply subjectFocusVariant_single_patch. }
  rewrite CW.
  split; [destruct (minFocus agg); reflexivity|].
  split; [reflexivity|].
  split.
  { intros c t agg1. unfold agg1, PatchBasedDetector.aggregate.
    cbn [minFocus maxFocus avgFocus medianFocus top25Percentile
         top10Percentile centerWeighted map List.length patchOf
         patch_composite].
    change [JS.Fin c] with (map JS.Fin [c]).
    rewrite !patch_percentile_fin by lra.
    assert (I : forall p, (percentile_spec [c] p == c)%Q).
    { intro p. unfold percentile_spec. cbn [sort_ascending fold_right
        insert_ascending].
      rewrite (interpolate_at_integer [c] p 0); [reflexivity|].
      unfold rank. simpl. field. }
    repeat split; try reflexivity; try apply I.
    simpl. field. }
  do 2 eexists.
  split; [reflexivity|].
  split; [vm_compute; reflexivity|].
  repeat split.
Qed.

(** *** Grids of size two and more *)

Lemma sum_loop_bounds (lo hi : Q) (cs : list Q) (s : Q) :
  Forall (fun c => lo <= c <= hi)%Q cs ->
  (s + inject_Z (Z.of_nat (List.length cs)) * lo <= fold_left Qplus cs s /\
   fold_left Qplus cs s <= s + inject_Z (Z.of_nat (List.length cs)) * hi)%Q.
Proof.
  intro H. revert s. induction H as [|c cs Hc Hcs IH]; intro s.
  - cbn [fold_left List.length Z.of_nat]. change (inject_Z 0) with 0%Q. lra.
  - cbn [fold_left]. cbv beta in Hc. specialize (IH (s + c)%Q).
    change (List.length (c :: cs)) with (S (List.length cs)).
    rewrite Nat2Z.inj_succ. unfold Z.succ. rewrite inject_Z_plus.
    change (inject_Z 1) with 1%Q. lra.
Qed.

Lemma average_within (lo hi : Q) (cs : list Q) :
  cs <> [] -> Forall (fun c => lo <= c <= hi)%Q cs ->
  within lo hi (JS.sum (map JS.Fin cs) /
                JS.of_nat (List.length (map JS.Fin cs))).
Proof.
  intros Hne H. unfold JS.sum, JS.zero, JS.of_nat.
  rewrite sum_loop_fin, length_map.
  pose proof (length_pos_Q cs Hne) as Hn.
  rewrite div_fin by lra. eexists. split; [reflexivity|].
  destruct (sum_loop_bounds lo hi cs 0 H) as (B1 & B2).
  split.
  - apply Qle_shift_div_l; [exact Hn | lra].
  - apply Qle_shift_div_r; [exact Hn | lra].
Qed.

Lemma percentile_spec_within (lo hi : Q) (cs : list Q) (p : Q) :
  cs <> [] -> (0 <= p <= 100)%Q ->
  Forall (fun c => lo <= c <= hi)%Q cs ->
  (lo <= percentile_spec cs p <= hi)%Q.
Proof.
  intros Hne Hp H. unfold percentile_spec.
  destruct cs as [|c0 cs']; [congruence|].
  set (cs := c0 :: cs') in *.
  pose proof (sort_ascending_Permutation cs) as Perm.
  assert (Hs : Forall (fun c => lo <= c <= hi)%Q (sort_ascending cs)).
  { eapply Permutation_Forall; [symmetry; exact Perm | exact H]. }
  assert (Hl : List.length (sort_ascending cs) = List.length cs)
    by (apply Permutation_length; exact Perm).
  assert (Hn : (0 < List.length cs)%nat) by (simpl; lia).
  unfold interpolate. cbv zeta. rewrite Hl.
  fold (rank (List.length cs) p).
  destruct (rank_bounds (List.length cs) p Hn Hp) as (B0 & B1 & B2).
  set (r := rank (List.length cs) p) in *.
  rewrite Forall_forall in Hs.
  assert (Ha : (lo <= nth (Z.to_nat (Qfloor r)) (sort_ascending cs) 0
                <= hi)%Q).
  { apply Hs. apply nth_In. lia. }
  assert (Hb : (lo <= nth (Z.to_nat (Qceiling r)) (sort_ascending cs) 0
                <= hi)%Q).
  { apply Hs. apply nth_In. lia. }
  pose proof (Qfloor_le r) as F1. pose proof (Qlt_floor r) as F2.
  rewrite inject_Z_plus in F2. change (inject_Z 1) with 1%Q in F2.
  set (a := nth (Z.to_nat (Qfloor r)) (sort_ascending cs) 0%Q) in *.
  set (b := nth (Z.to_nat (Qceiling r)) (sort_ascending cs) 0%Q) in *.
  set (w := (r - inject_Z (Qfloor r))%Q).
  assert (Hw : (0 <= w <= 1)%Q) by (unfold w; lra).
  split; nra.
Qed.

(** The Gaussian weight of a patch is finite and positive when the grid
    has at least two patches along each axis and sigma is not zero. *)
Lemma gaussianWeight_positive {M : MathLib} (px py : nat) (sigma : Q)
  (i : nat) :
  (2 <= px)%nat -> (2 <= py)%nat -> ~ (sigma == 0)%Q ->
  exists wgt,
    PatchBasedDetector.gaussianWeight px py (JS.Fin sigma) i = JS.Fin wgt /\
    (0 < wgt)%Q.
Proof.
  intros Hx Hy Hs. unfold PatchBasedDetector.gaussianWeight, JS.of_nat.
  cbv zeta.
  set (nx := inject_Z (Z.of_nat px)). set (ny := inject_Z (Z.of_nat py)).
  set (ni := inject_Z (Z.of_nat i)).
  assert (Px : (2 <= nx)%Q).
  { unfold nx. change 2%Q with (inject_Z 2). rewrite <- Zle_Qle. lia. }
  assert (Py : (2 <= ny)%Q).
  { unfold ny. change 2%Q with (inject_Z 2). rewrite <- Zle_Qle. lia. }
  assert (Cx : (JS.Fin nx - JS.Fin 1) / JS.Fin 2 = JS.Fin ((nx - 1) / 2))
    by reflexivity.
  assert (Cy : (JS.Fin ny - JS.Fin 1) / JS.Fin 2 = JS.Fin ((ny - 1) / 2))
    by reflexivity.
  rewrite Cx, Cy.
  assert (Half : forall q : Q, (q / 2 == q * (1 # 2))%Q)
    by (intro q; field).
  assert (Hcx : ~ ((nx - 1) / 2 == 0)%Q) by (rewrite Half; lra).
  assert (Hcy : ~ ((ny - 1) / 2 == 0)%Q) by (rewrite Half; lra).
  assert (Ex : exists xq, JS.rem (JS.Fin ni) (JS.Fin nx) = JS.Fin xq).
  { unfold JS.rem.
    assert (E : Qeq_bool nx 0 = false).
    { apply not_true_is_false. intro E. apply Qeq_bool_iff in E. lra. }
    rewrite E. eauto. }
  destruct Ex as (xq & Ex). rewrite Ex.
  assert (Ey : exists yq,
             JS.Math_floor (JS.Fin ni / JS.Fin nx) = JS.Fin yq).
  { rewrite div_fin by lra. cbn [JS.Math_floor]. eauto. }
  destruct Ey as (yq & Ey). rewrite Ey.
  rewrite !sub_fin.
  rewrite (div_fin _ _ Hcx), (div_fin _ _ Hcy).
  cbn [JS.mul JS.add].
  set (dx := ((xq - (nx - 1) / 2) / ((nx - 1) / 2))%Q).
  set (dy := ((yq - (ny - 1) / 2) / ((ny - 1) / 2))%Q).
  assert (D : (0 <= dx * dx + dy * dy)%Q).
  { assert (0 <= dx * dx)%Q by (destruct (Qlt_le_dec dx 0); nra).
    assert (0 <= dy * dy)%Q by (destruct (Qlt_le_dec dy 0); nra).
    lra. }
  unfold Math_sqrt.
  assert (B : Qle_bool 0 (dx * dx + dy * dy) = true)
    by (apply Qle_bool_iff; exact D).
  rewrite B. cbn [JS.neg JS.mul].
  rewrite div_fin.
  - cbn [Math_exp]. eexists. split; [reflexivity | apply expQ_pos].
  - intro E. apply Hs.
    destruct (Qlt_le_dec sigma 0); [|destruct (Qlt_le_dec 0 sigma)]; nra.
Qed.

Lemma weighted_sums_bounds (lo hi : Q) (pairs : list (JS.num * JS.num)) :
  Forall (weighted_pair lo hi) pairs ->
  forall s t : Q,
  exists S T,
    fold_left JS.add (map (fun cw => fst cw * snd cw) pairs) (JS.Fin s)
      = JS.Fin S /\
    fold_left JS.add (map snd pairs) (JS.Fin t) = JS.Fin T /\
    (t <= T)%Q /\ (pairs <> [] -> t < T)%Q /\
    (S - s >= lo * (T - t))%Q /\ (S - s <= hi * (T - t))%Q.
Proof.
  induction 1 as [|cw pairs (c & w & -> & Hc & Hw) Hp IH]; intros s t.
  - exists s, t. repeat split; try reflexivity; try lra. congruence.
  - cbn [map fold_left fst snd JS.mul JS.add].
    destruct (IH (s + c * w)%Q (t + w)%Q) as (S & T & ES & ET & B1 & _ & B2 & B3).
    exists S, T. rewrite ES, ET.
    repeat split; try reflexivity; try lra; try nra.
Qed.

Lemma weightedMean_within (lo hi : Q) (pairs : list (JS.num * JS.num)) :
  pairs <> [] -> Forall (weighted_pair lo hi) pairs ->
  within lo hi (PatchBasedDetector.weightedMean pairs).
Proof.
  intros Hne H. rewrite weightedMean_spec.
  unfold weighted_mean_spec, JS.sum, JS.zero.
  destruct (weighted_sums_bounds lo hi pairs H 0 0)
    as (S & T & ES & ET & _ & B1 & B2 & B3).
  specialize (B1 Hne). rewrite ES, ET. rewrite div_fin by lra.
  eexists. split; [reflexivity|]. split.
  - apply Qle_shift_div_l; [exact B1 | lra].
  - apply Qle_shift_div_r; [exact B1 | lra].
Qed.

Lemma In_firstn {A : Type} (x : A) (n : nat) (l : list A) :
  In x (firstn n l) -> In x l.
Proof.
  intro H. rewrite <- (firstn_skipn n l). apply in_or_app. left. exact H.
Qed.

Lemma centerWeighted_within {M : MathLib} (lo hi : Q)
  (ps : list PatchScore) (px py : nat) :
  (2 <= px)%nat -> (2 <= py)%nat -> ps <> [] ->
  Forall (composite_in lo hi) ps ->
  within lo hi (PatchBasedDetector.calculateCenterWeighted ps px py).
Proof.
  intros Hx Hy Hne Hps. unfold PatchBasedDetector.calculateCenterWeighted.
  apply weightedMean_within.
  - destruct ps; [congruence | discriminate].
  - apply Forall_forall. intros cw Hcw. apply in_map_iff in Hcw.
    destruct Hcw as ([i s] & <- & Hin). apply in_combine_r in Hin.
    rewrite Forall_forall in Hps. destruct (Hps s Hin) as (c & Ec & Hc).
    destruct (gaussianWeight_positive px py 0.5 i Hx Hy) as (w & Ew & Hw);
      [discriminate|].
    exists c, w. rewrite Ec, Ew. repeat split; assumption || apply Hc.
Qed.

Lemma scorePatches_In {M : MathLib} (ps : list PatchScore) (px py : nat)
  (sigma : JS.num) (p : ScoredPatch) :
  In p (PatchBasedDetector.scorePatches ps px py sigma) ->
  exists i s, In s ps /\ sp_composite p = patch_composite s /\
              positionWeight p =
              PatchBasedDetector.gaussianWeight px py sigma i.
Proof.
  unfold PatchBasedDetector.scorePatches. intro H.
  apply in_map_iff in H. destruct H as ([i s] & <- & Hin).
  apply in_combine_r in Hin. exists i, s. repeat split. exact Hin.
Qed.

Lemma subjectFocusVariant_within {M : MathLib} (lo hi : Q)
  (ps : list PatchScore) (px py : nat) (topPercent sigma : Q) :
  (2 <= px)%nat -> (2 <= py)%nat -> ~ (sigma == 0)%Q -> ps <> [] ->
  Forall (composite_in lo hi) ps ->
  within lo hi
    (PatchBasedDetector.calculateSubjectFocusVariant
       ps px py (JS.Fin topPercent) (JS.Fin sigma)).
Proof.
  intros Hx Hy Hs Hne Hps.
  unfold PatchBasedDetector.calculateSubjectFocusVariant,
    PatchBasedDetector.topPatches.
  rewrite slice0_topN.
  set (sorted := JS.sort _ _).
  set (count := retained_count (List.length ps) topPercent).
  apply weightedMean_within.
  - assert (L : List.length (firstn count sorted) <> 0%nat).
    { rewrite length_firstn. unfold sorted.
      rewrite sort_length, scorePatches_length.
      pose proof (retained_count_ge_3 (List.length ps) topPercent).
      fold count in H. destruct ps; [congruence | simpl; lia]. }
    destruct (firstn count sorted); [simpl in L; congruence | discriminate].
  - apply Forall_forall. intros cw Hcw. apply in_map_iff in Hcw.
    destruct Hcw as (p & <- & Hin). apply In_firstn in Hin.
    unfold sorted in Hin.
    apply (Permutation_in _ (sort_Permutation _ _)) in Hin.
    apply scorePatches_In in Hin. destruct Hin as (i & s & Hs' & Ec & Ew).
    rewrite Forall_forall in Hps. destruct (Hps s Hs') as (c & Ec' & Hc).
    destruct (gaussianWeight_positive px py sigma i Hx Hy Hs)
      as (w & Ew' & Hw).
    exists c, w. rewrite Ec, Ec', Ew, Ew'. repeat split; assumption || apply Hc.
Qed.

Lemma max_loop_fin (cs : list Q) (a : Q) :
  exists mx, fold_left JS.Math_max (map JS.Fin cs) (JS.Fin a) = JS.Fin mx /\
             (a <= mx)%Q /\ Forall (fun c => c <= mx)%Q cs.
Proof.
  revert a. induction cs as [|c cs IH]; intro a.
  - exists a. repeat split; [lra | constructor].
  - cbn [map fold_left]. rewrite Math_max_fin.
    destruct (Qlt_le_dec a c) as [H|H].
    + destruct (IH c) as (mx & E & B & F). exists mx.
      repeat split; [exact E | lra | constructor; [exact B | exact F]].
    + destruct (IH a) as (mx & E & B & F). exists mx.
      repeat split; [exact E | lra | constructor; [lra | exact F]].
Qed.

Lemma min_loop_fin (cs : list Q) (a : Q) :
  exists mn, fold_left JS.Math_min (map JS.Fin cs) (JS.Fin a) = JS.Fin mn /\
             (mn <= a)%Q /\ Forall (fun c => mn <= c)%Q cs.
Proof.
  revert a. induction cs as [|c cs IH]; intro a.
  - exists a. repeat split; [lra | constructor].
  - cbn [map fold_left]. rewrite Math_min_fin.
    destruct (Qlt_le_dec c a) as [H|H].
    + destruct (IH c) as (mn & E & B & F). exists mn.
      repeat split; [exact E | lra | constructor; [exact B | exact F]].
    + destruct (IH a) as (mn & E & B & F). exists mn.
      repeat split; [exact E | lra | constructor; [lra | exact F]].
Qed.

Lemma min_max_list_fin (cs : list Q) :
  cs <> [] ->
  exists mn mx,
    JS.Math_min_list (map JS.Fin cs) = JS.Fin mn /\
    JS.Math_max_list (map JS.Fin cs) = JS.Fin mx /\
    Forall (fun c => mn <= c <= mx)%Q cs.
Proof.
  intro Hne. destruct cs as [|c cs]; [congruence|].
  unfold JS.Math_min_list, JS.Math_max_list. cbn [map fold_left].
  change (JS.Math_min JS.PInf (JS.Fin c)) with (JS.Fin c).
  change (JS.Math_max JS.NInf (JS.Fin c)) with (JS.Fin c).
  destruct (min_loop_fin cs c) as (mn & Emn & Bmn & Fmn).
  destruct (max_loop_fin cs c) as (mx & Emx & Bmx & Fmx).
  exists mn, mx. repeat split; [exact Emn | exact Emx |].
  constructor; [lra|].
  rewrite Forall_forall in *. intros x Hx.
  specialize (Fmn x Hx). specialize (Fmx x Hx). cbv beta in *. lra.
Qed.

(** The claim of C10 away from the 1x1 grid.  On a grid with at least two
    patches along each axis and finite composites, the minimum and the
    maximum are finite and every strategy other than peak focus returns a
    finite score between them. *)
Theorem aggregate_within_min_max (M : MathLib) (self : PatchBasedDetector.t)
  (ps : list PatchScore) (px py : nat) (blurMap : list (list JS.num)) :
  (2 <= px)%nat -> (2 <= py)%nat -> ps <> [] ->
  Forall (finite_key patch_composite) ps ->
  let agg := PatchBasedDetector.aggregate self ps px py blurMap in
  exists lo hi,
    minFocus agg = JS.Fin lo /\ maxFocus agg = JS.Fin hi /\
    Forall (within lo hi)
      [avgFocus agg; medianFocus agg; top25Percentile agg;
       top10Percentile agg; centerWeighted agg;
       subjectFocusAggressive agg; subjectFocus agg;
       subjectFocusConservative agg; subjectFocusRelaxed agg;
       subjectFocusStrict agg; subjectFocusVeryStrict agg].
Proof.
  intros Hx Hy Hne Hfin agg.
  (* the composites as rationals *)
  assert (Hcs : exists cs, map patch_composite ps = map JS.Fin cs /\
                           List.length cs = List.length ps).
  { clear - Hfin. induction Hfin as [|s ps Hs Hps (cs & E & L)].
    - exists []. split; reflexivity.
    - apply is_finite_Fin in Hs. destruct Hs as (c & Ec).
      exists (c :: cs). cbn [map List.length]. rewrite Ec, E, L.
      split; reflexivity. }
  destruct Hcs as (cs & Ecs & Lcs).
  assert (Hcne : cs <> [])
    by (apply (nonempty_of_length cs ps Lcs Hne)).
  destruct (min_max_list_fin cs Hcne) as (lo & hi & Emn & Emx & Hb).
  exists lo, hi.
  assert (Hin : Forall (composite_in lo hi) ps).
  { clear - Ecs Hb. revert cs Ecs Hb.
    induction ps as [|s ps IH]; intros cs Ecs Hb; [constructor|].
    destruct cs as [|c cs]; [discriminate|].
    cbn [map] in Ecs. injection Ecs as Ec Ecs.
    inversion Hb as [|? ? Hc Hb']; subst.
    constructor; [exists c; split; assumption | eapply IH; eassumption]. }
  unfold agg, PatchBasedDetector.aggregate.
  cbn [minFocus maxFocus avgFocus medianFocus top25Percentile
       top10Percentile centerWeighted subjectFocusAggressive subjectFocus
       subjectFocusConservative subjectFocusRelaxed subjectFocusStrict
       subjectFocusVeryStrict].
  rewrite Ecs.
  split; [exact Emn|]. split; [exact Emx|].
  repeat constructor.
  - apply average_within; assumption.
  - rewrite patch_percentile_fin by lra. eexists. split; [reflexivity|].
    apply percentile_spec_within; [assumption | lra | assumption].
  - rewrite patch_percentile_fin by lra. eexists. split; [reflexivity|].
    apply percentile_spec_within; [assumption | lra | assumption].
  - rewrite patch_percentile_fin by lra. eexists. split; [reflexivity|].
    apply percentile_spec_within; [assumption | lra | assumption].
  - apply centerWeighted_within; assumption.
  - apply subjectFocusVariant_within; try assumption; discriminate.
  - apply subjectFocusVariant_within; try assumption; discriminate.
  - apply subjectFocusVariant_within; try assumption; discriminate.
  - apply subjectFocusVariant_within; try assumption; discriminate.
  - apply subjectFocusVariant_within; try assumption; discriminate.
  - apply subjectFocusVariant_within; try assumption; discriminate.
Qed.

(* ================================================================== *)
(** * Further properties of the engine and of the files around it *)
(* ================================================================== *)

(* ================================================================== *)
(** ** Patch aggregation: histogram and order statistics *)
(* ================================================================== *)

Lemma lt_fin_dec (q c : Q) :
  (JS.Fin q < JS.Fin c) = if Qlt_le_dec q c then true else false.
Proof.
  destruct (Qlt_le_dec q c) as [H|H].
  - apply lt_fin. exact H.
  - apply lt_fin_false. exact H.
Qed.

Lemma ge_fin_dec (q c : Q) :
  (JS.Fin q >= JS.Fin c) = if Qlt_le_dec q c then false else true.
Proof.
  unfold JS.ge. destruct (Qlt_le_dec q c) as [H|H].
  - destruct (JS.Fin c <= JS.Fin q) eqn:E; [|reflexivity].
    apply le_fin in E. lra.
  - apply le_fin. exact H.
Qed.

Lemma gt_fin_dec (q c : Q) :
  (JS.Fin q > JS.Fin c) = if Qlt_le_dec c q then true else false.
Proof. unfold JS.gt. apply lt_fin_dec. Qed.

(** The five histogram tests on one score: exactly one holds, unless the
    score is NaN, for which none does. *)
Lemma histogram_bucket (s : JS.num) :
  (Nat.b2n (s < JS.Fin 10)%js +
   Nat.b2n ((s >= JS.Fin 10)%js && (s < JS.Fin 25)%js) +
   Nat.b2n ((s >= JS.Fin 25)%js && (s < JS.Fin 40)%js) +
   Nat.b2n ((s >= JS.Fin 40)%js && (s < JS.Fin 60)%js) +
   Nat.b2n (s >= JS.Fin 60)%js + Nat.b2n (JS.is_nan s) = 1)%nat.
Proof.
  destruct s as [q| | |]; try reflexivity.
  rewrite !lt_fin_dec, !ge_fin_dec.
  destruct (Qlt_le_dec q 10), (Qlt_le_dec q 25), (Qlt_le_dec q 40),
    (Qlt_le_dec q 60); try reflexivity; exfalso; lra.
Qed.

Lemma sharp_bucket (s : JS.num) :
  (Nat.b2n ((s >= JS.Fin 40)%js && (s < JS.Fin 60)%js) + Nat.b2n (s >= JS.Fin 60)%js
   <= Nat.b2n (s > JS.Fin 30)%js /\
   Nat.b2n (s > JS.Fin 30)%js <=
   Nat.b2n ((s >= JS.Fin 25)%js && (s < JS.Fin 40)%js) +
   Nat.b2n ((s >= JS.Fin 40)%js && (s < JS.Fin 60)%js) + Nat.b2n (s >= JS.Fin 60)%js)%nat.
Proof.
  destruct s as [q| | |]; try (cbn; lia).
  rewrite !lt_fin_dec, !ge_fin_dec, gt_fin_dec.
  destruct (Qlt_le_dec q 25), (Qlt_le_dec q 40), (Qlt_le_dec q 60),
    (Qlt_le_dec 30 q); cbn; try lia; exfalso; lra.
Qed.

Lemma length_filter_cons {A : Type} (f : A -> bool) (a : A) (l : list A) :
  List.length (filter f (a :: l)) = (Nat.b2n (f a) + List.length (filter f l))%nat.
Proof. cbn [filter]. destruct (f a); reflexivity. Qed.

(** X1.  In the result of the patch aggregation the five histogram counts
    and the number of patches whose composite is NaN add up to [patchCount]:
    a patch with a numeric composite is counted in exactly one bucket, a NaN
    composite in none.  [sharpPatchCount] (composite above 30) is at least
    [sharp + very-sharp], at most [borderline + sharp + very-sharp], and at
    most [patchCount]. *)
Theorem histogram_partitions_patches (M : MathLib)
  (self : PatchBasedDetector.t) (ps : list PatchScore) (px py : nat)
  (bm : list (list JS.num)) :
  let agg := PatchBasedDetector.aggregate self ps px py bm in
  let hist := histogram agg in
  (very_blurry hist + blurry hist + borderline hist + sharp hist +
   very_sharp hist +
   List.length (filter (fun s => JS.is_nan (patch_composite s)) ps)
   = patchCount agg)%nat /\
  (sharp hist + very_sharp hist <= sharpPatchCount agg)%nat /\
  (sharpPatchCount agg <= borderline hist + sharp hist + very_sharp hist)%nat /\
  (sharpPatchCount agg <= patchCount agg)%nat.
Proof.
  cbv zeta. unfold PatchBasedDetector.aggregate.
  cbn [histogram very_blurry blurry borderline sharp very_sharp patchCount
       sharpPatchCount].
  induction ps as [|s ps IH]; [cbn; lia|].
  cbn [map]. rewrite !length_filter_cons. cbn [List.length].
  pose proof (histogram_bucket (patch_composite s)) as B.
  pose proof (sharp_bucket (patch_composite s)) as S.
  lia.
Qed.

Lemma sorted_nth_le (s : list Q) (i j : nat) :
  StronglySorted Qle s -> (i <= j < List.length s)%nat ->
  (nth i s 0 <= nth j s 0)%Q.
Proof.
  intro Hs. revert i j. induction Hs as [|a s Hs IH Ha]; intros i j Hij.
  - simpl in Hij. lia.
  - destruct i as [|i], j as [|j]; cbn [nth List.length] in *.
    + lra.
    + rewrite Forall_forall in Ha. apply Ha. apply nth_In. lia.
    + lia.
    + apply IH. lia.
Qed.

Lemma rank_mono (n : nat) (p1 p2 : Q) :
  (0 < n)%nat -> (p1 <= p2)%Q -> (rank n p1 <= rank n p2)%Q.
Proof.
  intros Hn Hp. unfold rank.
  assert (Hn' : (1 <= inject_Z (Z.of_nat n))%Q).
  { change 1%Q with (inject_Z 1). rewrite <- Zle_Qle. lia. }
  assert (H1 : (p1 / 100 == p1 * (1 # 100))%Q) by field.
  assert (H2 : (p2 / 100 == p2 * (1 # 100))%Q) by field.
  rewrite H1, H2. nra.
Qed.

Lemma ceiling_le_floor_succ (r : Q) : (Qceiling r <= Qfloor r + 1)%Z.
Proof.
  pose proof (Qlt_floor r) as F. pose proof (Qceiling_lt r) as C.
  assert (H : (inject_Z (Qceiling r - 1) < inject_Z (Qfloor r + 1))%Q)
    by (eapply Qlt_trans; eassumption).
  rewrite <- Zlt_Qlt in H. lia.
Qed.

(** On a sorted array the interpolated value lies between the two order
    statistics around the rank, and it grows with the percentage. *)
Lemma interpolate_mono (s : list Q) (p1 p2 : Q) :
  StronglySorted Qle s -> s <> [] ->
  (0 <= p1)%Q -> (p1 <= p2)%Q -> (p2 <= 100)%Q ->
  (interpolate s p1 <= interpolate s p2)%Q.
Proof.
  intros Hs Hne H0 H12 H100.
  assert (Hn : (0 < List.length s)%nat).
  { destruct s; [congruence | simpl; lia]. }
  unfold interpolate. cbv zeta.
  fold (rank (List.length s) p1). fold (rank (List.length s) p2).
  destruct (rank_bounds (List.length s) p1 Hn ltac:(lra)) as (A0 & A1 & A2).
  destruct (rank_bounds (List.length s) p2 Hn ltac:(lra)) as (B0 & B1 & B2).
  pose proof (rank_mono (List.length s) p1 p2 Hn H12) as Hr.
  set (r1 := rank (List.length s) p1) in *.
  set (r2 := rank (List.length s) p2) in *.
  pose proof (Qfloor_resp_le _ _ Hr) as Hk.
  pose proof (Qceiling_resp_le _ _ Hr) as Hc.
  pose proof (ceiling_le_floor_succ r1) as C1.
  pose proof (ceiling_le_floor_succ r2) as C2.
  pose proof (Qfloor_le r1) as F1. pose proof (Qlt_floor r1) as G1.
  pose proof (Qfloor_le r2) as F2. pose proof (Qlt_floor r2) as G2.
  rewrite inject_Z_plus in G1, G2. change (inject_Z 1) with 1%Q in G1, G2.
  assert (S1 : (nth (Z.to_nat (Qfloor r1)) s 0
                <= nth (Z.to_nat (Qceiling r1)) s 0)%Q)
    by (apply sorted_nth_le; [exact Hs | lia]).
  assert (S2 : (nth (Z.to_nat (Qfloor r2)) s 0
                <= nth (Z.to_nat (Qceiling r2)) s 0)%Q)
    by (apply sorted_nth_le; [exact Hs | lia]).
  destruct (Z_lt_le_dec (Qfloor r1) (Qfloor r2)) as [Hlt|Hge].
  - (* the ranks fall between different order statistics *)
    assert (S3 : (nth (Z.to_nat (Qceiling r1)) s 0
                  <= nth (Z.to_nat (Qfloor r2)) s 0)%Q)
      by (apply sorted_nth_le; [exact Hs | lia]).
    set (a1 := nth (Z.to_nat (Qfloor r1)) s 0%Q) in *.
    set (b1 := nth (Z.to_nat (Qceiling r1)) s 0%Q) in *.
    set (a2 := nth (Z.to_nat (Qfloor r2)) s 0%Q) in *.
    set (b2 := nth (Z.to_nat (Qceiling r2)) s 0%Q) in *.
    set (w1 := (r1 - inject_Z (Qfloor r1))%Q).
    set (w2 := (r2 - inject_Z (Qfloor r2))%Q).
    assert (Hw1 : (0 <= w1 <= 1)%Q) by (unfold w1; lra).
    assert (Hw2 : (0 <= w2 <= 1)%Q) by (unfold w2; lra).
    assert (E1 : (a1 * (1 - w1) + b1 * w1 <= b1)%Q) by nra.
    assert (E2 : (a2 <= a2 * (1 - w2) + b2 * w2)%Q) by nra.
    lra.
  - assert (Ek : Qfloor r1 = Qfloor r2) by lia.
    destruct (Z.eq_dec (Qceiling r1) (Qceiling r2)) as [Ec|Nc].
    + rewrite <- Ek, <- Ec.
      set (a := nth (Z.to_nat (Qfloor r1)) s 0%Q) in *.
      set (b := nth (Z.to_nat (Qceiling r1)) s 0%Q) in *.
      rewrite <- Ek in F2, G2.
      set (k := inject_Z (Qfloor r1)) in *.
      nra.
    + (* the first rank is an integer *)
      assert (Ec : Qceiling r1 = Qfloor r1) by lia.
      pose proof (Qle_ceiling r1) as L1. rewrite Ec in L1.
      assert (Er : (r1 - inject_Z (Qfloor r1) == 0)%Q) by lra.
      rewrite Ec, <- Ek.
      rewrite <- Ek in F2, G2, S2.
      set (a := nth (Z.to_nat (Qfloor r1)) s 0%Q) in *.
      set (b := nth (Z.to_nat (Qceiling r2)) s 0%Q) in *.
      set (k := inject_Z (Qfloor r1)) in *.
      set (w2 := (r2 - k)%Q).
      assert (Hw2 : (0 <= w2 <= 1)%Q) by (unfold w2; lra).
      rewrite Er.
      assert (E2 : (a <= a * (1 - w2) + b * w2)%Q) by nra.
      lra.
Qed.

Lemma finite_keys_map {A : Type} (key : A -> JS.num) (l : list A) :
  Forall (finite_key key) l ->
  exists qs, map key l = map JS.Fin qs /\ List.length qs = List.length l.
Proof.
  induction 1 as [|a l Ha Hl (qs & E & L)].
  - exists []. split; reflexivity.
  - apply is_finite_Fin in Ha. destruct Ha as (q & Eq).
    exists (q :: qs). cbn [map List.length]. rewrite Eq, E, L.
    split; reflexivity.
Qed.

Lemma percentile_spec_mono (cs : list Q) (p1 p2 : Q) :
  cs <> [] -> (0 <= p1)%Q -> (p1 <= p2)%Q -> (p2 <= 100)%Q ->
  (percentile_spec cs p1 <= percentile_spec cs p2)%Q.
Proof.
  intros Hne H0 H12 H100. unfold percentile_spec.
  destruct cs as [|c cs]; [congruence|].
  apply interpolate_mono; try assumption.
  - apply sort_ascending_sorted.
  - apply sort_ascending_nonempty. discriminate.
Qed.



(* ================================================================== *)
(** ** Calibration statistics *)
(* ================================================================== *)

Lemma calibration_percentile_fin (s : list Q) (p : Q) :
  s <> [] -> (0 <= p <= 100)%Q ->
  Calibration.percentile (map (fun q => Some (JS.Fin q)) s) (JS.Fin p)
  = JS.Fin (interpolate s p).
Proof.
  intros Hs Hp. unfold Calibration.percentile.
  rewrite <- (map_map JS.Fin Some), to_number_Some.
  apply percentile_sorted_fin; assumption.
Qed.

Lemma last_map_Some (s : list Q) :
  s <> [] ->
  List.last (map (fun q => Some (JS.Fin q)) s) None = Some (JS.Fin (last s 0%Q)).
Proof.
  induction s as [|a s IH]; [congruence|]. intros _.
  destruct s as [|b s]; [reflexivity|].
  change (List.last (map (fun q => Some (JS.Fin q)) (a :: b :: s)) None)
    with (List.last (map (fun q => Some (JS.Fin q)) (b :: s)) None).
  rewrite IH by discriminate. reflexivity.
Qed.

(** The statistics of a non-empty array of finite numbers are in order. *)
Lemma algorithmStats_ordered (qs : list Q) :
  qs <> [] ->
  ordered_stats
    (Calibration.algorithmStats
       (Calibration.sortNumbers (map (fun q => Some (JS.Fin q)) qs))).
Proof.
  intro Hne.
  rewrite <- (map_map JS.Fin Some), sortNumbers_defined.
  rewrite sort_ascending_commutes, (map_map JS.Fin Some).
  pose proof (sort_ascending_sorted qs) as Hs.
  pose proof (sort_ascending_nonempty qs Hne) as Hn.
  set (s := sort_ascending qs) in *.
  unfold Calibration.algorithmStats, ordered_stats.
  cbn [min p5 median p95 max].
  rewrite !calibration_percentile_fin by (try assumption; lra).
  exists (hd 0%Q s), (interpolate s 5), (interpolate s 50),
    (interpolate s 95), (last s 0%Q).
  split. { destruct s; [congruence | reflexivity]. }
  split; [reflexivity|]. split; [reflexivity|]. split; [reflexivity|].
  split. { unfold Calibration.last. apply last_map_Some. exact Hn. }
  split. { rewrite <- (interpolate_0 s). apply interpolate_mono; (assumption || lra). }
  split. { apply interpolate_mono; (assumption || lra). }
  split. { apply interpolate_mono; (assumption || lra). }
  rewrite <- (interpolate_100 s Hn). apply interpolate_mono; (assumption || lra).
Qed.

Lemma finite_reports_map (f : CompositeReport -> JS.num) (rs : list AnalyzeResult) :
  Forall (fun r => exists rep, scores r = Some (CompositeScores rep) /\
                               JS.is_finite (f rep) = true) rs ->
  exists qs, map (Calibration.raw_of f) rs = map (fun q => Some (JS.Fin q)) qs /\
             List.length qs = List.length rs.
Proof.
  induction 1 as [|r rs (rep & Es & Hf) Hrs (qs & E & L)].
  - exists []. split; reflexivity.
  - apply is_finite_Fin in Hf. destruct Hf as (q & Eq).
    exists (q :: qs). cbn [map List.length].
    unfold Calibration.raw_of at 1. rewrite Es, Eq, E, L. split; reflexivity.
Qed.

Lemma finite_patches_map (f : PatchScore -> JS.num) (ps : list PatchScore) :
  Forall (fun s => JS.is_finite (f s) = true) ps ->
  exists qs, map (fun s => Some (f s)) ps = map (fun q => Some (JS.Fin q)) qs /\
             List.length qs = List.length ps.
Proof.
  induction 1 as [|s ps Hf Hps (qs & E & L)].
  - exists []. split; reflexivity.
  - apply is_finite_Fin in Hf. destruct Hf as (q & Eq).
    exists (q :: qs). cbn [map List.length]. rewrite Eq, E, L.
    split; reflexivity.
Qed.


Lemma at_num_NaNs (l : list JS.num) (i : JS.num) :
  Forall (eq JS.NaN) l -> JS.at_num l i = JS.NaN.
Proof.
  intro H. unfold JS.at_num. destruct i; try reflexivity.
  destruct (Qle_bool 0 q && Qeq_bool q (inject_Z (Qfloor q))); [|reflexivity].
  unfold JS.get. destruct (nth_in_or_default (Z.to_nat (Qfloor q)) l JS.NaN)
    as [Hin|E]; [|exact E].
  rewrite Forall_forall in H. symmetry. apply H. exact Hin.
Qed.

Lemma percentile_sorted_NaNs (l : list JS.num) (p : JS.num) :
  l <> [] -> Forall (eq JS.NaN) l -> percentile_sorted l p = JS.NaN.
Proof.
  intros Hne H. unfold percentile_sorted.
  destruct l as [|a l']; [congruence|].
  set (l := a :: l') in *. cbv zeta.
  destruct (JS.ge _ _).
  - unfold JS.get.
    destruct (nth_in_or_default (List.length l - 1) l JS.NaN) as [Hin|E];
      [|exact E].
    rewrite Forall_forall in H. symmetry. apply H. exact Hin.
  - rewrite !at_num_NaNs by exact H. reflexivity.
Qed.

Lemma sortNumbers_undefined (arr : list jsval) :
  Forall (eq None) arr -> Calibration.sortNumbers arr = arr.
Proof.
  intro H. unfold Calibration.sortNumbers.
  assert (D : Calibration.defined arr = []).
  { induction H as [|v arr <- _ IH]; [reflexivity | exact IH]. }
  rewrite D. cbn [JS.sort fold_right map app]. clear D.
  induction H as [|v arr <- _ IH]; [reflexivity|].
  unfold Calibration.undefineds in *. cbn [filter]. f_equal. exact IH.
Qed.

Lemma algorithmStats_undefined (arr : list jsval) :
  arr <> [] -> Forall (eq None) arr ->
  Calibration.algorithmStats (Calibration.sortNumbers arr) = undefinedStats.
Proof.
  intros Hne H. rewrite sortNumbers_undefined by exact H.
  unfold Calibration.algorithmStats, Calibration.percentile, undefinedStats.
  assert (N : Forall (eq JS.NaN) (map to_number arr)).
  { apply Forall_map. eapply Forall_impl; [|exact H]. intros v <-. reflexivity. }
  assert (Nn : map to_number arr <> []) by (destruct arr; [congruence | discriminate]).
  rewrite !percentile_sorted_NaNs by assumption.
  f_equal.
  - destruct arr as [|v arr']; [congruence|].
    inversion H; subst. reflexivity.
  - unfold Calibration.last.
    destruct (exists_last Hne) as (l' & v & ->).
    rewrite last_last. apply Forall_app in H. destruct H as (_ & H).
    inversion H; subst. reflexivity.
Qed.

(** X4.  A corpus scored in the other mode still passes [computeStats].
    In patch mode, valid results without patch scores give [p5], [p95] and
    [median] 0, no [min] and [max], and [totalSamples] 0, while
    [sampleSize] counts the valid results.  In full-image mode, results of
    the patch-based algorithm give NaN for [p5], [p95] and [median] and no
    [min] and [max]. *)
Theorem calibration_mode_mismatch (results : list AnalyzeResult) :
  (forall stats,
      all_patches results = [] ->
      Calibration.computeStats results true = Ok stats ->
      stats_laplacian stats = emptyStats /\
      stats_gradient stats = emptyStats /\
      stats_tenengrad stats = emptyStats /\
      stats_variance stats = emptyStats /\
      totalSamples stats = 0%nat /\
      sampleSize stats = List.length (filter Calibration.valid results)) /\
  (forall stats,
      Forall patch_report (filter Calibration.valid results) ->
      Calibration.computeStats results false = Ok stats ->
      stats_laplacian stats = undefinedStats /\
      stats_gradient stats = undefinedStats /\
      stats_tenengrad stats = undefinedStats /\
      stats_variance stats = undefinedStats /\
      totalSamples stats = sampleSize stats).
Proof.
  split.
  - intros stats Hnone H. unfold Calibration.computeStats in H.
    destruct (filter Calibration.valid results) as [|v valid] eqn:E;
      [discriminate|].
    injection H as H. subst stats.
    cbn [stats_laplacian stats_gradient stats_tenengrad stats_variance
         totalSamples sampleSize
         Calibration.laplacianScores Calibration.gradientScores
         Calibration.tenengradScores Calibration.varianceScores].
    rewrite collectPatchScores_flat.
    unfold all_patches in Hnone. rewrite E in Hnone. rewrite Hnone.
    repeat split.
  - intros stats Hrep H. unfold Calibration.computeStats in H.
    destruct (filter Calibration.valid results) as [|v valid] eqn:E;
      [discriminate|].
    injection H as H. subst stats.
    cbn [stats_laplacian stats_gradient stats_tenengrad stats_variance
         totalSamples sampleSize
         Calibration.laplacianScores Calibration.gradientScores
         Calibration.tenengradScores Calibration.varianceScores].
    assert (U : forall f : CompositeReport -> JS.num,
              Forall (eq None) (map (Calibration.raw_of f) (v :: valid))).
    { intro f. apply Forall_map. eapply Forall_impl; [|exact Hrep].
      intros r (rep & Er). unfold Calibration.raw_of. rewrite Er. reflexivity. }
    change (S (List.length valid)) with (List.length (v :: valid)).
    repeat match goal with
    | |- context [?a :: map ?f valid] =>
        change (a :: map f valid) with (map f (v :: valid))
    end.
    repeat split; try (apply algorithmStats_undefined;
                       [discriminate | apply U]).
    rewrite sortNumbers_undefined by apply U. apply length_map.
Qed.

Lemma calibration_mode_mismatch_witness :
  all_patches sampleReports = [] /\
  Forall patch_report (filter Calibration.valid sampleCorpus) /\
  (exists stats,
     Calibration.computeStats sampleReports true = Ok stats /\
     stats_tenengrad stats = emptyStats /\ totalSamples stats = 0%nat /\
     sampleSize stats = 3%nat) /\
  (exists stats,
     Calibration.computeStats sampleCorpus false = Ok stats /\
     stats_tenengrad stats = undefinedStats /\
     totalSamples stats = sampleSize stats).
Proof.
  assert (N : all_patches sampleReports = []) by reflexivity.
  assert (F : Forall patch_report (filter Calibration.valid sampleCorpus)).
  { vm_compute. repeat constructor. eexists. reflexivity. }
  split; [exact N|]. split; [exact F|]. split.
  - destruct (Calibration.computeStats sampleReports true) as [stats|m] eqn:E;
      [|vm_compute in E; discriminate].
    exists stats. split; [reflexivity|].
    destruct (proj1 (calibration_mode_mismatch sampleReports) stats N E)
      as (_ & _ & Ht & _ & Hn & Hs).
    split; [exact Ht|]. split; [exact Hn|]. exact Hs.
  - destruct (Calibration.computeStats sampleCorpus false) as [stats|m] eqn:E;
      [|vm_compute in E; discriminate].
    exists stats. split; [reflexivity|].
    destruct (proj2 (calibration_mode_mismatch sampleCorpus) stats F E)
      as (_ & _ & Ht & _ & Hn).
    split; [exact Ht | exact Hn].
Defined.

(* ================================================================== *)
(** ** Images without interior pixels *)
(* ================================================================== *)

Lemma for_loop_skip {S : Type} (lo hi : nat) (body : nat -> S -> S) (s : S) :
  (hi <= lo)%nat -> for_loop lo hi body s = s.
Proof.
  intro H. unfold for_loop. replace (hi - lo)%nat with 0%nat by lia.
  reflexivity.
Qed.

(** On a buffer narrower or lower than three pixels the convolution loops
    have no iteration. *)
Lemma applyLaplacian_small (pixels : list Z) (w h : nat) :
  (w < 3)%nat \/ (h < 3)%nat ->
  LaplacianDetector.applyLaplacian pixels w h =
  JS.Float32Array (List.length pixels).
Proof.
  intro H. unfold LaplacianDetector.applyLaplacian.
  destruct H as [H|H].
  - apply (for_loop_invariant
             (fun arr => arr = JS.Float32Array (List.length pixels)));
      [reflexivity|].
    intros y arr _ ->. apply for_loop_skip. lia.
  - apply for_loop_skip. lia.
Qed.

Lemma calculateGradients_small (pixels : list Z) (w h : nat) :
  (w < 3)%nat \/ (h < 3)%nat ->
  GradientDetector.calculateGradients pixels w h =
  (JS.Float32Array (List.length pixels),
   JS.Float32Array (List.length pixels)).
Proof.
  intro H. unfold GradientDetector.calculateGradients.
  destruct H as [H|H].
  - apply (for_loop_invariant
             (fun g => g = (JS.Float32Array (List.length pixels),
                            JS.Float32Array (List.length pixels))));
      [reflexivity|].
    intros y g _ ->. apply for_loop_skip. lia.
  - apply for_loop_skip. lia.
Qed.

Lemma Float32Array_map (n : nat) :
  JS.Float32Array n = map JS.Fin (repeat 0%Q n).
Proof. unfold JS.Float32Array, JS.zero. symmetry. apply map_repeat. Qed.

Lemma get_Float32Array (n i : nat) :
  (i < n)%nat -> JS.get (JS.Float32Array n) i = JS.Fin 0.
Proof.
  intro H. unfold JS.get, JS.Float32Array.
  rewrite nth_repeat_lt by exact H. reflexivity.
Qed.

Lemma mean_zero (qs : list Q) :
  qs <> [] -> Forall (fun q => q == 0)%Q qs ->
  JS.sum (map JS.Fin qs) / JS.of_nat (List.length (map JS.Fin qs)) == JS.zero.
Proof.
  intros Hne Hz. unfold JS.sum, JS.zero, JS.of_nat.
  rewrite sum_loop_fin, length_map.
  pose proof (length_pos_Q qs Hne) as Hn.
  rewrite div_fin by lra. simpl.
  rewrite (sum_loop_const qs 0 0 Hz). field. lra.
Qed.

(** X5.  An image less than 3 pixels wide or high has no interior
    pixel, so the Laplacian, the gradient and the Tenengrad kernel score a
    non-empty one 0 whatever its pixels are; the same holds for the scores
    that the three [calculateBlurScore] methods return for a buffer decoded
    to such an image. *)
Theorem small_images_score_zero (M : MathLib) (img : RawImage) :
  data img <> [] ->
  (width img < 3)%nat \/ (height img < 3)%nat ->
  LaplacianDetector.calculateVariance
    (LaplacianDetector.applyLaplacian (data img) (width img) (height img))
    == JS.zero /\
  GradientDetector.score img == JS.zero /\
  TenengradDetector.score img == JS.zero /\
  (forall (P : Platform) (imageBuffer : ImageBuffer),
      sharp_raw imageBuffer = Ok img ->
      exists l g t,
        LaplacianDetector.calculateBlurScore imageBuffer = Ok l /\
        GradientDetector.calculateBlurScore imageBuffer = Ok g /\
        TenengradDetector.calculateBlurScore imageBuffer = Ok t /\
        l == JS.zero /\ g == JS.zero /\ t == JS.zero).
Proof.
  intros Hne Hs.
  cut (LaplacianDetector.calculateVariance
         (LaplacianDetector.applyLaplacian (data img) (width img)
            (height img)) == JS.zero /\
       GradientDetector.score img == JS.zero /\
       TenengradDetector.score img == JS.zero).
  { intros (Hl & Hg & Ht). repeat (split; [assumption|]).
    intros P imageBuffer Hraw.
    unfold LaplacianDetector.calculateBlurScore,
      GradientDetector.calculateBlurScore,
      TenengradDetector.calculateBlurScore.
    rewrite Hraw. cbn [bind try_catch].
    do 3 eexists. repeat (split; [reflexivity|]).
    repeat split; assumption. }
  assert (Hn : (0 < List.length (data img))%nat)
    by (destruct (data img); [congruence | simpl; lia]).
  set (n := List.length (data img)) in *.
  assert (Hz : repeat 0%Q n <> []) by (destruct n; [lia | discriminate]).
  split; [|split].
  - rewrite (applyLaplacian_small _ _ _ Hs), Float32Array_map. fold n.
    destruct (laplacian_variance_fin (repeat 0%Q n) True Hz)
      as (v & E & _ & Hv).
    { apply Forall_forall. intros q Hq _. apply repeat_spec in Hq.
      subst q. reflexivity. }
    rewrite E. simpl. apply Hv. exact I.
  - unfold GradientDetector.score.
    rewrite (calculateGradients_small _ _ _ Hs). fold n.
    unfold GradientDetector.calculateMagnitude.
    rewrite Float32Array_length.
    destruct (fill_loop_fin_list (fun q => q == 0)%Q n
                (fun i => Math_sqrt
                            (JS.get (JS.Float32Array n) i *
                             JS.get (JS.Float32Array n) i +
                             JS.get (JS.Float32Array n) i *
                             JS.get (JS.Float32Array n) i)))
      as (Hm & Lm).
    { intros i Hi. rewrite get_Float32Array by exact Hi.
      cbn [JS.mul JS.add]. unfold Math_sqrt.
      assert (B : Qle_bool 0 (0 * 0 + 0 * 0) = true) by reflexivity.
      rewrite B. eexists. split; [reflexivity|].
      apply sqrtQ_zero. reflexivity. }
    destruct (fin_list_map _ _ Hm) as (qs & E & Hqs).
    rewrite E in *. rewrite length_map in Lm.
    apply mean_zero; [|exact Hqs].
    destruct qs; [simpl in Lm; lia | discriminate].
  - unfold TenengradDetector.score, TenengradDetector.calculateGradients.
    rewrite (calculateGradients_small _ _ _ Hs). fold n.
    rewrite Float32Array_length.
    destruct (fill_loop_fin_list (fun q => q == 0)%Q n
                (fun i => JS.get (JS.Float32Array n) i *
                          JS.get (JS.Float32Array n) i +
                          JS.get (JS.Float32Array n) i *
                          JS.get (JS.Float32Array n) i))
      as (Hm & Lm).
    { intros i Hi. rewrite get_Float32Array by exact Hi.
      cbn [JS.mul JS.add]. eexists. split; [reflexivity|]. reflexivity. }
    destruct (fin_list_map _ _ Hm) as (qs & E & Hqs).
    rewrite E in *. rewrite length_map in Lm.
    cbv zeta. unfold JS.sum, JS.zero, JS.of_nat.
    rewrite !sum_loop_fin, length_map.
    destruct (variance_tail qs 0 (inject_Z (Z.of_nat (List.length qs))) True)
      as (v & Ev & _ & Hv).
    + destruct qs; [simpl in Lm; lia | discriminate].
    + reflexivity.
    + eapply Forall_impl; [|exact Hqs]. intros q Hq _. exact Hq.
    + cbv zeta in Ev. unfold JS.zero in Ev. rewrite Ev. simpl.
      apply Hv. exact I.
Qed.

Lemma small_images_score_zero_witness :
  data stripeImage <> [] /\
  ((width stripeImage < 3)%nat \/ (height stripeImage < 3)%nat) /\
  LaplacianDetector.calculateVariance
    (LaplacianDetector.applyLaplacian (data stripeImage) (width stripeImage)
       (height stripeImage)) == JS.zero /\
  @GradientDetector.score CoarseMath stripeImage == JS.zero /\
  TenengradDetector.score stripeImage == JS.zero /\
  ~ VarianceDetector.calculateVariance (data stripeImage) == JS.zero.
Proof.
  assert (N : data stripeImage <> []) by discriminate.
  assert (S : (width stripeImage < 3)%nat \/ (height stripeImage < 3)%nat)
    by (left; cbn; lia).
  destruct (small_images_score_zero CoarseMath stripeImage N S)
    as (Hl & Hg & Ht & _).
  repeat (split; [assumption|]).
  vm_compute. discriminate.
Defined.
(* ================================================================== *)
(** ** The range of the composite detector *)
(* ================================================================== *)

Lemma compositeScore_in_range (n : Normalized) :
  in_range (norm_laplacian n) -> in_range (norm_gradient n) ->
  in_range (norm_tenengrad n) -> in_range (norm_variance n) ->
  in_range (CompositeDetector.compositeScore n).
Proof.
  intros (l & El & Hl) (g & Eg & Hg) (t & Et & Ht) (v & Ev & Hv).
  unfold CompositeDetector.compositeScore. rewrite El, Eg, Et, Ev.
  cbn [JS.mul JS.add]. eexists. split; [reflexivity|]. lra.
Qed.

(** Without calibration, the scores of a decoded image: the composite and
    the four normalized scores are in [0,100] and the raw Tenengrad score is
    finite and not negative. *)
Lemma handTuned_scores_in_range {M : MathLib} {P : Platform}
  (imageBuffer : ImageBuffer) (img : RawImage) (r : CompositeScore) :
  sharp_raw imageBuffer = Ok img ->
  List.length (data img) = (width img * height img)%nat ->
  data img <> [] ->
  CompositeDetector.calculateBlurScore (CompositeDetector.new None)
    imageBuffer = Ok r ->
  in_range (composite r) /\
  in_range (norm_laplacian (normalized r)) /\
  in_range (norm_gradient (normalized r)) /\
  in_range (norm_tenengrad (normalized r)) /\
  in_range (norm_variance (normalized r)) /\
  exists t, tenengrad r = JS.Fin t /\ (0 <= t)%Q.
Proof.
  intros Hraw Hlen Hne H.
  destruct img as [pixels w h]. cbn [data width height] in *.
  destruct (laplacian_score pixels w h 0%Z Hlen Hne) as (l & El & Hl & _).
  destruct (gradient_score pixels w h 0%Z Hlen Hne) as (g & Eg & Hg & _).
  destruct (tenengrad_score pixels w h 0%Z Hlen Hne) as (t & Et & Ht & _).
  destruct (variance_score pixels w h 0%Z Hne) as (v & Ev & Hv & _).
  unfold CompositeDetector.calculateBlurScore,
    LaplacianDetector.calculateBlurScore, GradientDetector.calculateBlurScore,
    TenengradDetector.calculateBlurScore, VarianceDetector.calculateBlurScore
    in H.
  rewrite Hraw in H. cbn [bind try_catch data width height] in H.
  rewrite El, Eg, Et, Ev in H. injection H as H. subst r.
  destruct (normalizeHandTuned_in_range l g t v Hl Hg Ht Hv)
    as (_ & Rl & Rg & Rt & Rv).
  cbv zeta in Rl, Rg, Rt, Rv.
  unfold CompositeDetector.combine_scores, CompositeDetector.new.
  cbn [CompositeDetector.calibrationStats composite normalized tenengrad
       norm_laplacian norm_gradient norm_tenengrad norm_variance].
  split; [apply compositeScore_in_range; assumption|].
  repeat (split; [assumption|]).
  exists t. split; [reflexivity | exact Ht].
Qed.

(** X6.  Without calibration statistics, the composite score and the
    four normalized scores that the composite detector returns for a decoded
    non-empty image of [width * height] pixels are finite and lie in
    [0,100]; with threshold 0 the detector calls no such image blurry. *)
Theorem uncalibrated_composite_in_range (M : MathLib) (P : Platform)
  (imageBuffer : ImageBuffer) (img : RawImage) (r : CompositeScore) :
  sharp_raw imageBuffer = Ok img ->
  List.length (data img) = (width img * height img)%nat ->
  data img <> [] ->
  CompositeDetector.calculateBlurScore (CompositeDetector.new None)
    imageBuffer = Ok r ->
  in_range (composite r) /\
  in_range (norm_laplacian (normalized r)) /\
  in_range (norm_gradient (normalized r)) /\
  in_range (norm_tenengrad (normalized r)) /\
  in_range (norm_variance (normalized r)) /\
  CompositeDetector.isBlurry r (JS.Fin 0) = false.
Proof.
  intros Hraw Hlen Hne H.
  destruct (handTuned_scores_in_range imageBuffer img r Hraw Hlen Hne H)
    as (Rc & Rl & Rg & Rt & Rv & _).
  repeat (split; [assumption|]).
  unfold CompositeDetector.isBlurry.
  destruct Rc as (c & Ec & Hc). rewrite Ec. apply lt_fin_false. lra.
Qed.

Lemma uncalibrated_composite_in_range_witness :
  @sharp_raw SamplePlatform (Some edgeImage) = Ok edgeImage /\
  List.length (data edgeImage) = (width edgeImage * height edgeImage)%nat /\
  data edgeImage <> [] /\
  exists r,
    @CompositeDetector.calculateBlurScore CoarseMath SamplePlatform
      (CompositeDetector.new None) (Some edgeImage) = Ok r /\
    in_range (composite r) /\
    ~ composite r == JS.zero.
Proof.
  split; [reflexivity|]. split; [reflexivity|]. split; [discriminate|].
  destruct (@CompositeDetector.calculateBlurScore CoarseMath SamplePlatform
              (CompositeDetector.new None) (Some edgeImage)) as [r|m] eqn:E;
    [|vm_compute in E; discriminate].
  exists r. split; [reflexivity|]. split.
  - apply (uncalibrated_composite_in_range CoarseMath SamplePlatform
             (Some edgeImage) edgeImage r);
      [reflexivity | reflexivity | discriminate | exact E].
  - vm_compute in E. injection E as E. subst r. vm_compute. discriminate.
Defined.
Lemma percentile_map_ramp (raw lo hi : Q) :
  (lo < hi)%Q ->
  JS.Fin 100 *
  CompositeDetector.clip ((JS.Fin raw - JS.Fin lo) / (JS.Fin hi - JS.Fin lo))
    JS.zero (JS.Fin 1)
  == JS.Fin (ramp lo hi raw).
Proof.
  intro H. rewrite !sub_fin. rewrite div_fin by lra.
  unfold CompositeDetector.clip, JS.zero.
  assert (Hx : ((raw - lo) / (hi - lo) * (hi - lo) == raw - lo)%Q)
    by (field; lra).
  set (x := ((raw - lo) / (hi - lo))%Q) in *.
  rewrite Math_min_fin.
  unfold ramp.
  destruct (Qle_bool raw lo) eqn:E1.
  - apply Qle_bool_iff in E1.
    assert (x <= 0)%Q by nra.
    destruct (Qlt_le_dec x 1); [|lra].
    rewrite Math_max_fin. destruct (Qlt_le_dec 0 x); [lra|].
    simpl. lra.
  - assert (N1 : (lo < raw)%Q).
    { destruct (Qlt_le_dec lo raw) as [L|L]; [exact L|].
      apply Qle_bool_iff in L. congruence. }
    assert (0 < x)%Q by nra.
    destruct (Qle_bool hi raw) eqn:E2.
    + apply Qle_bool_iff in E2.
      assert (1 <= x)%Q by nra.
      destruct (Qlt_le_dec x 1); [lra|].
      rewrite Math_max_fin. destruct (Qlt_le_dec 0 1); [|lra].
      simpl. lra.
    + assert (N2 : (raw < hi)%Q).
      { destruct (Qlt_le_dec raw hi) as [L|L]; [exact L|].
        apply Qle_bool_iff in L. congruence. }
      assert (x < 1)%Q by nra.
      destruct (Qlt_le_dec x 1); [|lra].
      rewrite Math_max_fin. destruct (Qlt_le_dec 0 x); [|lra].
      simpl. reflexivity.
Qed.

Lemma ramp_range (lo hi x : Q) : (lo < hi)%Q -> (0 <= ramp lo hi x <= 100)%Q.
Proof.
  intro H. unfold ramp.
  destruct (Qle_bool x lo) eqn:E1; [lra|].
  destruct (Qle_bool hi x) eqn:E2; [lra|].
  assert (N1 : (lo < x)%Q).
  { destruct (Qlt_le_dec lo x) as [L|L]; [exact L|].
    apply Qle_bool_iff in L. congruence. }
  assert (N2 : (x < hi)%Q).
  { destruct (Qlt_le_dec x hi) as [L|L]; [exact L|].
    apply Qle_bool_iff in L. congruence. }
  assert (Hx : ((x - lo) / (hi - lo) * (hi - lo) == x - lo)%Q)
    by (field; lra).
  set (y := ((x - lo) / (hi - lo))%Q) in *.
  split; nra.
Qed.

(** X7.  With calibration statistics whose 5th percentile is below the
    95th for every algorithm (for Tenengrad after the guarded [log10]), each
    normalized score is the linear ramp through [(p5, 0)] and [(p95, 100)],
    held at 0 below [p5] and at 100 above [p95] (Tenengrad in [log10]
    space), and the composite of the four lies in [0,100]. *)
Theorem calibrated_normalisation_is_a_ramp (M : MathLib)
  (stats : CalibrationStats)
  (l g t v l5 l95 g5 g95 t5 t95 v5 v95 x x5 x95 : Q) :
  p5 (stats_laplacian stats) = JS.Fin l5 ->
  p95 (stats_laplacian stats) = JS.Fin l95 ->
  p5 (stats_gradient stats) = JS.Fin g5 ->
  p95 (stats_gradient stats) = JS.Fin g95 ->
  p5 (stats_tenengrad stats) = JS.Fin t5 ->
  p95 (stats_tenengrad stats) = JS.Fin t95 ->
  p5 (stats_variance stats) = JS.Fin v5 ->
  p95 (stats_variance stats) = JS.Fin v95 ->
  guarded_log10 (JS.Fin t) = JS.Fin x ->
  guarded_log10 (JS.Fin t5) = JS.Fin x5 ->
  guarded_log10 (JS.Fin t95) = JS.Fin x95 ->
  (l5 < l95)%Q -> (g5 < g95)%Q -> (x5 < x95)%Q -> (v5 < v95)%Q ->
  let n := CompositeDetector.normalizePercentile stats
             (JS.Fin l) (JS.Fin g) (JS.Fin t) (JS.Fin v) in
  norm_laplacian n == JS.Fin (ramp l5 l95 l) /\
  norm_gradient n == JS.Fin (ramp g5 g95 g) /\
  norm_tenengrad n == JS.Fin (ramp x5 x95 x) /\
  norm_variance n == JS.Fin (ramp v5 v95 v) /\
  in_range (CompositeDetector.compositeScore n).
Proof.
  intros Hl5 Hl95 Hg5 Hg95 Ht5 Ht95 Hv5 Hv95 Hx Hx5 Hx95 Ll Lg Lt Lv n.
  subst n. unfold CompositeDetector.normalizePercentile.
  cbn [norm_laplacian norm_gradient norm_tenengrad norm_variance].
  rewrite Hl5, Hl95, Hg5, Hg95, Ht5, Ht95, Hv5, Hv95.
  fold (guarded_log10 (JS.Fin t)) (guarded_log10 (JS.Fin t5))
       (guarded_log10 (JS.Fin t95)).
  rewrite Hx, Hx5, Hx95.
  pose proof (percentile_map_ramp l l5 l95 Ll) as Rl.
  pose proof (percentile_map_ramp g g5 g95 Lg) as Rg.
  pose proof (percentile_map_ramp x x5 x95 Lt) as Rt.
  pose proof (percentile_map_ramp v v5 v95 Lv) as Rv.
  repeat (split; [assumption|]).
  assert (In_range : forall a lo hi,
            (lo < hi)%Q -> forall e, e == JS.Fin (ramp lo hi a) -> in_range e).
  { intros a lo hi L e He. destruct e as [q| | |]; simpl in He;
      try contradiction.
    exists q. split; [reflexivity|].
    pose proof (ramp_range lo hi a L). lra. }
  apply compositeScore_in_range;
    cbn [norm_laplacian norm_gradient norm_tenengrad norm_variance].
  - exact (In_range l l5 l95 Ll _ Rl).
  - exact (In_range g g5 g95 Lg _ Rg).
  - exact (In_range x x5 x95 Lt _ Rt).
  - exact (In_range v v5 v95 Lv _ Rv).
Qed.

Lemma calibrated_normalisation_is_a_ramp_witness :
  @guarded_log10 CoarseMath (JS.Fin 5000) = JS.Fin (36 # 10) /\
  (2 < 22)%Q /\ (1 < 6)%Q /\ (18 # 10 < 57 # 10)%Q /\ (10 < 110)%Q /\
  norm_laplacian sampleNormalized == JS.Fin 25 /\
  norm_gradient sampleNormalized == JS.Fin 0 /\
  norm_variance sampleNormalized == JS.Fin 100 /\
  in_range (CompositeDetector.compositeScore sampleNormalized).
Proof.
  destruct (calibrated_normalisation_is_a_ramp CoarseMath sampleStats
              7 (1 # 2) 5000 200 2 22 1 6 100 1000000 10 110
              (36 # 10) (18 # 10) (57 # 10))
    as (Hl & Hg & Ht & Hv & Hc);
    try reflexivity.
  fold sampleNormalized in Hl, Hg, Ht, Hv, Hc.
  do 5 (split; [reflexivity|]).
  split; [etransitivity; [exact Hl | vm_compute; reflexivity]|].
  split; [etransitivity; [exact Hg | vm_compute; reflexivity]|].
  split; [etransitivity; [exact Hv | vm_compute; reflexivity]|].
  exact Hc.
Defined.
(* ================================================================== *)
(** ** Loops that collect their results *)
(* ================================================================== *)

Lemma fold_left_flat_map {A B C : Type} (f : A -> C -> A) (h : B -> list C)
  (l : list B) (a : A) :
  fold_left f (flat_map h l) a = fold_left (fun a b => fold_left f (h b) a) l a.
Proof.
  revert a. induction l as [|b l IH]; intro a; [reflexivity|].
  cbn [flat_map fold_left]. rewrite fold_left_app. apply IH.
Qed.

Lemma fold_left_ext_eq {A B : Type} (f g : A -> B -> A) (l : list B) (a : A) :
  (forall a b, f a b = g a b) -> fold_left f l a = fold_left g l a.
Proof.
  intro H. revert a. induction l as [|b l IH]; intro a; [reflexivity|].
  cbn [fold_left]. rewrite H. apply IH.
Qed.

(** Two nested counting loops visit the grid row by row. *)
Lemma nested_loop_grid {S : Type} (px py : nat) (body : nat -> nat -> S -> S)
  (s : S) :
  for_loop 0 py (fun y acc => for_loop 0 px (fun x acc => body y x acc) acc) s
  = fold_left (fun acc yx => body (fst yx) (snd yx) acc) (grid px py) s.
Proof.
  unfold for_loop, grid. rewrite !Nat.sub_0_r.
  rewrite fold_left_flat_map.
  apply fold_left_ext_eq. intros a y.
  rewrite <- (fold_left_map_arg (fun acc yx => body (fst yx) (snd yx) acc)
                (fun x => (y, x))).
  reflexivity.
Qed.

Lemma grid_length (px py : nat) : List.length (grid px py) = (px * py)%nat.
Proof.
  unfold grid. induction py as [|py IH]; [cbn; lia|].
  rewrite seq_S, flat_map_app, length_app, IH. cbn [flat_map Nat.add].
  rewrite app_nil_r, length_map, length_seq. lia.
Qed.

Lemma grid_nth (px py k : nat) :
  (k < px * py)%nat ->
  nth_error (grid px py) k = Some (k / px, k mod px)%nat.
Proof.
  unfold grid. induction py as [|py IH]; intro Hk; [lia|].
  rewrite seq_S, flat_map_app. cbn [flat_map Nat.add]. rewrite app_nil_r.
  fold (grid px py). 
  destruct (Nat.lt_ge_cases k (px * py)) as [Hlt|Hge].
  - rewrite nth_error_app1 by (rewrite grid_length; exact Hlt).
    apply IH. exact Hlt.
  - rewrite nth_error_app2 by (rewrite grid_length; exact Hge).
    rewrite grid_length.
    assert (Hx : (k - px * py < px)%nat) by lia.
    rewrite nth_error_map, nth_error_seq.
    assert (Eb : (k - px * py <? px)%nat = true) by (apply Nat.ltb_lt; exact Hx).
    rewrite Eb. cbn [option_map Nat.add]. f_equal. f_equal.
    + apply (Nat.div_unique k px py (k - px * py)); lia.
    + apply (Nat.mod_unique k px py (k - px * py)); lia.
Qed.

(** A loop that appends one item per element, each obtained from a step
    that may throw: it returns the items of all elements, or throws. *)
Lemma collect_loop_Ok {A B C : Type} (step : B -> Exc C) (g : B -> C -> A)
  (l : list B) (init r : list A) :
  fold_left (fun acc b => xs <- acc ;; y <- step b ;; Ok (xs ++ [g b y]))
            l (Ok init) = Ok r <->
  exists ys, Forall2 (fun b y => step b = Ok y) l ys /\
             r = init ++ map (fun p => g (fst p) (snd p)) (combine l ys).
Proof.
  revert init. induction l as [|b l IH]; intro init.
  - cbn [fold_left]. split.
    + intro H. injection H as <-. exists []. split; [constructor|].
      cbn. symmetry. apply app_nil_r.
    + intros (ys & F & ->). inversion F; subst. cbn. rewrite app_nil_r.
      reflexivity.
  - set (f := fun acc b => xs <- acc ;; y <- step b ;; Ok (xs ++ [g b y]))
      in *.
    cbn [fold_left].
    assert (Ef : f (Ok init) b =
                 match step b with
                 | Ok y => Ok (init ++ [g b y])
                 | Throw m => Throw m
                 end) by reflexivity.
    rewrite Ef. destruct (step b) as [y|m] eqn:E.
    + rewrite IH. split.
      * intros (ys & F & ->). exists (y :: ys). split.
        -- constructor; assumption.
        -- cbn [combine map fst snd]. rewrite <- app_assoc. reflexivity.
      * intros (ys & F & ->). inversion F as [|? y' ? ys' Hy F']; subst.
        rewrite E in Hy. injection Hy as <-.
        exists ys'. split; [exact F'|].
        cbn [combine map fst snd]. rewrite <- app_assoc. reflexivity.
    + unfold f.
      rewrite (loop_Throw (fun xs b => y <- step b ;; Ok (xs ++ [g b y]))).
      split; [discriminate|].
      intros (ys & F & _). inversion F; subst. congruence.
Qed.

Lemma collect_loop_Throw {A B C : Type} (step : B -> Exc C) (g : B -> C -> A)
  (l : list B) (init : list A) (m : string) :
  fold_left (fun acc b => xs <- acc ;; y <- step b ;; Ok (xs ++ [g b y]))
            l (Ok init) = Throw m ->
  exists b, In b l /\ step b = Throw m.
Proof.
  revert init. induction l as [|b l IH]; intro init; [discriminate|].
  set (f := fun acc b => xs <- acc ;; y <- step b ;; Ok (xs ++ [g b y]))
    in *.
  cbn [fold_left].
  assert (Ef : f (Ok init) b =
               match step b with
               | Ok y => Ok (init ++ [g b y])
               | Throw m => Throw m
               end) by reflexivity.
  rewrite Ef. destruct (step b) as [y|m'] eqn:E.
  - intro H. destruct (IH _ H) as (b' & Hin & Hb').
    exists b'. split; [right; exact Hin | exact Hb'].
  - unfold f.
    rewrite (loop_Throw (fun xs b => y <- step b ;; Ok (xs ++ [g b y]))).
    intro H. injection H as <-. exists b. split; [left; reflexivity | exact E].
Qed.
Lemma Forall2_nth_combine {A B : Type} (R : A -> B -> Prop) (l : list A)
  (ys : list B) (k : nat) (a : A) :
  Forall2 R l ys -> nth_error l k = Some a ->
  exists y, R a y /\ nth_error (combine l ys) k = Some (a, y).
Proof.
  intro F. revert k. induction F as [|a' y' l ys Hr F IH]; intros k Hk.
  - destruct k; discriminate.
  - destruct k as [|k]; cbn [nth_error combine] in *.
    + injection Hk as <-. exists y'. split; [exact Hr | reflexivity].
    + apply IH. exact Hk.
Qed.

Lemma combine_length_Forall2 {A B : Type} (R : A -> B -> Prop) (l : list A)
  (ys : list B) :
  Forall2 R l ys -> List.length (combine l ys) = List.length l.
Proof.
  intro F. rewrite length_combine, <- (Forall2_length F). apply Nat.min_id.
Qed.

(** The patches of a successful division: one per grid position, row by
    row, each holding the region that the image library extracted. *)
Lemma divideIntoPatches_positions {P : Platform} (imageBuffer : ImageBuffer)
  (px py : nat) (patches : list Patch) :
  PatchBasedDetector.divideIntoPatches imageBuffer px py = Ok patches ->
  exists w h buffers,
    sharp_metadata imageBuffer = Ok (w, h) /\
    Forall2 (fun yx b =>
               sharp_extract imageBuffer (snd yx * (w / px))
                             (fst yx * (h / py)) (w / px) (h / py) = Ok b)
            (grid px py) buffers /\
    patches =
    map (fun p =>
           {| x := snd (fst p); y := fst (fst p);
              left := (snd (fst p) * (w / px))%nat;
              top := (fst (fst p) * (h / py))%nat;
              patchWidth := (w / px)%nat; patchHeight := (h / py)%nat;
              buffer := snd p |})
        (combine (grid px py) buffers).
Proof.
  intro H. unfold PatchBasedDetector.divideIntoPatches in H.
  destruct (sharp_metadata imageBuffer) as [[w h]|m] eqn:Hm; [|discriminate].
  cbn [bind] in H. cbv zeta in H.
  rewrite (nested_loop_grid px py
             (fun y x acc =>
                patches <- acc ;;
                patchBuffer <-
                  sharp_extract imageBuffer (x * (w / px)) (y * (h / py))
                                (w / px) (h / py) ;;
                Ok (patches ++
                    [ {| x := x; y := y; left := (x * (w / px))%nat;
                         top := (y * (h / py))%nat;
                         patchWidth := (w / px)%nat;
                         patchHeight := (h / py)%nat;
                         buffer := patchBuffer |} ]))) in H.
  apply (collect_loop_Ok
           (fun yx => sharp_extract imageBuffer (snd yx * (w / px))
                                    (fst yx * (h / py)) (w / px) (h / py))
           (fun yx patchBuffer =>
              {| x := snd yx; y := fst yx; left := (snd yx * (w / px))%nat;
                 top := (fst yx * (h / py))%nat;
                 patchWidth := (w / px)%nat; patchHeight := (h / py)%nat;
                 buffer := patchBuffer |})) in H.
  destruct H as (ys & F & ->). cbn [app].
  exists w, h, ys. split; [reflexivity|]. split; [exact F | reflexivity].
Qed.

(** X8.  [divideIntoPatches] cuts an image of [w] by [h] pixels into
    [px * py] patches in row-major order: patch [k] is at column [k mod px]
    and row [k / px], is [floor(w / px)] by [floor(h / py)] pixels, starts
    at [(column * floor(w / px), row * floor(h / py))], holds the extract of
    exactly that region, and lies inside the image. *)
Theorem divideIntoPatches_tiles_image (P : Platform)
  (imageBuffer : ImageBuffer) (px py w h : nat) (patches : list Patch) :
  sharp_metadata imageBuffer = Ok (w, h) ->
  PatchBasedDetector.divideIntoPatches imageBuffer px py = Ok patches ->
  List.length patches = (px * py)%nat /\
  forall k, (k < px * py)%nat ->
    exists patch,
      nth_error patches k = Some patch /\
      x patch = (k mod px)%nat /\ y patch = (k / px)%nat /\
      left patch = (k mod px * (w / px))%nat /\
      top patch = (k / px * (h / py))%nat /\
      patchWidth patch = (w / px)%nat /\ patchHeight patch = (h / py)%nat /\
      sharp_extract imageBuffer (left patch) (top patch) (w / px) (h / py)
        = Ok (buffer patch) /\
      (left patch + patchWidth patch <= w)%nat /\
      (top patch + patchHeight patch <= h)%nat.
Proof.
  intros Hm H.
  destruct (divideIntoPatches_positions imageBuffer px py patches H)
    as (w' & h' & ys & Hm' & F & ->).
  rewrite Hm in Hm'. injection Hm' as <- <-.
  split.
  - rewrite length_map, (combine_length_Forall2 _ _ _ F). apply grid_length.
  - intros k Hk.
    destruct (Forall2_nth_combine _ _ _ k _ F (grid_nth px py k Hk))
      as (b & Hb & Hc).
    eexists. split.
    + rewrite nth_error_map, Hc. reflexivity.
    + cbn [x y left top patchWidth patchHeight buffer fst snd] in *.
      repeat (split; [reflexivity|]). split; [exact Hb|].
      assert (Hpx : (0 < px)%nat) by (destruct px; [lia | lia]).
      assert (Hpy : (0 < py)%nat) by (destruct py; [lia | lia]).
      pose proof (Nat.mod_upper_bound k px ltac:(lia)) as Mx.
      assert (Dy : (k / px < py)%nat)
        by (apply Nat.Div0.div_lt_upper_bound; lia).
      pose proof (Nat.Div0.mul_div_le w px) as Wx.
      pose proof (Nat.Div0.mul_div_le h py) as Hy.
      split; nia.
Qed.

Lemma divideIntoPatches_tiles_image_witness :
  @sharp_metadata SamplePlatform (Some edgeImage) = Ok (4, 4)%nat /\
  exists patches,
    @PatchBasedDetector.divideIntoPatches SamplePlatform (Some edgeImage) 2 2
      = Ok patches /\
    List.length patches = 4%nat /\
    exists patch,
      nth_error patches 3 = Some patch /\
      x patch = 1%nat /\ y patch = 1%nat /\
      left patch = 2%nat /\ top patch = 2%nat /\
      patchWidth patch = 2%nat /\ patchHeight patch = 2%nat /\
      (left patch + patchWidth patch <= 4)%nat /\
      (top patch + patchHeight patch <= 4)%nat.
Proof.
  split; [reflexivity|].
  destruct (@PatchBasedDetector.divideIntoPatches SamplePlatform
              (Some edgeImage) 2 2) as [patches|m] eqn:E;
    [|vm_compute in E; discriminate].
  destruct (divideIntoPatches_tiles_image SamplePlatform (Some edgeImage)
              2 2 4 4 patches eq_refl E) as (L & N).
  exists patches. split; [reflexivity|]. split; [exact L|].
  destruct (N 3%nat ltac:(lia))
    as (patch & H1 & H2 & H3 & H4 & H5 & H6 & H7 & _ & H9 & H10).
  exists patch. repeat split; assumption.
Defined.
Lemma skipn_cons_nth {A : Type} (l : list A) (k : nat) (a : A) :
  nth_error l k = Some a -> skipn k l = a :: skipn (S k) l.
Proof.
  revert k. induction l as [|b l IH]; intros k H.
  - destruct k; discriminate.
  - destruct k as [|k]; cbn [nth_error skipn] in *.
    + injection H as <-. reflexivity.
    + apply IH. exact H.
Qed.

(** One row of the blur map: the composites of [px] consecutive entries,
    or the [TypeError] of reading a missing entry. *)
Lemma blurMap_row_Ok (ps : list PatchScore) (m : string) (base a n : nat)
  (init : list JS.num) :
  (base + a + n <= List.length ps)%nat ->
  fold_left (fun acc x =>
               row <- acc ;;
               match nth_error ps (base + x) with
               | Some s => Ok (row ++ [patch_composite s])
               | None => Throw m
               end) (seq a n) (Ok init)
  = Ok (init ++ map patch_composite (firstn n (skipn (base + a) ps))).
Proof.
  revert a init. induction n as [|n IH]; intros a init H.
  - cbn. rewrite app_nil_r. reflexivity.
  - cbn [seq fold_left bind].
    destruct (nth_error ps (base + a)) as [s|] eqn:E;
      [|apply nth_error_None in E; lia].
    rewrite IH by lia.
    rewrite (skipn_cons_nth ps (base + a) s E).
    cbn [firstn map]. rewrite <- app_assoc.
    replace (base + S a)%nat with (S (base + a)) by lia. reflexivity.
Qed.

Lemma blurMap_row_Throw (ps : list PatchScore) (m : string) (base a n : nat)
  (init : list JS.num) :
  (List.length ps < base + a + n)%nat -> (0 < n)%nat ->
  fold_left (fun acc x =>
               row <- acc ;;
               match nth_error ps (base + x) with
               | Some s => Ok (row ++ [patch_composite s])
               | None => Throw m
               end) (seq a n) (Ok init)
  = Throw m.
Proof.
  revert a init. induction n as [|n IH]; intros a init H Hn; [lia|].
  cbn [seq fold_left bind].
  destruct (nth_error ps (base + a)) as [s|] eqn:E.
  - apply IH; [lia|].
    destruct n; [|lia].
    assert (base + a < List.length ps)%nat
      by (apply nth_error_Some; congruence).
    lia.
  - apply (loop_Throw
             (fun row x =>
                match nth_error ps (base + x) with
                | Some s => Ok (row ++ [patch_composite s])
                | None => Throw m
                end)).
Qed.

Lemma map_snd_combine_seq {A : Type} (ys : list A) (a : nat) :
  map (fun p : nat * A => snd p) (combine (seq a (List.length ys)) ys) = ys.
Proof.
  revert a. induction ys as [|y ys IH]; intro a; [reflexivity|].
  cbn [List.length seq combine map snd]. f_equal. apply IH.
Qed.

Lemma Forall2_map_self {A B : Type} (R : A -> B -> Prop) (f : A -> B)
  (l : list A) :
  (forall a, In a l -> R a (f a)) -> Forall2 R l (map f l).
Proof.
  induction l as [|a l IH]; intro H; [constructor|].
  cbn [map]. constructor.
  - apply H. left. reflexivity.
  - apply IH. intros b Hb. apply H. right. exact Hb.
Qed.

(** The blur map of an array that holds at least [px * py] scores, and
    the [TypeError] on a shorter one. *)
Lemma buildBlurMap_cases (ps : list PatchScore) (px py : nat) :
  ((px * py <= List.length ps)%nat ->
   PatchBasedDetector.buildBlurMap ps px py =
   Ok (map (fun y => map patch_composite (firstn px (skipn (y * px) ps)))
           (seq 0 py))) /\
  ((List.length ps < px * py)%nat ->
   PatchBasedDetector.buildBlurMap ps px py =
   Throw "Cannot read properties of undefined (reading 'composite')").
Proof.
  set (msg := "Cannot read properties of undefined (reading 'composite')"%string).
  set (rowOf := fun y : nat =>
         fold_left (fun acc x =>
                      row <- acc ;;
                      match nth_error ps (y * px + x) with
                      | Some s => Ok (row ++ [patch_composite s])
                      | None => Throw msg
                      end) (seq 0 px) (Ok [])).
  assert (E : PatchBasedDetector.buildBlurMap ps px py =
              fold_left (fun acc y =>
                           xs <- acc ;; row <- rowOf y ;; Ok (xs ++ [row]))
                        (seq 0 py) (Ok [])).
  { unfold PatchBasedDetector.buildBlurMap, for_loop, rowOf.
    rewrite !Nat.sub_0_r. reflexivity. }
  rewrite E. split.
  - intro H.
    set (rows := map (fun y => map patch_composite
                                   (firstn px (skipn (y * px) ps)))
                     (seq 0 py)).
    assert (F : Forall2 (fun y row => rowOf y = Ok row) (seq 0 py) rows).
    { unfold rows. apply Forall2_map_self. intros y Hy.
      apply in_seq in Hy. unfold rowOf.
      rewrite (blurMap_row_Ok ps msg (y * px) 0 px []) by nia.
      rewrite Nat.add_0_r. reflexivity. }
    apply (collect_loop_Ok rowOf (fun _ row => row)).
    exists rows. split; [exact F|]. cbn [app].
    assert (L : List.length rows = py)
      by (unfold rows; rewrite length_map; apply length_seq).
    rewrite <- L at 1. symmetry. apply map_snd_combine_seq.
  - intro H.
    assert (Hpx : (0 < px)%nat) by (destruct px; lia).
    assert (Hpy : (0 < py)%nat) by (destruct py; lia).
    destruct (fold_left _ (seq 0 py) (Ok [])) as [bm|m] eqn:El.
    + exfalso.
      apply (collect_loop_Ok rowOf (fun _ row => row)) in El.
      destruct El as (rows & F & _).
      assert (Hlast : nth_error (seq 0 py) (py - 1) = Some (py - 1)%nat).
      { rewrite nth_error_seq.
        assert (Eb : (py - 1 <? py)%nat = true) by (apply Nat.ltb_lt; lia).
        rewrite Eb. reflexivity. }
      destruct (Forall2_nth_combine _ _ _ _ _ F Hlast) as (row & Hr & _).
      unfold rowOf in Hr.
      rewrite (blurMap_row_Throw ps msg ((py - 1) * px) 0 px []) in Hr
        by nia.
      discriminate.
    + apply (collect_loop_Throw rowOf (fun _ row => row)) in El.
      destruct El as (y & Hy & Ey). unfold rowOf in Ey.
      destruct (Nat.le_gt_cases (y * px + 0 + px) (List.length ps)) as [L|G].
      * rewrite (blurMap_row_Ok ps msg (y * px) 0 px [] L) in Ey.
        discriminate.
      * rewrite (blurMap_row_Throw ps msg (y * px) 0 px [] G Hpx) in Ey.
        injection Ey as <-. reflexivity.
Qed.

(** X9.  The blur map built from a list of at least [px * py] patch
    scores has [py] rows, and row [r] holds the composites of the [px]
    patches from position [r * px] on.  With fewer patch scores the
    construction fails with the TypeError of reading [composite] of
    [undefined]. *)
Theorem buildBlurMap_rows (ps : list PatchScore) (px py : nat) :
  ((px * py <= List.length ps)%nat ->
   exists bm,
     PatchBasedDetector.buildBlurMap ps px py = Ok bm /\
     List.length bm = py /\
     forall row, (row < py)%nat ->
       nth_error bm row =
       Some (map patch_composite (firstn px (skipn (row * px) ps)))) /\
  ((List.length ps < px * py)%nat ->
   PatchBasedDetector.buildBlurMap ps px py =
   Throw "Cannot read properties of undefined (reading 'composite')").
Proof.
  destruct (buildBlurMap_cases ps px py) as (HOk & HThrow).
  split; [|exact HThrow].
  intro H. eexists. split; [exact (HOk H)|]. split.
  - rewrite length_map. apply length_seq.
  - intros row Hrow. rewrite nth_error_map, nth_error_seq.
    assert (Eb : (row <? py)%nat = true) by (apply Nat.ltb_lt; exact Hrow).
    rewrite Eb. reflexivity.
Qed.

Lemma buildBlurMap_rows_witness :
  (2 * 2 <= List.length samplePatches)%nat /\
  (List.length samplePatches < 2 * 3)%nat /\
  (exists bm,
     PatchBasedDetector.buildBlurMap samplePatches 2 2 = Ok bm /\
     List.length bm = 2%nat /\
     nth_error bm 1 = Some [JS.Fin 80; JS.Fin 20]) /\
  PatchBasedDetector.buildBlurMap samplePatches 2 3 =
  Throw "Cannot read properties of undefined (reading 'composite')".
Proof.
  assert (H1 : (2 * 2 <= List.length samplePatches)%nat) by (cbn; lia).
  assert (H2 : (List.length samplePatches < 2 * 3)%nat) by (cbn; lia).
  split; [exact H1|]. split; [exact H2|]. split.
  - destruct (proj1 (buildBlurMap_rows samplePatches 2 2) H1)
      as (bm & E & L & N).
    exists bm. split; [exact E|]. split; [exact L|].
    apply (N 1%nat). lia.
  - exact (proj2 (buildBlurMap_rows samplePatches 2 3) H2).
Defined.
(** The scores of a list of patches: one per patch, in order, with the
    position of the patch. *)
Lemma scorePatchList_positions {M : MathLib} {P : Platform}
  (self : PatchBasedDetector.t) (patches : list Patch)
  (scores : list PatchScore) :
  PatchBasedDetector.scorePatchList self patches = Ok scores ->
  Forall2 (fun patch s =>
             patch_x s = x patch /\ patch_y s = y patch /\
             exists score,
               CompositeDetector.calculateBlurScore
                 (PatchBasedDetector.compositeDetector self) (buffer patch)
               = Ok score /\
               patch_composite s = composite score /\
               patch_tenengrad s = tenengrad score)
          patches scores.
Proof.
  intro H. unfold PatchBasedDetector.scorePatchList in H.
  apply (collect_loop_Ok
           (fun patch =>
              CompositeDetector.calculateBlurScore
                (PatchBasedDetector.compositeDetector self) (buffer patch))
           (fun patch score =>
              {| patch_composite := composite score;
                 patch_laplacian := laplacian score;
                 patch_gradient := gradient score;
                 patch_tenengrad := tenengrad score;
                 patch_variance := variance score;
                 patch_normalized := normalized score;
                 patch_x := x patch;
                 patch_y := y patch |})) in H.
  destruct H as (ys & F & ->). cbn [app].
  clear - F. induction F as [|patch score patches ys Hs F IH].
  - constructor.
  - cbn [combine map fst snd]. constructor; [|exact IH].
    cbn [patch_x patch_y patch_composite patch_tenengrad].
    split; [reflexivity|]. split; [reflexivity|].
    exists score. repeat split. exact Hs.
Qed.

Lemma Forall2_nth_error {A B : Type} (R : A -> B -> Prop) (l : list A)
  (l' : list B) (k : nat) (a : A) :
  Forall2 R l l' -> nth_error l k = Some a ->
  exists b, nth_error l' k = Some b /\ R a b.
Proof.
  intro F. revert k. induction F as [|a' b' l l' Hr F IH]; intros k Hk.
  - destruct k; discriminate.
  - destruct k as [|k]; cbn [nth_error] in *.
    + injection Hk as <-. exists b'. split; [reflexivity | exact Hr].
    + apply IH. exact Hk.
Qed.

(** What a successful patch-based scoring went through. *)
Lemma patch_based_Ok {M : MathLib} {P : Platform}
  (self : PatchBasedDetector.t) (imageBuffer : ImageBuffer)
  (r : AggregationResult) :
  PatchBasedDetector.calculateBlurScore self imageBuffer = Ok r ->
  exists patches scores bm,
    PatchBasedDetector.divideIntoPatches imageBuffer
      (PatchBasedDetector.patchSize self) (PatchBasedDetector.patchSize self)
      = Ok patches /\
    PatchBasedDetector.scorePatchList self patches = Ok scores /\
    PatchBasedDetector.buildBlurMap scores
      (PatchBasedDetector.patchSize self) (PatchBasedDetector.patchSize self)
      = Ok bm /\
    r = PatchBasedDetector.aggregate self scores
          (PatchBasedDetector.patchSize self)
          (PatchBasedDetector.patchSize self) bm.
Proof.
  intro H. unfold PatchBasedDetector.calculateBlurScore in H.
  apply try_catch_rethrow_Ok in H. cbv zeta in H.
  apply bind_Ok in H. destruct H as (patches & Hp & H).
  apply bind_Ok in H. destruct H as (scores & Hs & H).
  apply bind_Ok in H. destruct H as (bm & Hb & H).
  injection H as <-. exists patches, scores, bm. repeat split; assumption.
Qed.

(** X10.  A successful patch-based score of a detector with patch size
    [n] reports [patchesX = patchesY = n] and [patchCount = n * n]; the
    [k]-th patch score carries the position [(k mod n, k / n)], the blur map
    has [n] rows of [n] cells, and the cell at row [y], column [x] is the
    composite of the patch at [(x, y)]. *)
Theorem patch_scores_follow_grid (M : MathLib) (P : Platform)
  (self : PatchBasedDetector.t) (imageBuffer : ImageBuffer)
  (r : AggregationResult) :
  PatchBasedDetector.calculateBlurScore self imageBuffer = Ok r ->
  patchesX r = PatchBasedDetector.patchSize self /\
  patchesY r = PatchBasedDetector.patchSize self /\
  patchCount r =
    (PatchBasedDetector.patchSize self * PatchBasedDetector.patchSize self)%nat /\
  List.length (blurMap r) = PatchBasedDetector.patchSize self /\
  forall k,
    (k < PatchBasedDetector.patchSize self * PatchBasedDetector.patchSize self)%nat ->
    exists s row,
      nth_error (patchScores r) k = Some s /\
      patch_x s = (k mod PatchBasedDetector.patchSize self)%nat /\
      patch_y s = (k / PatchBasedDetector.patchSize self)%nat /\
      nth_error (blurMap r) (patch_y s) = Some row /\
      List.length row = PatchBasedDetector.patchSize self /\
      nth_error row (patch_x s) = Some (patch_composite s).
Proof.
  intro H. set (n := PatchBasedDetector.patchSize self) in *.
  destruct (patch_based_Ok self imageBuffer r H)
    as (patches & scores & bm & Hp & Hs & Hb & ->). fold n in Hp, Hb.
  destruct (divideIntoPatches_positions imageBuffer n n patches Hp)
    as (w & h & buffers & Hm & F & Ep).
  pose proof (scorePatchList_positions self patches scores Hs) as Fs.
  assert (Lp : List.length patches = (n * n)%nat).
  { rewrite Ep, length_map, (combine_length_Forall2 _ _ _ F).
    apply grid_length. }
  assert (Ls : List.length scores = (n * n)%nat)
    by (rewrite <- (Forall2_length Fs); exact Lp).
  destruct (buildBlurMap_cases scores n n) as (HOk & _).
  rewrite HOk in Hb by lia. injection Hb as <-.
  unfold PatchBasedDetector.aggregate.
  cbn [patchesX patchesY patchCount blurMap patchScores].
  split; [reflexivity|]. split; [reflexivity|]. split; [exact Ls|].
  split; [rewrite length_map; apply length_seq|].
  intros k Hk.
  assert (Hn : (0 < n)%nat) by (destruct n; lia).
  pose proof (Nat.mod_upper_bound k n ltac:(lia)) as Mx.
  assert (Dy : (k / n < n)%nat) by (apply Nat.Div0.div_lt_upper_bound; lia).
  (* the patch at position k *)
  destruct (Forall2_nth_combine _ _ _ k _ F (grid_nth n n k Hk))
    as (b & _ & Hc).
  assert (Hpk : exists patch, nth_error patches k = Some patch /\
                              x patch = (k mod n)%nat /\ y patch = (k / n)%nat).
  { eexists. split; [rewrite Ep, nth_error_map, Hc; reflexivity|].
    split; reflexivity. }
  destruct Hpk as (patch & Hpk & Hx & Hy).
  destruct (Forall2_nth_error _ _ _ k _ Fs Hpk) as (s & Hsk & Sx & Sy & _).
  exists s, (map patch_composite (firstn n (skipn (k / n * n) scores))).
  split; [exact Hsk|].
  rewrite Sx, Sy, Hx, Hy. split; [reflexivity|]. split; [reflexivity|].
  split.
  { rewrite nth_error_map, nth_error_seq.
    assert (Eb : (k / n <? n)%nat = true) by (apply Nat.ltb_lt; exact Dy).
    rewrite Eb. reflexivity. }
  split.
  { rewrite length_map, length_firstn, length_skipn. nia. }
  rewrite nth_error_map, nth_error_firstn.
  assert (Eb : (k mod n <? n)%nat = true) by (apply Nat.ltb_lt; exact Mx).
  rewrite Eb, nth_error_skipn.
  replace (k / n * n + k mod n)%nat with k
    by (rewrite (Nat.div_mod_eq k n) at 1; lia).
  rewrite Hsk. reflexivity.
Qed.

Lemma patch_scores_follow_grid_witness :
  exists r,
    @PatchBasedDetector.calculateBlurScore CoarseMath SamplePlatform
      (PatchBasedDetector.new None (Some 2%nat)) (Some edgeImage) = Ok r /\
    patchCount r = 4%nat /\ List.length (blurMap r) = 2%nat /\
    exists s row,
      nth_error (patchScores r) 3 = Some s /\
      patch_x s = 1%nat /\ patch_y s = 1%nat /\
      nth_error (blurMap r) 1 = Some row /\
      nth_error row 1 = Some (patch_composite s).
Proof.
  destruct (@PatchBasedDetector.calculateBlurScore CoarseMath SamplePlatform
              (PatchBasedDetector.new None (Some 2%nat)) (Some edgeImage))
    as [r|m] eqn:E; [|vm_compute in E; discriminate].
  exists r. split; [reflexivity|].
  destruct (patch_scores_follow_grid CoarseMath SamplePlatform
              (PatchBasedDetector.new None (Some 2%nat)) (Some edgeImage)
              r E) as (_ & _ & Hc & Hl & Hk).
  split; [exact Hc|]. split; [exact Hl|].
  destruct (Hk 3%nat ltac:(cbn; lia)) as (s & row & H1 & H2 & H3 & H4 & _ & H6).
  exists s, row. split; [exact H1|]. split; [exact H2|]. split; [exact H3|].
  split.
  - rewrite H3 in H4. exact H4.
  - rewrite H2 in H6. exact H6.
Defined.
Lemma composite_Ok_decodes {M : MathLib} {P : Platform}
  (self : CompositeDetector.t) (imageBuffer : ImageBuffer)
  (r : CompositeScore) :
  CompositeDetector.calculateBlurScore self imageBuffer = Ok r ->
  exists img, sharp_raw imageBuffer = Ok img.
Proof.
  intro H. destruct (sharp_raw imageBuffer) as [img|m] eqn:E; [eauto|].
  rewrite (composite_throws self imageBuffer m E) in H. discriminate.
Qed.

Lemma min_loop_lower (b : Q) (cs : list Q) (a mn : Q) :
  (b <= a)%Q -> Forall (fun c => b <= c)%Q cs ->
  fold_left JS.Math_min (map JS.Fin cs) (JS.Fin a) = JS.Fin mn -> (b <= mn)%Q.
Proof.
  revert a. induction cs as [|c cs IH]; intros a Ha Hc H.
  - cbn in H. injection H as <-. exact Ha.
  - inversion Hc; subst. cbn [map fold_left] in H. rewrite Math_min_fin in H.
    destruct (Qlt_le_dec c a).
    + apply (IH c); assumption.
    + apply (IH a); assumption.
Qed.

Lemma max_loop_upper (b : Q) (cs : list Q) (a mx : Q) :
  (a <= b)%Q -> Forall (fun c => c <= b)%Q cs ->
  fold_left JS.Math_max (map JS.Fin cs) (JS.Fin a) = JS.Fin mx -> (mx <= b)%Q.
Proof.
  revert a. induction cs as [|c cs IH]; intros a Ha Hc H.
  - cbn in H. injection H as <-. exact Ha.
  - inversion Hc; subst. cbn [map fold_left] in H. rewrite Math_max_fin in H.
    destruct (Qlt_le_dec a c).
    + apply (IH c); assumption.
    + apply (IH a); assumption.
Qed.

(** The extremes of a non-empty list of values within [lo, hi] are within
    [lo, hi]. *)
Lemma min_max_within (lo hi : Q) (cs : list Q) :
  cs <> [] -> Forall (fun c => lo <= c <= hi)%Q cs ->
  within lo hi (JS.Math_min_list (map JS.Fin cs)) /\
  within lo hi (JS.Math_max_list (map JS.Fin cs)).
Proof.
  intros Hne H. destruct cs as [|c cs]; [congruence|].
  inversion H as [|? ? Hc Hcs]; subst.
  unfold JS.Math_min_list, JS.Math_max_list. cbn [map fold_left].
  change (JS.Math_min JS.PInf (JS.Fin c)) with (JS.Fin c).
  change (JS.Math_max JS.NInf (JS.Fin c)) with (JS.Fin c).
  destruct (min_loop_fin cs c) as (mn & Emn & Hmn & _).
  destruct (max_loop_fin cs c) as (mx & Emx & Hmx & _).
  rewrite Emn, Emx. split.
  - exists mn. split; [reflexivity|]. split; [|lra].
    apply (min_loop_lower lo cs c mn); [lra | | exact Emn].
    eapply Forall_impl; [|exact Hcs]. intros q Hq. apply Hq.
  - exists mx. split; [reflexivity|]. split; [lra|].
    apply (max_loop_upper hi cs c mx); [lra | | exact Emx].
    eapply Forall_impl; [|exact Hcs]. intros q Hq. apply Hq.
Qed.

Lemma patch_clip_fin (q lo hi : Q) :
  (lo <= hi)%Q ->
  exists x, PatchBasedDetector.clip (JS.Fin q) (JS.Fin lo) (JS.Fin hi)
            = JS.Fin x /\ (lo <= x <= hi)%Q.
Proof.
  intro H. unfold PatchBasedDetector.clip.
  rewrite Math_max_fin.
  destruct (Qlt_le_dec q lo); rewrite Math_min_fin;
    match goal with |- context [Qlt_le_dec ?a ?b] =>
      destruct (Qlt_le_dec a b) end;
    eexists; (split; [reflexivity | lra]).
Qed.

(** Peak focus without calibration, on patches with finite Tenengrad
    scores: a value in [0,100]. *)
Lemma peakFocus_in_range {M : MathLib} (self : PatchBasedDetector.t)
  (ps : list PatchScore) :
  PatchBasedDetector.calibrationStats self = None ->
  ps <> [] ->
  Forall (finite_key patch_tenengrad) ps ->
  in_range (PatchBasedDetector.calculatePeakFocus self ps).
Proof.
  intros Hc Hne Hfin. unfold PatchBasedDetector.calculatePeakFocus.
  rewrite Hc. cbv zeta.
  set (sorted := JS.sort (fun a b => patch_composite b - patch_composite a) ps).
  change (JS.Fin 3) with (JS.Fin (inject_Z 3)).
  rewrite slice0_nat by lia.
  set (top := firstn (Z.to_nat 3) sorted).
  assert (Ls : List.length sorted = List.length ps) by apply sort_length.
  assert (Lt : (0 < List.length top)%nat).
  { unfold top. rewrite length_firstn, Ls.
    destruct ps; [congruence | cbn; lia]. }
  assert (Ft : Forall (finite_key patch_tenengrad) top).
  { apply Forall_forall. intros s Hs. unfold top in Hs.
    apply In_firstn in Hs.
    rewrite Forall_forall in Hfin. apply Hfin.
    eapply Permutation_in; [apply sort_Permutation | exact Hs]. }
  destruct (finite_keys_map patch_tenengrad top Ft) as (qs & Eq & Lq).
  rewrite fold_left_add_map, Eq. unfold JS.zero, JS.of_nat.
  rewrite sum_loop_fin.
  assert (Hn : (0 < inject_Z (Z.of_nat (List.length top)))%Q).
  { change 0%Q with (inject_Z 0). rewrite <- Zlt_Qlt. lia. }
  rewrite div_fin by lra.
  fold JS.zero. fold (guarded_log10 (JS.Fin (fold_left Qplus qs 0 /
                          inject_Z (Z.of_nat (List.length top))))).
  destruct (guarded_log10_fin
              (fold_left Qplus qs 0 / inject_Z (Z.of_nat (List.length top))))
    as (x & Ex).
  rewrite Ex. rewrite !sub_fin. rewrite div_fin by (vm_compute; discriminate).
  destruct (patch_clip_fin ((x - 3.0) / (9.0 - 3.0)) 0 1) as (y & Ey & Hy);
    [lra|].
  unfold JS.zero. rewrite Ey. cbn [JS.mul].
  exists (100 * y)%Q. split; [reflexivity | lra].
Qed.

(** The constructor ties the detector to the algorithm name. *)
(* ================================================================== *)
(** ** The verdict of [analyze] *)
(* ================================================================== *)

Lemma new_detector_cases (options : BlurDetector.Options)
  (self : BlurDetector.t) :
  BlurDetector.new options = Ok self ->
  (BlurDetector.detector self = BlurDetector.DLaplacian) \/
  (BlurDetector.detector self = BlurDetector.DGradient) \/
  (BlurDetector.detector self = BlurDetector.DTenengrad) \/
  (BlurDetector.detector self = BlurDetector.DVariance) \/
  (exists d, BlurDetector.detector self = BlurDetector.DPatchBased d) \/
  (exists d, BlurDetector.detector self = BlurDetector.DComposite d /\
             BlurDetector.algorithm self <> "laplacian"%string /\
             BlurDetector.algorithm self <> "gradient"%string /\
             BlurDetector.algorithm self <> "tenengrad"%string /\
             BlurDetector.algorithm self <> "variance"%string /\
             BlurDetector.algorithm self <> "patch-based"%string).
Proof.
  unfold BlurDetector.new. cbv zeta.
  set (alg := BlurDetector.string_or (BlurDetector.opt_algorithm options)
                "composite").
  destruct (String.eqb alg "laplacian") eqn:E1;
    [intro H; injection H as <-; auto|].
  destruct (String.eqb alg "gradient") eqn:E2;
    [intro H; injection H as <-; auto|].
  destruct (String.eqb alg "tenengrad") eqn:E3;
    [intro H; injection H as <-; auto|].
  destruct (String.eqb alg "variance") eqn:E4;
    [intro H; injection H as <-; auto|].
  destruct (String.eqb alg "patch-based") eqn:E5;
    [intro H; injection H as <-; cbn [BlurDetector.detector]; eauto 10|].
  intro H. injection H as <-.
  cbn [BlurDetector.detector BlurDetector.algorithm].
  apply String.eqb_neq in E1, E2, E3, E4, E5.
  do 5 right. eexists. repeat split; assumption.
Qed.

(** On the supported strategy names the score that is reported and the
    score that is compared with the threshold are the same. *)
Lemma select_strategy_agree (scores : AggregationResult) (strategy : string) :
  In strategy supportedStrategies ->
  PatchBasedDetector.selectScore scores strategy =
  BlurDetector.strategyScore scores strategy.
Proof.
  intro H. unfold supportedStrategies in H. cbn [In] in H.
  repeat (destruct H as [<-|H]; [reflexivity|]). contradiction.
Qed.

Lemma round2_fin (q : Q) :
  exists b, round2 (JS.Fin q) = JS.Fin b /\
            (q - (1 # 200) < b)%Q /\ (b <= q + (1 # 200))%Q.
Proof.
  unfold round2. cbn [JS.mul JS.Math_round].
  rewrite div_fin by discriminate.
  eexists. split; [reflexivity|].
  pose proof (Qfloor_le (q * 100 + (1 # 2))) as F1.
  pose proof (Qlt_floor (q * 100 + (1 # 2))) as F2.
  rewrite inject_Z_plus in F2. change (inject_Z 1) with 1%Q in F2.
  set (k := inject_Z (Qfloor (q * 100 + (1 # 2)))) in *.
  assert (E : (k / 100 == k * (1 # 100))%Q) by field.
  rewrite E. split; lra.
Qed.


(* ================================================================== *)
(** ** Preview extraction *)
(* ================================================================== *)

Section PreviewFacts.
Context {E : ExifTool}.

Lemma tryTag_Some (tag filePath : string) (image : SharpImage) :
  PreviewExtractor.tryTag tag filePath = Some image <->
  usable tag filePath image.
Proof.
  unfold PreviewExtractor.tryTag, usable.
  destruct (extractTag tag filePath) as [[buffer|]|m]; cbn [bind].
  - destruct (0 <? binary_length buffer)%nat eqn:L.
    + apply Nat.ltb_lt in L.
      destruct (sharp_new buffer) as [image'|m] eqn:S; cbn [bind].
      * split.
        -- intro H. injection H as <-. exists buffer. auto.
        -- intros (b & Hb & _ & Hs). injection Hb as <-.
           rewrite S in Hs. injection Hs as <-. reflexivity.
      * split; [discriminate|].
        intros (b & Hb & _ & Hs). injection Hb as <-. congruence.
    + apply Nat.ltb_ge in L. split; [discriminate|].
      intros (b & Hb & Hl & _). injection Hb as <-. lia.
  - split; [discriminate|]. intros (b & Hb & _). discriminate.
  - split; [discriminate|]. intros (b & Hb & _). discriminate.
Qed.

Lemma tryTag_None (tag filePath : string) :
  PreviewExtractor.tryTag tag filePath = None <-> unusable filePath tag.
Proof.
  unfold unusable. split.
  - intros H image U. apply tryTag_Some in U. congruence.
  - intro H. destruct (PreviewExtractor.tryTag tag filePath) as [image|] eqn:T;
      [|reflexivity].
    apply tryTag_Some in T. exfalso. exact (H image T).
Qed.

(** The loop returns the image of the first usable tag. *)
Lemma tryTags_Some (tags : list string) (filePath : string)
  (image : SharpImage) :
  PreviewExtractor.tryTags tags filePath = Some image <->
  exists pre tag post,
    tags = pre ++ tag :: post /\ Forall (unusable filePath) pre /\
    usable tag filePath image.
Proof.
  induction tags as [|t tags IH]; cbn [PreviewExtractor.tryTags].
  - split; [discriminate|]. intros (pre & tag & post & H & _).
    destruct pre; discriminate.
  - destruct (PreviewExtractor.tryTag t filePath) as [image'|] eqn:T.
    + apply tryTag_Some in T. split.
      * intro H. injection H as <-. exists [], t, tags. auto.
      * intros (pre & tag & post & H & Hpre & U).
        destruct pre as [|p pre]; cbn [app] in H; injection H as E1 E2;
          subst.
        -- apply tryTag_Some in T, U. congruence.
        -- inversion Hpre as [|? ? Hp _]; subst. exfalso. exact (Hp _ T).
    + apply tryTag_None in T. rewrite IH. split.
      * intros (pre & tag & post & -> & Hpre & U).
        exists (t :: pre), tag, post. split; [reflexivity|].
        split; [constructor; assumption | exact U].
      * intros (pre & tag & post & H & Hpre & U).
        destruct pre as [|p pre]; cbn [app] in H; injection H as E1 E2;
          subst.
        -- exfalso. exact (T _ U).
        -- inversion Hpre; subst. exists pre, tag, post. auto.
Qed.

Lemma tryTags_None (tags : list string) (filePath : string) :
  PreviewExtractor.tryTags tags filePath = None <->
  Forall (unusable filePath) tags.
Proof.
  induction tags as [|t tags IH]; cbn [PreviewExtractor.tryTags].
  - split; [constructor | reflexivity].
  - destruct (PreviewExtractor.tryTag t filePath) as [image|] eqn:T.
    + apply tryTag_Some in T. split; [discriminate|].
      intro H. inversion H as [|? ? Ht _]; subst. exfalso. exact (Ht _ T).
    + apply tryTag_None in T. rewrite IH. split.
      * intro H. constructor; assumption.
      * intro H. inversion H; assumption.
Qed.
End PreviewFacts.

(** X13.  [extract] returns an image exactly when some preview tag is
    usable for the file (the metadata tool yields a non-empty buffer that
    the image library accepts), and the image is that of the first usable
    tag in the order PreviewImage, JpgFromRaw, OtherImage,
    ThumbnailImage. *)
Theorem extract_returns_first_usable_tag (E : ExifTool) (filePath : string)
  (image : SharpImage) :
  PreviewExtractor.extract filePath = Ok image <->
  exists pre tag post,
    PreviewExtractor.tagsToTry = pre ++ tag :: post /\
    Forall (unusable filePath) pre /\
    usable tag filePath image.
Proof.
  rewrite <- tryTags_Some. unfold PreviewExtractor.extract.
  destruct (PreviewExtractor.tryTags PreviewExtractor.tagsToTry filePath)
    as [image'|]; cbn [try_catch].
  - split; intro H; injection H as <-; reflexivity.
  - split; discriminate.
Qed.

Lemma extract_returns_first_usable_tag_witness :
  @PreviewExtractor.extract SampleExif "a.nef" = Ok [255; 216]%Z /\
  @unusable SampleExif "a.nef" "PreviewImage" /\
  @unusable SampleExif "a.nef" "JpgFromRaw" /\
  @usable SampleExif "OtherImage" "a.nef" [255; 216]%Z /\
  @usable SampleExif "ThumbnailImage" "a.nef" [1]%Z.
Proof.
  assert (U1 : @unusable SampleExif "a.nef" "PreviewImage").
  { intros image (b & Hb & _). discriminate. }
  assert (U2 : @unusable SampleExif "a.nef" "JpgFromRaw").
  { intros image (b & Hb & Hl & _). cbn in Hb. injection Hb as <-.
    cbn in Hl. lia. }
  assert (U3 : @usable SampleExif "OtherImage" "a.nef" [255; 216]%Z).
  { exists [255; 216]%Z. repeat split. cbn. lia. }
  assert (U4 : @usable SampleExif "ThumbnailImage" "a.nef" [1]%Z).
  { exists [1]%Z. repeat split. cbn. lia. }
  split; [|auto].
  apply (proj2 (extract_returns_first_usable_tag SampleExif "a.nef"
                  [255; 216]%Z)).
  exists ["PreviewImage"; "JpgFromRaw"]%string, "OtherImage"%string,
    ["ThumbnailImage"]%string.
  split; [reflexivity|]. split; [|exact U3].
  constructor; [exact U1|]. constructor; [exact U2 | constructor].
Defined.

(** X14.  [extract] fails exactly when no preview tag is usable.  Its
    only failure message is ['Failed to extract preview from <file>: No
    preview image found in RAW file']: the rejections of the metadata tool
    and of the image library are never reported.  [extractToFile] fails
    with the same message when [extract] does. *)
Theorem extract_failure_message (E : ExifTool) (filePath : string) :
  (Forall (unusable filePath) PreviewExtractor.tagsToTry <->
   PreviewExtractor.extract filePath =
   Throw ("Failed to extract preview from " ++ filePath ++
          ": No preview image found in RAW file")%string) /\
  (forall m,
      PreviewExtractor.extract filePath = Throw m ->
      m = ("Failed to extract preview from " ++ filePath ++
           ": No preview image found in RAW file")%string) /\
  (forall outputPath m,
      PreviewExtractor.extract filePath = Throw m ->
      PreviewExtractor.extractToFile filePath outputPath = Throw m).
Proof.
  unfold PreviewExtractor.extractToFile, PreviewExtractor.extract.
  rewrite <- tryTags_None.
  destruct (PreviewExtractor.tryTags PreviewExtractor.tagsToTry filePath)
    as [image|]; cbn [try_catch bind].
  - split; [split; discriminate|]. split; discriminate.
  - split; [split; reflexivity|]. split.
    + intros m H. injection H as <-. reflexivity.
    + intros outputPath m H. injection H as <-. reflexivity.
Qed.

Lemma extract_failure_message_witness :
  Forall (@unusable SampleExif "b.nef") PreviewExtractor.tagsToTry /\
  @PreviewExtractor.extract SampleExif "b.nef" =
  Throw "Failed to extract preview from b.nef: No preview image found in RAW file".
Proof.
  assert (U : Forall (@unusable SampleExif "b.nef")
                     PreviewExtractor.tagsToTry).
  { repeat (apply Forall_cons;
            [intros image (b & Hb & _); discriminate|]).
    apply Forall_nil. }
  split; [exact U|].
  exact (proj1 (proj1 (extract_failure_message SampleExif "b.nef")) U).
Defined.
(* ================================================================== *)
(** ** File scanning *)
(* ================================================================== *)

Lemma string_leb_trans (a b c : string) :
  String.leb a b = true -> String.leb b c = true -> String.leb a c = true.
Proof.
  unfold String.leb. revert b c.
  induction a as [|c1 a IH]; intros [|c2 b] [|c3 c];
    cbn [String.compare]; try congruence; try reflexivity.
  unfold Ascii.compare.
  destruct (N.compare_spec (N_of_ascii c1) (N_of_ascii c2)) as [E12|L12|G12];
    destruct (N.compare_spec (N_of_ascii c2) (N_of_ascii c3)) as [E23|L23|G23];
    destruct (N.compare_spec (N_of_ascii c1) (N_of_ascii c3)) as [E13|L13|G13];
    try congruence; try lia; try reflexivity.
  apply IH.
Qed.

Lemma defaultCompare_gt (a b : string) :
  (FileScanner.defaultCompare a b > JS.zero) = true ->
  String.leb b a = true.
Proof.
  unfold FileScanner.defaultCompare, String.leb.
  rewrite (String.compare_antisym b a).
  destruct (String.compare a b); cbn; congruence.
Qed.

Lemma defaultCompare_le (a b : string) :
  (FileScanner.defaultCompare a b > JS.zero) = false ->
  String.leb a b = true.
Proof.
  unfold FileScanner.defaultCompare, String.leb.
  destruct (String.compare a b); cbn; congruence.
Qed.

Lemma sortStrings_sorted (files : list string) :
  StronglySorted (fun a b => String.leb a b = true)
                 (FileScanner.sortStrings files).
Proof.
  unfold FileScanner.sortStrings.
  apply (sort_sorted FileScanner.defaultCompare
           (fun a b => String.leb a b = true) (fun _ => True)).
  - intros x y z. apply string_leb_trans.
  - intros x y _ _. apply defaultCompare_gt.
  - intros x y _ _. apply defaultCompare_le.
  - apply Forall_forall. intros; exact I.
Qed.

Lemma includes_In (arr : list string) (s : string) :
  FileScanner.includes arr s = true <-> In s arr.
Proof.
  unfold FileScanner.includes. rewrite existsb_exists. split.
  - intros (x & Hx & E). apply String.eqb_eq in E. subst. exact Hx.
  - intro H. exists s. split; [exact H | apply String.eqb_refl].
Qed.

Lemma dedupe_loop (files acc : list string) :
  NoDup acc ->
  let r := fold_left (fun uniqueFiles f =>
                        if FileScanner.includes uniqueFiles f
                        then uniqueFiles else uniqueFiles ++ [f])
                     files acc in
  NoDup r /\ forall f, In f r <-> In f acc \/ In f files.
Proof.
  revert acc. induction files as [|g files IH]; intros acc Hacc; cbn [fold_left].
  - split; [exact Hacc|]. intro f. cbn. tauto.
  - destruct (FileScanner.includes acc g) eqn:E.
    + apply includes_In in E.
      destruct (IH acc Hacc) as (N & I). split; [exact N|].
      intro f. rewrite I. cbn [In]. split; [tauto|].
      intros [H|[<-|H]]; auto.
    + assert (Hg : ~ In g acc).
      { intro H. apply includes_In in H. congruence. }
      destruct (IH (acc ++ [g])) as (N & I).
      { apply NoDup_app; [exact Hacc | repeat constructor; intros [] |].
        intros a Ha [<-|[]]. contradiction. }
      split; [exact N|]. intro f. rewrite I, in_app_iff. cbn [In]. tauto.
Qed.

Lemma dedupe_spec (files : list string) :
  NoDup (FileScanner.dedupe files) /\
  forall f, In f (FileScanner.dedupe files) <-> In f files.
Proof.
  destruct (dedupe_loop files [] (NoDup_nil _)) as (N & I).
  split; [exact N|]. intro f. unfold FileScanner.dedupe. rewrite I.
  cbn [In]. tauto.
Qed.

(** A loop that appends the matches of each pattern. *)
Lemma concat_loop_Ok {A B : Type} (step : B -> Exc (list A)) (l : list B)
  (init r : list A) :
  fold_left (fun acc b => xs <- acc ;; ys <- step b ;; Ok (xs ++ ys))
            l (Ok init) = Ok r ->
  forall a, In a r <->
            In a init \/ exists b ys, In b l /\ step b = Ok ys /\ In a ys.
Proof.
  revert init. induction l as [|b l IH]; intros init H a.
  - cbn in H. injection H as <-. split; [auto|].
    intros [H|(b & ys & [] & _)]. exact H.
  - set (f := fun acc b => xs <- acc ;; ys <- step b ;; Ok (xs ++ ys)) in *.
    cbn [fold_left] in H.
    assert (Ef : f (Ok init) b =
                 match step b with
                 | Ok ys => Ok (init ++ ys)
                 | Throw m => Throw m
                 end) by reflexivity.
    rewrite Ef in H. destruct (step b) as [ys|m] eqn:E.
    + rewrite (IH _ H a), in_app_iff. cbn [In]. split.
      * intros [[Hi|Hy]|(b' & ys' & Hb & Hs & Ha)]; [auto | |].
        -- right. exists b, ys. auto.
        -- right. exists b', ys'. auto.
      * intros [Hi|(b' & ys' & [<-|Hb] & Hs & Ha)]; [auto | |].
        -- rewrite E in Hs. injection Hs as <-. auto.
        -- right. exists b', ys'. auto.
    + unfold f in H.
      rewrite (loop_Throw (fun xs b => ys <- step b ;; Ok (xs ++ ys))) in H.
      discriminate.
Qed.

Lemma concat_loop_Throw {A B : Type} (step : B -> Exc (list A)) (l : list B)
  (init : list A) (m : string) :
  fold_left (fun acc b => xs <- acc ;; ys <- step b ;; Ok (xs ++ ys))
            l (Ok init) = Throw m ->
  exists b, In b l /\ step b = Throw m.
Proof.
  revert init. induction l as [|b l IH]; intros init H; [discriminate|].
  set (f := fun acc b => xs <- acc ;; ys <- step b ;; Ok (xs ++ ys)) in *.
  cbn [fold_left] in H.
  assert (Ef : f (Ok init) b =
               match step b with
               | Ok ys => Ok (init ++ ys)
               | Throw m => Throw m
               end) by reflexivity.
  rewrite Ef in H. destruct (step b) as [ys|m'] eqn:E.
  - destruct (IH _ H) as (b' & Hb & Hs). exists b'. split; [right|]; auto.
  - unfold f in H.
    rewrite (loop_Throw (fun xs b => ys <- step b ;; Ok (xs ++ ys))) in H.
    injection H as <-. exists b. split; [left; reflexivity | exact E].
Qed.

(** X15.  [scan] of a path that is a file with a supported extension
    returns just the resolved path.  In every other case (the path cannot
    be inspected, is not a file, or is a file with an unsupported
    extension) it behaves as the directory scan: the error 'Unsupported
    file format' is caught inside [scan] and never reaches the caller.  An
    exception of [scan] is always a rejection of [glob] for one of its
    patterns. *)
Theorem scan_of_a_single_file (L : PathLib) (D : Directory)
  (dirPath : string) (options : FileScanner.Options) :
  (stat_isFile dirPath = Ok true ->
   FileScanner.isSupported dirPath = true ->
   FileScanner.scan dirPath options = Ok [path_resolve dirPath]) /\
  (stat_isFile dirPath <> Ok true \/
   FileScanner.isSupported dirPath = false ->
   FileScanner.scan dirPath options =
   FileScanner.scanDirectory dirPath options) /\
  (forall m,
      FileScanner.scan dirPath options = Throw m ->
      exists pattern,
        In pattern (FileScanner.patternsOf dirPath options) /\
        glob pattern = Throw m).
Proof.
  unfold FileScanner.scan, FileScanner.singleFile.
  split; [|split].
  - intros Hs Hi. rewrite Hs. cbn [bind]. rewrite Hi. reflexivity.
  - intros H.
    destruct (stat_isFile dirPath) as [[|]|m']; cbn [bind];
      try reflexivity.
    destruct H as [H|H]; [congruence|]. rewrite H. reflexivity.
  - intros m H.
    assert (Hd : FileScanner.scanDirectory dirPath options = Throw m).
    { destruct (stat_isFile dirPath) as [[|]|m']; cbn [bind] in H;
        try exact H.
      destruct (FileScanner.isSupported dirPath); [discriminate | exact H]. }
    unfold FileScanner.scanDirectory in Hd.
    destruct (fold_left _ (FileScanner.patternsOf dirPath options) (Ok []))
      as [files|m'] eqn:El; [discriminate|].
    cbn [bind] in Hd. injection Hd as <-.
    apply concat_loop_Throw in El. exact El.
Qed.

(** X16.  A successful directory scan returns each matching file
    once, sorted in ascending order of character codes, and it returns
    exactly the files that [glob] matched for one of the patterns. *)
Theorem scan_of_a_directory (L : PathLib) (D : Directory)
  (dirPath : string) (options : FileScanner.Options) (files : list string) :
  FileScanner.scanDirectory dirPath options = Ok files ->
  NoDup files /\
  StronglySorted (fun a b => String.leb a b = true) files /\
  (forall f,
      In f files <->
      exists pattern matches,
        In pattern (FileScanner.patternsOf dirPath options) /\
        glob pattern = Ok matches /\ In f matches).
Proof.
  intro H. unfold FileScanner.scanDirectory in H.
  destruct (fold_left _ (FileScanner.patternsOf dirPath options) (Ok []))
    as [found|m] eqn:El; [|discriminate].
  cbn [bind] in H. injection H as <-.
  destruct (dedupe_spec found) as (N & I).
  pose proof (sort_Permutation FileScanner.defaultCompare
                (FileScanner.dedupe found)) as Perm.
  fold (FileScanner.sortStrings (FileScanner.dedupe found)) in Perm.
  split; [|split].
  - eapply Permutation_NoDup; [symmetry; exact Perm | exact N].
  - apply sortStrings_sorted.
  - intro f. pose proof (concat_loop_Ok glob _ [] found El f) as C.
    split.
    + intro Hf. apply (Permutation_in _ Perm) in Hf. apply I in Hf.
      apply C in Hf. destruct Hf as [[]|Hf]. exact Hf.
    + intro Hf. apply (Permutation_in _ (Permutation_sym Perm)).
      apply I. apply C. right. exact Hf.
Qed.

Lemma scan_of_a_single_file_witness :
  @stat_isFile SampleDirectory "/photos/a.nef" = Ok true /\
  @FileScanner.isSupported SamplePath "/photos/a.nef" = true /\
  @FileScanner.scan SamplePath SampleDirectory "/photos/a.nef" scanAll
    = Ok ["/photos/a.nef"%string] /\
  @stat_isFile SampleDirectory "/photos/notes.txt" = Ok true /\
  @FileScanner.isSupported SamplePath "/photos/notes.txt" = false /\
  @FileScanner.scan SamplePath SampleDirectory "/photos/notes.txt" scanAll
    = Ok [].
Proof.
  destruct (scan_of_a_single_file SamplePath SampleDirectory
              "/photos/a.nef" scanAll) as (H1 & _ & _).
  destruct (scan_of_a_single_file SamplePath SampleDirectory
              "/photos/notes.txt" scanAll) as (_ & H2 & _).
  split; [reflexivity|]. split; [reflexivity|].
  split; [apply H1; reflexivity|].
  split; [reflexivity|]. split; [reflexivity|].
  rewrite H2 by (right; reflexivity). reflexivity.
Defined.

Lemma scan_of_a_directory_witness :
  @FileScanner.scanDirectory SamplePath SampleDirectory "/photos" scanAll
    = Ok ["/photos/a.nef"; "/photos/b.NEF"; "/photos/c.dng"]%string /\
  NoDup ["/photos/a.nef"; "/photos/b.NEF"; "/photos/c.dng"]%string /\
  StronglySorted (fun a b => String.leb a b = true)
    ["/photos/a.nef"; "/photos/b.NEF"; "/photos/c.dng"]%string.
Proof.
  assert (E : @FileScanner.scanDirectory SamplePath SampleDirectory
                "/photos" scanAll
              = Ok ["/photos/a.nef"; "/photos/b.NEF"; "/photos/c.dng"]%string)
    by reflexivity.
  split; [exact E|].
  destruct (scan_of_a_directory SamplePath SampleDirectory "/photos" scanAll
              _ E) as (N & S & _).
  split; assumption.
Defined.
(* ================================================================== *)
(** ** File operations *)
(* ================================================================== *)

Section FileOperationFacts.
Context {L : PathLib} {F : FileSystem}.

(** The four single operations catch every rejection. *)
Lemma copyFile_returns (src dst : string) (disk : Disk) :
  exists res disk', FileOperations.copyFile src dst disk = (Ok res, disk').
Proof.
  unfold FileOperations.copyFile, io_catch, io_bind, io_ret.
  destruct (fs_copyFile src dst disk) as [[[]|m] d]; eauto.
Qed.

Lemma moveFile_returns (src dst : string) (disk : Disk) :
  exists res disk', FileOperations.moveFile src dst disk = (Ok res, disk').
Proof.
  unfold FileOperations.moveFile, io_catch, io_bind, io_ret.
  destruct (fs_rename src dst disk) as [[[]|m] d]; [eauto|].
  destruct (fs_copyFile src dst d) as [[[]|m'] d']; [|eauto].
  destruct (fs_unlink src d') as [[[]|m''] d'']; eauto.
Qed.

Lemma renameFileWithSuffix_returns (src suffix : string) (disk : Disk) :
  exists res disk',
    FileOperations.renameFileWithSuffix src suffix disk = (Ok res, disk').
Proof.
  unfold FileOperations.renameFileWithSuffix, io_catch, io_bind, io_ret.
  cbv zeta.
  destruct (fs_rename src _ disk) as [[[]|m] d]; eauto.
Qed.

(** One turn of the loop: it returns, with one more operation, for the
    file at hand, and one more count; a dry run leaves the disk as it
    is. *)
Lemma processOne_returns (outputDir : string)
  (options : FileOperations.Options) (result : AnalyzeResult)
  (progress : FileOperations.Progress) (disk : Disk) :
  exists op progress' disk',
    FileOperations.processOne outputDir options result progress disk
    = (Ok progress', disk') /\
    FileOperations.done progress' = FileOperations.done progress ++ [op] /\
    FileOperations.source op = file result /\
    FileOperations.op_blurScore op = blurScore result /\
    (FileOperations.dryRun options = true ->
     disk' = disk /\ FileOperations.status op = "dry-run"%string /\
     FileOperations.n_skipped progress' =
       S (FileOperations.n_skipped progress) /\
     FileOperations.n_successful progress' =
       FileOperations.n_successful progress /\
     FileOperations.n_failed progress' = FileOperations.n_failed progress) /\
    (FileOperations.dryRun options = false ->
     FileOperations.n_skipped progress' = FileOperations.n_skipped progress /\
     (FileOperations.n_successful progress' + FileOperations.n_failed progress'
      = S (FileOperations.n_successful progress +
           FileOperations.n_failed progress))%nat).
Proof.
  unfold FileOperations.processOne.
  destruct (FileOperations.plan outputDir options result) as [dest act].
  destruct (FileOperations.dryRun options) eqn:Ed.
  - unfold io_ret. do 3 eexists. split; [reflexivity|].
    cbn [FileOperations.done FileOperations.n_skipped
         FileOperations.n_successful FileOperations.n_failed].
    split; [reflexivity|]. cbn [FileOperations.source
      FileOperations.op_blurScore FileOperations.status].
    split; [reflexivity|]. split; [reflexivity|].
    split; [|discriminate].
    intros _. repeat split. lia.
  - assert (Hop : exists res disk',
              (if FileOperations.rename options
               then FileOperations.renameFileWithSuffix (file result)
                      (FileOperations.suffix options)
               else if FileOperations.move options
                    then FileOperations.moveFile (file result) dest
                    else FileOperations.copyFile (file result) dest) disk
              = (Ok res, disk')).
    { destruct (FileOperations.rename options);
        [apply renameFileWithSuffix_returns|].
      destruct (FileOperations.move options);
        [apply moveFile_returns | apply copyFile_returns]. }
    destruct Hop as (res & disk' & Hop).
    unfold io_bind at 1. rewrite Hop.
    destruct (FileOperations.success res); unfold io_ret;
      do 3 eexists; (split; [reflexivity|]);
      cbn [FileOperations.done FileOperations.n_skipped
           FileOperations.n_successful FileOperations.n_failed
           FileOperations.source FileOperations.op_blurScore];
      (split; [reflexivity|]); (split; [reflexivity|]);
      (split; [reflexivity|]); (split; [discriminate|]);
      intros _; split; lia.
Qed.

(** The loop over the blurry files. *)
Lemma process_loop (outputDir : string) (options : FileOperations.Options)
  (files : list AnalyzeResult) (acc : IO FileOperations.Progress)
  (progress : FileOperations.Progress) (disk d : Disk) :
  acc disk = (Ok progress, d) ->
  exists ops progress' d',
    fold_left (fun acc result =>
                 io_bind acc (fun progress =>
                   FileOperations.processOne outputDir options result
                     progress))
              files acc disk = (Ok progress', d') /\
    FileOperations.done progress' = FileOperations.done progress ++ ops /\
    map FileOperations.source ops = map file files /\
    map FileOperations.op_blurScore ops = map blurScore files /\
    (FileOperations.dryRun options = true ->
     d' = d /\
     Forall (fun op => FileOperations.status op = "dry-run"%string) ops /\
     FileOperations.n_skipped progress' =
       (FileOperations.n_skipped progress + List.length files)%nat /\
     FileOperations.n_successful progress' =
       FileOperations.n_successful progress /\
     FileOperations.n_failed progress' = FileOperations.n_failed progress) /\
    (FileOperations.dryRun options = false ->
     FileOperations.n_skipped progress' = FileOperations.n_skipped progress /\
     (FileOperations.n_successful progress' + FileOperations.n_failed progress'
      = FileOperations.n_successful progress +
        FileOperations.n_failed progress + List.length files)%nat).
Proof.
  revert acc progress d.
  induction files as [|result files IH]; intros acc progress d Hacc.
  - exists [], progress, d. cbn [fold_left map List.length].
    split; [exact Hacc|]. rewrite app_nil_r.
    repeat split; try reflexivity; try lia. constructor.
  - cbn [fold_left].
    destruct (processOne_returns outputDir options result progress d)
      as (op & p1 & d1 & H1 & Hd1 & Hs1 & Hb1 & Hdry1 & Hwet1).
    destruct (IH (io_bind acc (fun progress =>
                    FileOperations.processOne outputDir options result
                      progress)) p1 d1)
      as (ops & p2 & d2 & H2 & Hd2 & Hs2 & Hb2 & Hdry2 & Hwet2).
    { unfold io_bind. rewrite Hacc. exact H1. }
    exists (op :: ops), p2, d2. split; [exact H2|].
    split; [rewrite Hd2, Hd1, <- app_assoc; reflexivity|].
    cbn [map List.length]. split; [rewrite Hs1, Hs2; reflexivity|].
    split; [rewrite Hb1, Hb2; reflexivity|].
    split.
    + intro Hd. destruct (Hdry1 Hd) as (E1 & S1 & K1 & A1 & B1).
      destruct (Hdry2 Hd) as (E2 & S2 & K2 & A2 & B2).
      split; [congruence|]. split; [constructor; assumption|].
      split; [lia|]. split; congruence.
    + intro Hd. destruct (Hwet1 Hd) as (K1 & C1).
      destruct (Hwet2 Hd) as (K2 & C2). split; [congruence | lia].
Qed.
End FileOperationFacts.
Section ProcessFacts.
Context {L : PathLib} {F : FileSystem}.

(** The step before the loop: the output directory is created unless the
    run is a dry run or renames in place. *)
Lemma prepare_cases (outputDir : string) (options : FileOperations.Options)
  (disk : Disk) :
  let prepare :=
    if negb (FileOperations.dryRun options) &&
       negb (FileOperations.rename options) then
      io_bind (FileOperations.ensureDirectory outputDir) (fun dirResult =>
        if FileOperations.success dirResult then io_ret tt
        else io_throw ("Failed to create directory " ++ outputDir ++ ": " ++
                       FileOperations.text
                         (FileOperations.res_error dirResult))%string)
    else io_ret tt in
  (FileOperations.dryRun options = true /\ prepare disk = (Ok tt, disk)) \/
  (FileOperations.dryRun options = false /\
   FileOperations.rename options = true /\ prepare disk = (Ok tt, disk)) \/
  (FileOperations.dryRun options = false /\
   FileOperations.rename options = false /\
   exists d, fs_mkdir outputDir disk = (Ok tt, d) /\
             prepare disk = (Ok tt, d)) \/
  (FileOperations.dryRun options = false /\
   FileOperations.rename options = false /\
   exists e d, fs_mkdir outputDir disk = (Throw e, d) /\
               prepare disk =
               (Throw ("Failed to create directory " ++ outputDir ++ ": " ++
                       e)%string, d)).
Proof.
  cbv zeta.
  destruct (FileOperations.dryRun options); [left; split; reflexivity|].
  destruct (FileOperations.rename options);
    [right; left; repeat split; reflexivity|].
  cbn [negb andb].
  unfold FileOperations.ensureDirectory, io_bind, io_catch, io_ret, io_throw.
  destruct (fs_mkdir outputDir disk) as [[[]|e] d] eqn:E.
  - right; right; left. repeat split. exists d. split; reflexivity.
  - right; right; right. repeat split. exists e, d. split; reflexivity.
Qed.
End ProcessFacts.

(** X17.  A report of [processBlurryFiles] accounts for every blurry
    file: [total] is the number of results that are blurry and carry no
    error, [operations] lists those files with their blur scores in the
    order of the results, and [successful + failed + skipped = total].
    Nothing is skipped outside a dry run, and everything is skipped in a
    dry run. *)
Theorem processBlurryFiles_accounts_for_every_file (L : PathLib)
  (F : FileSystem) (results : list AnalyzeResult) (outputDir : string)
  (options : FileOperations.Options) (disk disk' : Disk)
  (report : FileOperations.Report) :
  FileOperations.processBlurryFiles results outputDir options disk
    = (Ok report, disk') ->
  FileOperations.total report =
    List.length (filter FileOperations.isBlurryResult results) /\
  map FileOperations.source (FileOperations.operations report) =
    map file (filter FileOperations.isBlurryResult results) /\
  map FileOperations.op_blurScore (FileOperations.operations report) =
    map blurScore (filter FileOperations.isBlurryResult results) /\
  (FileOperations.successful report + FileOperations.failed report +
   FileOperations.skipped report = FileOperations.total report)%nat /\
  (FileOperations.dryRun options = false ->
   FileOperations.skipped report = 0%nat) /\
  (FileOperations.dryRun options = true ->
   FileOperations.skipped report = FileOperations.total report).
Proof.
  unfold FileOperations.processBlurryFiles. cbv zeta.
  destruct (filter FileOperations.isBlurryResult results) as [|b bs] eqn:Eb.
  - unfold io_ret. intro H. injection H as <- _. cbn. repeat split.
  - set (files := b :: bs) in *. intro H.
    set (p0 := {| FileOperations.done := [];
                  FileOperations.n_successful := 0;
                  FileOperations.n_failed := 0;
                  FileOperations.n_skipped := 0 |}) in *.
    assert (Hloop : forall d0, exists ops p d',
              fold_left (fun acc result =>
                           io_bind acc (fun progress =>
                             FileOperations.processOne outputDir options
                               result progress))
                        files (io_ret p0) d0 = (Ok p, d') /\
              FileOperations.done p = ops /\
              map FileOperations.source ops = map file files /\
              map FileOperations.op_blurScore ops = map blurScore files /\
              (FileOperations.dryRun options = true ->
               FileOperations.n_skipped p = List.length files /\
               FileOperations.n_successful p = 0%nat /\
               FileOperations.n_failed p = 0%nat) /\
              (FileOperations.dryRun options = false ->
               FileOperations.n_skipped p = 0%nat /\
               (FileOperations.n_successful p + FileOperations.n_failed p
                = List.length files)%nat)).
    { intro d0.
      destruct (process_loop outputDir options files (io_ret p0) p0 d0 d0
                  eq_refl)
        as (ops & p & d' & Hl & Hd & Hs & Hbs & Hdry & Hwet).
      exists ops, p, d'. split; [exact Hl|]. split; [exact Hd|].
      split; [exact Hs|]. split; [exact Hbs|]. split.
      - intro Ed. destruct (Hdry Ed) as (_ & _ & K & A & B).
        cbn in K, A, B. auto.
      - intro Ed. destruct (Hwet Ed) as (K & C). cbn in K, C. auto. }
    unfold io_bind at 1 in H.
    destruct (prepare_cases outputDir options disk)
      as [(Ed & Ep)|[(Ed & Er & Ep)|[(Ed & Er & d & _ & Ep)|
          (Ed & Er & e & d & _ & Ep)]]];
      cbv zeta in Ep; rewrite Ep in H; [| | |discriminate].
    + destruct (Hloop disk) as (ops & p & d' & Hl & Hd & Hs & Hbs & Hdry & _).
      unfold io_bind at 1 in H. rewrite Hl in H. unfold io_ret in H.
      injection H as <- _.
      cbn [FileOperations.total FileOperations.successful
           FileOperations.failed FileOperations.skipped
           FileOperations.operations].
      destruct (Hdry Ed) as (K & A & B). rewrite Hd.
      unfold files in *. cbn [List.length] in *.
      repeat split; try assumption;
        first [lia | intros; congruence | intros; lia].
    + destruct (Hloop disk) as (ops & p & d' & Hl & Hd & Hs & Hbs & _ & Hwet).
      unfold io_bind at 1 in H. rewrite Hl in H. unfold io_ret in H.
      injection H as <- _.
      cbn [FileOperations.total FileOperations.successful
           FileOperations.failed FileOperations.skipped
           FileOperations.operations].
      destruct (Hwet Ed) as (K & C). rewrite Hd.
      unfold files in *. cbn [List.length] in *.
      repeat split; try assumption;
        first [lia | intros; congruence | intros; lia].
    + destruct (Hloop d) as (ops & p & d' & Hl & Hd & Hs & Hbs & _ & Hwet).
      unfold io_bind at 1 in H. rewrite Hl in H. unfold io_ret in H.
      injection H as <- _.
      cbn [FileOperations.total FileOperations.successful
           FileOperations.failed FileOperations.skipped
           FileOperations.operations].
      destruct (Hwet Ed) as (K & C). rewrite Hd.
      unfold files in *. cbn [List.length] in *.
      repeat split; try assumption;
        first [lia | intros; congruence | intros; lia].
Qed.
(** X18.  A dry run of [processBlurryFiles] always returns a report,
    leaves the disk exactly as it was, counts every blurry file as skipped
    and none as successful or failed, and gives every operation the status
    ['dry-run']. *)
Theorem dry_run_leaves_the_disk_alone (L : PathLib) (F : FileSystem)
  (results : list AnalyzeResult) (outputDir : string)
  (options : FileOperations.Options) (disk : Disk) :
  FileOperations.dryRun options = true ->
  exists report,
    FileOperations.processBlurryFiles results outputDir options disk
      = (Ok report, disk) /\
    FileOperations.skipped report = FileOperations.total report /\
    FileOperations.successful report = 0%nat /\
    FileOperations.failed report = 0%nat /\
    List.length (FileOperations.operations report) =
      FileOperations.total report /\
    Forall (fun op => FileOperations.status op = "dry-run"%string)
           (FileOperations.operations report).
Proof.
  intro Ed. unfold FileOperations.processBlurryFiles. cbv zeta.
  destruct (filter FileOperations.isBlurryResult results) as [|b bs] eqn:Eb.
  - eexists. split; [reflexivity|]. cbn. repeat split. constructor.
  - set (files := b :: bs) in *.
    set (p0 := {| FileOperations.done := [];
                  FileOperations.n_successful := 0;
                  FileOperations.n_failed := 0;
                  FileOperations.n_skipped := 0 |}).
    destruct (process_loop outputDir options files (io_ret p0) p0 disk disk
                eq_refl)
      as (ops & p & d' & Hl & Hd & Hs & _ & Hdry & _).
    destruct (Hdry Ed) as (-> & St & K & A & B).
    rewrite Ed. cbn [negb andb].
    unfold io_bind at 1. unfold io_ret at 1.
    unfold io_bind at 1. rewrite Hl. unfold io_ret.
    eexists. split; [reflexivity|].
    cbn [FileOperations.total FileOperations.successful
         FileOperations.failed FileOperations.skipped
         FileOperations.operations].
    cbn in K, A, B, Hd. rewrite Hd.
    split; [exact K|]. split; [exact A|]. split; [exact B|].
    split; [|exact St].
    rewrite <- (length_map FileOperations.source), Hs. apply length_map.
Qed.

(** X19.  Without blurry files [processBlurryFiles] returns the empty
    report and leaves the disk alone.  It throws in exactly one situation:
    there are blurry files, the run is neither a dry run nor a rename, and
    the output directory cannot be created; the message is then ['Failed to
    create directory <dir>: <cause>'].  A failing copy, move or rename of a
    file never throws. *)
Theorem processBlurryFiles_throws_only_for_the_directory (L : PathLib)
  (F : FileSystem) (results : list AnalyzeResult) (outputDir : string)
  (options : FileOperations.Options) (disk : Disk) :
  (filter FileOperations.isBlurryResult results = [] ->
   FileOperations.processBlurryFiles results outputDir options disk =
   (Ok {| FileOperations.total := 0; FileOperations.successful := 0;
          FileOperations.failed := 0; FileOperations.skipped := 0;
          FileOperations.operations := [] |}, disk)) /\
  (forall m disk',
      FileOperations.processBlurryFiles results outputDir options disk
        = (Throw m, disk') <->
      filter FileOperations.isBlurryResult results <> [] /\
      FileOperations.dryRun options = false /\
      FileOperations.rename options = false /\
      exists e,
        fs_mkdir outputDir disk = (Throw e, disk') /\
        m = ("Failed to create directory " ++ outputDir ++ ": " ++ e)%string).
Proof.
  unfold FileOperations.processBlurryFiles. cbv zeta.
  destruct (filter FileOperations.isBlurryResult results) as [|b bs] eqn:Eb.
  - split; [reflexivity|]. intros m disk'. unfold io_ret.
    split; [discriminate|]. intros (H & _). congruence.
  - split; [discriminate|]. intros m disk'.
    set (files := b :: bs) in *.
    set (p0 := {| FileOperations.done := [];
                  FileOperations.n_successful := 0;
                  FileOperations.n_failed := 0;
                  FileOperations.n_skipped := 0 |}).
    assert (Hloop : forall d0, exists p d',
              fold_left (fun acc result =>
                           io_bind acc (fun progress =>
                             FileOperations.processOne outputDir options
                               result progress))
                        files (io_ret p0) d0 = (Ok p, d')).
    { intro d0.
      destruct (process_loop outputDir options files (io_ret p0) p0 d0 d0
                  eq_refl) as (ops & p & d' & Hl & _).
      eauto. }
    unfold io_bind at 1.
    destruct (prepare_cases outputDir options disk)
      as [(Ed & Ep)|[(Ed & Er & Ep)|[(Ed & Er & d & Em & Ep)|
          (Ed & Er & e & d & Em & Ep)]]];
      cbv zeta in Ep; rewrite Ep.
    + destruct (Hloop disk) as (p & d' & Hl).
      unfold io_bind at 1. rewrite Hl. unfold io_ret.
      split; [discriminate|]. intros (_ & E & _). congruence.
    + destruct (Hloop disk) as (p & d' & Hl).
      unfold io_bind at 1. rewrite Hl. unfold io_ret.
      split; [discriminate|]. intros (_ & _ & E & _). congruence.
    + destruct (Hloop d) as (p & d' & Hl).
      unfold io_bind at 1. rewrite Hl. unfold io_ret.
      split; [discriminate|]. intros (_ & _ & _ & e & E & _). congruence.
    + split.
      * intro H. injection H as <- <-.
        split; [discriminate|]. split; [exact Ed|]. split; [exact Er|].
        exists e. split; [exact Em | reflexivity].
      * intros (_ & _ & _ & e' & E & ->). rewrite Em in E.
        injection E as <- <-. reflexivity.
Qed.


Lemma processBlurryFiles_accounts_for_every_file_witness :
  exists report,
    @FileOperations.processBlurryFiles SamplePath SampleFS sampleVerdicts
      "/out" copyOptions sampleDisk
    = (Ok report, sampleDisk ++ ["/out/a.nef"%string]) /\
    FileOperations.total report = 2%nat /\
    FileOperations.successful report = 1%nat /\
    FileOperations.failed report = 1%nat /\
    FileOperations.skipped report = 0%nat /\
    map FileOperations.source (FileOperations.operations report) =
      ["/photos/a.nef"; "/photos/c.nef"]%string.
Proof.
  destruct (@FileOperations.processBlurryFiles SamplePath SampleFS
              sampleVerdicts "/out" copyOptions sampleDisk)
    as [[report|m] disk'] eqn:E; [|vm_compute in E; discriminate].
  destruct (processBlurryFiles_accounts_for_every_file SamplePath SampleFS
              sampleVerdicts "/out" copyOptions sampleDisk disk' report E)
    as (Ht & Hs & _ & Hc & Hw & _).
  exists report.
  assert (Ed : disk' = sampleDisk ++ ["/out/a.nef"%string])
    by (vm_compute in E; injection E as _ <-; reflexivity).
  assert (Es : FileOperations.successful report = 1%nat)
    by (vm_compute in E; injection E as <- _; reflexivity).
  rewrite Ed. split; [reflexivity|]. split; [exact Ht|].
  split; [exact Es|].
  specialize (Hw eq_refl). rewrite Ht, Es, Hw in Hc. cbn in Hc.
  split; [lia|]. split; [exact Hw | exact Hs].
Defined.

Lemma dry_run_leaves_the_disk_alone_witness :
  FileOperations.dryRun dryRunOptions = true /\
  exists report,
    @FileOperations.processBlurryFiles SamplePath SampleFS sampleVerdicts
      "/backup/out" dryRunOptions sampleDisk = (Ok report, sampleDisk) /\
    FileOperations.skipped report = 2%nat /\
    FileOperations.total report = 2%nat /\
    Forall (fun op => FileOperations.status op = "dry-run"%string)
           (FileOperations.operations report).
Proof.
  split; [reflexivity|].
  destruct (dry_run_leaves_the_disk_alone SamplePath SampleFS sampleVerdicts
              "/backup/out" dryRunOptions sampleDisk eq_refl)
    as (report & E & Hk & _ & _ & _ & Hs).
  exists report. split; [exact E|].
  assert (Et : FileOperations.total report = 2%nat)
    by (vm_compute in E; injection E as <-; reflexivity).
  split; [congruence|]. split; [exact Et | exact Hs].
Defined.

Lemma processBlurryFiles_throws_only_for_the_directory_witness :
  filter FileOperations.isBlurryResult sampleVerdicts <> [] /\
  @FileOperations.processBlurryFiles SamplePath SampleFS sampleVerdicts
    "/readonly/out" copyOptions sampleDisk
  = (Throw "Failed to create directory /readonly/out: EACCES: permission denied, mkdir '/readonly/out'",
     sampleDisk) /\
  @FileOperations.processBlurryFiles SamplePath SampleFS
    [verdict "/photos/b.nef"%string 55 false] "/readonly/out" copyOptions sampleDisk
  = (Ok {| FileOperations.total := 0; FileOperations.successful := 0;
           FileOperations.failed := 0; FileOperations.skipped := 0;
           FileOperations.operations := [] |}, sampleDisk).
Proof.
  assert (N : filter FileOperations.isBlurryResult sampleVerdicts <> [])
    by discriminate.
  split; [exact N|]. split.
  - apply (proj2 (processBlurryFiles_throws_only_for_the_directory
                    SamplePath SampleFS sampleVerdicts "/readonly/out"
                    copyOptions sampleDisk)).
    split; [exact N|]. split; [reflexivity|]. split; [reflexivity|].
    eexists. split; reflexivity.
  - apply (proj1 (processBlurryFiles_throws_only_for_the_directory
                    SamplePath SampleFS [verdict "/photos/b.nef"%string 55 false]
                    "/readonly/out" copyOptions sampleDisk)).
    reflexivity.
Defined.
(* ================================================================== *)
(** ** Reporters *)
(* ================================================================== *)

Lemma entry_kinds (r : TimedResult) :
  (Nat.b2n (isBlurryEntry r) + Nat.b2n (isSharpEntry r) +
   Nat.b2n (isErrorEntry r) = 1)%nat.
Proof.
  unfold isBlurryEntry, isSharpEntry, isErrorEntry.
  destruct (truthy_flag (isBlurry (result r))),
    (truthy_text (error (result r))); reflexivity.
Qed.

Lemma entries_partition (results : list TimedResult) :
  (List.length (filter isBlurryEntry results) +
   List.length (filter isSharpEntry results) +
   List.length (filter isErrorEntry results) = List.length results)%nat.
Proof.
  induction results as [|r results IH]; [reflexivity|].
  rewrite !length_filter_cons. cbn [List.length].
  pose proof (entry_kinds r). lia.
Qed.

Lemma filter_length_le {A : Type} (f : A -> bool) (l : list A) :
  (List.length (filter f l) <= List.length l)%nat.
Proof.
  induction l as [|a l IH]; [cbn; lia|].
  rewrite length_filter_cons. cbn [List.length].
  destruct (f a); cbn; lia.
Qed.

Lemma percentage_in_range (b t : nat) :
  (b <= t)%nat -> (0 < t)%nat ->
  in_range (JS.Math_round ((JS.of_nat b / JS.of_nat t) * JS.Fin 100)).
Proof.
  intros Hb Ht. unfold JS.of_nat.
  assert (Tq : (0 < inject_Z (Z.of_nat t))%Q).
  { change 0%Q with (inject_Z 0). rewrite <- Zlt_Qlt. lia. }
  assert (Bq : (0 <= inject_Z (Z.of_nat b))%Q).
  { change 0%Q with (inject_Z 0). rewrite <- Zle_Qle. lia. }
  assert (BT : (inject_Z (Z.of_nat b) <= inject_Z (Z.of_nat t))%Q).
  { rewrite <- Zle_Qle. lia. }
  rewrite div_fin by lra. cbn [JS.mul JS.Math_round].
  eexists. split; [reflexivity|].
  set (x := (inject_Z (Z.of_nat b) / inject_Z (Z.of_nat t))%Q).
  assert (X0 : (0 <= x)%Q) by (apply Qle_shift_div_l; [exact Tq | lra]).
  assert (X1 : (x <= 1)%Q) by (apply Qle_shift_div_r; [exact Tq | lra]).
  split.
  - assert (Qfloor 0 <= Qfloor (x * 100 + (1 # 2)))%Z
      by (apply Qfloor_resp_le; lra).
    assert (E : Qfloor 0 = 0%Z) by reflexivity.
    change 0%Q with (inject_Z 0). rewrite <- Zle_Qle. lia.
  - assert (Qfloor (x * 100 + (1 # 2)) <= Qfloor (100 + (1 # 2)))%Z
      by (apply Qfloor_resp_le; lra).
    assert (E : Qfloor (100 + (1 # 2)) = 100%Z) by reflexivity.
    change 100%Q with (inject_Z 100) at 2. rewrite <- Zle_Qle. lia.
Qed.

(** X20.  The summaries of the console and of the JSON reporter split
    the results into blurry, sharp and failed ones: [blurry + sharp + errors
    = total] in both.  In the JSON summary [total] is the number of results
    and [blurryPercentage] is a finite number in [0,100]; the JSON summary
    of no results is all zeros. *)
Theorem summary_counts_add_up (results : list TimedResult) :
  (ConsoleReporter.blurry (ConsoleReporter.generateSummary results) +
   ConsoleReporter.sharp (ConsoleReporter.generateSummary results) +
   ConsoleReporter.errors (ConsoleReporter.generateSummary results)
   = ConsoleReporter.total (ConsoleReporter.generateSummary results))%nat /\
  (JsonReporter.blurry (JsonReporter.generateSummary results) +
   JsonReporter.sharp (JsonReporter.generateSummary results) +
   JsonReporter.errors (JsonReporter.generateSummary results)
   = JsonReporter.total (JsonReporter.generateSummary results))%nat /\
  JsonReporter.total (JsonReporter.generateSummary results)
    = List.length results /\
  in_range (JsonReporter.blurryPercentage
              (JsonReporter.generateSummary results)) /\
  JsonReporter.generateSummary [] =
    {| JsonReporter.total := 0; JsonReporter.blurry := 0;
       JsonReporter.sharp := 0; JsonReporter.errors := 0;
       JsonReporter.blurryPercentage := JS.zero;
       JsonReporter.avgProcessingTime := JS.zero;
       JsonReporter.avgBlurScore := JS.zero |}.
Proof.
  split; [apply entries_partition|].
  split; [apply entries_partition|].
  split; [reflexivity|]. split; [|reflexivity].
  unfold JsonReporter.generateSummary.
  cbn [JsonReporter.blurryPercentage].
  destruct (0 <? List.length results)%nat eqn:E.
  - apply Nat.ltb_lt in E.
    apply percentage_in_range; [apply filter_length_le | exact E].
  - exists 0%Q. split; [reflexivity | lra].
Qed.

Lemma scoresOf_finite (results : list TimedResult) :
  Forall score_not_infinite results ->
  exists qs, JsonReporter.scoresOf results = map JS.Fin qs.
Proof.
  unfold JsonReporter.scoresOf.
  induction 1 as [|r results Hr _ (qs & IH)]; [exists []; reflexivity|].
  cbn [filter].
  destruct (negb (truthy_text (error (result r))) &&
            truthy_number (blurScore (result r))) eqn:E;
    [|exists qs; exact IH].
  apply andb_true_iff in E. destruct E as (_ & E).
  unfold score_not_infinite in Hr. unfold truthy_number in E.
  destruct (blurScore (result r)) as [v|] eqn:Ev; [|discriminate].
  destruct v as [q| | |]; try discriminate; try contradiction.
  exists (q :: qs). cbn [map]. rewrite IH, Ev. reflexivity.
Qed.

(** X21.  [avgBlurScore] of the JSON summary is taken over the results
    with a truthy score and no error only: removing a result whose score is
    absent, 0 or NaN, or that carries an error, does not change it.  When
    no score is infinite it is a finite number. *)
Theorem average_score_skips_unscored_results (results : list TimedResult) :
  (forall before r after,
      results = before ++ r :: after ->
      truthy_number (blurScore (result r)) = false \/ isErrorEntry r = true ->
      JsonReporter.avgBlurScore (JsonReporter.generateSummary results) =
      JsonReporter.avgBlurScore
        (JsonReporter.generateSummary (before ++ after))) /\
  (Forall score_not_infinite results ->
   exists q,
     JsonReporter.avgBlurScore (JsonReporter.generateSummary results)
     = JS.Fin q).
Proof.
  split.
  - intros before r after -> H.
    unfold JsonReporter.generateSummary. cbn [JsonReporter.avgBlurScore].
    assert (E : JsonReporter.scoresOf (before ++ r :: after) =
                JsonReporter.scoresOf (before ++ after)).
    { unfold JsonReporter.scoresOf. rewrite !filter_app. cbn [filter].
      unfold isErrorEntry in H.
      destruct H as [H|H]; rewrite H; cbn [negb andb];
        rewrite ?andb_false_r; reflexivity. }
    rewrite E. reflexivity.
  - intro H. unfold JsonReporter.generateSummary.
    cbn [JsonReporter.avgBlurScore].
    destruct (scoresOf_finite results H) as (qs & E). rewrite E.
    rewrite length_map.
    destruct (0 <? List.length qs)%nat eqn:L;
      [|exists 0%Q; reflexivity].
    apply Nat.ltb_lt in L.
    unfold JS.sum, JS.zero, JS.of_nat. rewrite sum_loop_fin.
    assert (Hn : (0 < inject_Z (Z.of_nat (List.length qs)))%Q).
    { change 0%Q with (inject_Z 0). rewrite <- Zlt_Qlt. lia. }
    rewrite div_fin by lra. cbn [JS.mul JS.Math_round].
    rewrite div_fin by discriminate. eexists. reflexivity.
Qed.

Lemma average_score_skips_unscored_results_witness :
  Forall score_not_infinite sampleTimed /\
  JsonReporter.avgBlurScore (JsonReporter.generateSummary sampleTimed)
    == JS.Fin (67 # 2) /\
  JsonReporter.avgBlurScore (JsonReporter.generateSummary sampleTimed) =
  JsonReporter.avgBlurScore
    (JsonReporter.generateSummary (firstn 3 sampleTimed)) /\
  JsonReporter.total (JsonReporter.generateSummary sampleTimed) = 4%nat /\
  JsonReporter.blurry (JsonReporter.generateSummary sampleTimed) = 1%nat /\
  JsonReporter.sharp (JsonReporter.generateSummary sampleTimed) = 2%nat /\
  JsonReporter.errors (JsonReporter.generateSummary sampleTimed) = 1%nat.
Proof.
  assert (F : Forall score_not_infinite sampleTimed)
    by (repeat constructor).
  split; [exact F|].
  destruct (average_score_skips_unscored_results sampleTimed) as (Hskip & Hfin).
  destruct (Hfin F) as (q & Eq).
  split; [vm_compute; reflexivity|].
  split; [|repeat split].
  apply (Hskip (firstn 3 sampleTimed) (nth 3 sampleTimed
                  {| result := verdict EmptyString 0 false;
                     processingTime := None |}) []);
    [reflexivity | left; reflexivity].
Defined.
(* ================================================================== *)
(** ** Blur map display *)
(* ================================================================== *)

Lemma floor_quarter (q : Q) (k : Z) :
  (inject_Z k * 25 <= q)%Q -> (q < (inject_Z k + 1) * 25)%Q ->
  Qfloor (q / 25) = k.
Proof.
  intros L U.
  assert (E : (q / 25 * 25 == q)%Q) by (field; discriminate).
  assert (L' : (inject_Z k <= q / 25)%Q) by lra.
  assert (U' : (q / 25 < inject_Z k + 1)%Q) by lra.
  pose proof (Qfloor_le (q / 25)) as F1.
  pose proof (Qlt_floor (q / 25)) as F2.
  assert (A : (inject_Z (Qfloor (q / 25)) < inject_Z (k + 1))%Q)
    by (rewrite inject_Z_plus; change (inject_Z 1) with 1%Q; lra).
  assert (B : (inject_Z k < inject_Z (Qfloor (q / 25) + 1))%Q) by lra.
  rewrite <- Zlt_Qlt in A, B. lia.
Qed.

Lemma appendChar_shade (line : BlurMapDisplay.jsstring) (q : Q) :
  (0 <= q)%Q ->
  BlurMapDisplay.appendCharAt line BlurMapDisplay.chars
    (BlurMapDisplay.charIndex (JS.Fin q)) = line ++ [shade q].
Proof.
  intro H0. unfold BlurMapDisplay.charIndex.
  rewrite div_fin by discriminate. cbn [JS.Math_floor]. unfold shade.
  destruct (Qlt_le_dec q 25) as [H1|H1];
    [rewrite (floor_quarter q 0) by (unfold inject_Z; lra); reflexivity|].
  destruct (Qlt_le_dec q 50) as [H2|H2];
    [rewrite (floor_quarter q 1) by (unfold inject_Z; lra); reflexivity|].
  destruct (Qlt_le_dec q 75) as [H3|H3];
    [rewrite (floor_quarter q 2) by (unfold inject_Z; lra); reflexivity|].
  destruct (Qlt_le_dec q 100) as [H4|H4];
    [rewrite (floor_quarter q 3) by (unfold inject_Z; lra); reflexivity|].
  assert (F : (4 <= Qfloor (q / 25))%Z).
  { change 4%Z with (Qfloor (inject_Z 4)) at 1.
    - apply Qfloor_resp_le.
      assert (E : (q / 25 * 25 == q)%Q) by (field; discriminate).
      change (inject_Z 4) with 4%Q. lra. }
  unfold JS.Math_min.
  assert (L : (JS.Fin (inject_Z (Qfloor (q / 25))) < JS.Fin 4) = false).
  { destruct (JS.Fin (inject_Z (Qfloor (q / 25))) < JS.Fin 4) eqn:E;
      [|reflexivity].
    apply lt_fin in E. change 4%Q with (inject_Z 4) in E.
    rewrite <- Zlt_Qlt in E. lia. }
  rewrite L. reflexivity.
Qed.

Lemma formatRow_loop (row : list JS.num) (line : BlurMapDisplay.jsstring) :
  fold_left (fun line value =>
               BlurMapDisplay.appendCharAt line BlurMapDisplay.chars
                 (BlurMapDisplay.charIndex value)) row line =
  line ++ BlurMapDisplay.formatRow row.
Proof.
  unfold BlurMapDisplay.formatRow.
  revert line. induction row as [|v row IH]; intro line;
    [cbn; rewrite app_nil_r; reflexivity|].
  cbn [fold_left]. rewrite IH. rewrite (IH (BlurMapDisplay.appendCharAt [] _ _)).
  rewrite app_assoc. f_equal.
  unfold BlurMapDisplay.appendCharAt.
  destruct (BlurMapDisplay.charIndex v) as [q| | |]; try reflexivity.
  destruct (Qeq_bool (inject_Z (Qfloor q)) q && (0 <=? Qfloor q)%Z);
    [|reflexivity].
  destruct (nth_error BlurMapDisplay.chars (Z.to_nat (Qfloor q)));
    reflexivity.
Qed.

Lemma formatRow_cons (v : JS.num) (row : list JS.num) :
  BlurMapDisplay.formatRow (v :: row) =
  BlurMapDisplay.appendCharAt [] BlurMapDisplay.chars
    (BlurMapDisplay.charIndex v) ++ BlurMapDisplay.formatRow row.
Proof.
  unfold BlurMapDisplay.formatRow at 1. cbn [fold_left].
  apply formatRow_loop.
Qed.

Lemma formatRow_app (before after : list JS.num) :
  BlurMapDisplay.formatRow (before ++ after) =
  BlurMapDisplay.formatRow before ++ BlurMapDisplay.formatRow after.
Proof.
  unfold BlurMapDisplay.formatRow at 1. rewrite fold_left_app.
  fold (BlurMapDisplay.formatRow before). apply formatRow_loop.
Qed.

Lemma formatRow_shades (row : list JS.num) :
  Forall (fun v => exists q, v = JS.Fin q /\ (0 <= q)%Q) row ->
  exists qs, row = map JS.Fin qs /\
             BlurMapDisplay.formatRow row = map shade qs.
Proof.
  induction 1 as [|v row (q & -> & Hq) _ (qs & -> & IH)];
    [exists []; split; reflexivity|].
  exists (q :: qs). split; [reflexivity|].
  rewrite formatRow_cons, appendChar_shade by exact Hq.
  rewrite IH. reflexivity.
Qed.

Lemma lines_loop (blurMap : list (list JS.num))
  (lines : list BlurMapDisplay.jsstring) :
  fold_left (fun lines row => lines ++ [BlurMapDisplay.formatRow row])
            blurMap lines =
  lines ++ map BlurMapDisplay.formatRow blurMap.
Proof.
  revert lines. induction blurMap as [|row blurMap IH]; intro lines;
    [cbn; rewrite app_nil_r; reflexivity|].
  cbn [fold_left map]. rewrite IH, <- app_assoc. reflexivity.
Qed.

(** X22.  For a blur map of finite non-negative values [formatBlurMap]
    draws one line per row, joined by line feeds, and one character per
    cell: a space below 25, U+2591 from 25, U+2592 from 50, U+2593 from 75
    and the full block U+2588 from 100 on.  A NaN cell is drawn as the nine
    characters of [undefined]. *)
Theorem formatBlurMap_draws_one_shade_per_patch
  (blurMap : list (list JS.num)) (width : option JS.num) :
  Forall (Forall (fun v => exists q, v = JS.Fin q /\ (0 <= q)%Q)) blurMap ->
  exists cells : list (list Q),
    blurMap = map (map JS.Fin) cells /\
    BlurMapDisplay.formatBlurMap blurMap width =
      BlurMapDisplay.join BlurMapDisplay.newline (map (map shade) cells) /\
    (forall before after,
        BlurMapDisplay.formatRow (before ++ JS.NaN :: after) =
        BlurMapDisplay.formatRow before ++ BlurMapDisplay.undefined_text ++
        BlurMapDisplay.formatRow after).
Proof.
  intro H.
  assert (C : exists cells : list (list Q),
             blurMap = map (map JS.Fin) cells /\
             map BlurMapDisplay.formatRow blurMap = map (map shade) cells).
  { induction H as [|row blurMap Hrow _ (cells & -> & IH)];
      [exists []; split; reflexivity|].
    destruct (formatRow_shades row Hrow) as (qs & -> & E).
    exists (qs :: cells). split; [reflexivity|].
    cbn [map]. rewrite E, IH. reflexivity. }
  destruct C as (cells & E1 & E2). exists cells.
  split; [exact E1|]. split.
  - unfold BlurMapDisplay.formatBlurMap. rewrite lines_loop.
    cbn [app]. rewrite E2. reflexivity.
  - intros before after. rewrite formatRow_app, formatRow_cons.
    reflexivity.
Qed.

Lemma formatBlurMap_draws_one_shade_per_patch_witness :
  Forall (Forall (fun v => exists q, v = JS.Fin q /\ (0 <= q)%Q))
         sampleBlurMap /\
  BlurMapDisplay.formatBlurMap sampleBlurMap None =
    [32; 32; 9617; 10; 9618; 9619; 9608]%N.
Proof.
  assert (H : Forall (Forall (fun v => exists q, v = JS.Fin q /\ (0 <= q)%Q))
                     sampleBlurMap).
  { repeat (apply Forall_cons;
            [repeat (apply Forall_cons;
                     [eexists; split; [reflexivity | cbn; lra]|]);
             apply Forall_nil|]).
    apply Forall_nil. }
  split; [exact H|].
  destruct (formatBlurMap_draws_one_shade_per_patch sampleBlurMap None H)
    as (cells & _ & E & _).
  vm_compute. reflexivity.
Defined.
